(** * Survey report for UTP graduates: header detection, filter columns,
      answer normalisation and the report driver of [app.py]

    The development embeds the decision logic of [app.py] as Rocq functions
    and proves the properties its specification states about them.

    Python strings are sequences of Unicode code points, so text is a list
    of code points.  What the program takes from the Python runtime (the
    Unicode character database behind [str.lower], [unicodedata] and [re];
    [float], rounding and formatting of IEEE doubles, the sort of numpy)
    is an interface:
    the general theorems hold for every implementation of it, and the
    concrete inputs are run on the tables of Unicode 14 for Basic Latin,
    Latin-1 Supplement and the combining diacritical marks, and on
    binary64 arithmetic. *)

From Stdlib Require Import String Ascii.
From Stdlib Require Import List NArith ZArith Bool Lia Permutation Sorted.
From Stdlib Require Import Floats.SpecFloat.
Import ListNotations.

Set Implicit Arguments.

(* ================================================================= *)
(** ** Text *)

Module Txt.

(** A code point, and a Python [str]. *)
Definition cp := N.
Definition ustr := list cp.

Definition SP : cp := 32%N.
Definition NBSP : cp := 160%N.
Definition LF : cp := 10%N.

(** String literals of the source are written as UTF-8 and decoded. *)
Fixpoint utf8_decode_from (acc : N) (more : nat) (s : string) : ustr :=
  match s with
  | EmptyString => []
  | String a rest =>
      let b := N_of_ascii a in
      match more with
      | O =>
          if (b <? 128)%N then b :: utf8_decode_from 0 0 rest
          else if (b <? 224)%N then utf8_decode_from (b - 192) 1 rest
          else if (b <? 240)%N then utf8_decode_from (b - 224) 2 rest
          else utf8_decode_from (b - 240) 3 rest
      | S O => (acc * 64 + (b - 128))%N :: utf8_decode_from 0 0 rest
      | S m => utf8_decode_from (acc * 64 + (b - 128)) m rest
      end
  end.

Definition u (s : string) : ustr := utf8_decode_from 0 0 s.

Fixpoint ustr_eqb (a b : ustr) : bool :=
  match a, b with
  | [], [] => true
  | x :: a', y :: b' => (x =? y)%N && ustr_eqb a' b'
  | _, _ => false
  end.

Definition is_empty (s : ustr) : bool :=
  match s with [] => true | _ => false end.

(** [s.startswith(p)] *)
Fixpoint prefixb (p s : ustr) : bool :=
  match p, s with
  | [], _ => true
  | x :: p', y :: s' => (x =? y)%N && prefixb p' s'
  | _ :: _, [] => false
  end.

(** [needle in hay] *)
Fixpoint contains (needle hay : ustr) : bool :=
  prefixb needle hay ||
  match hay with
  | [] => false
  | _ :: t => contains needle t
  end.

(** [any(p in c for p in patterns)] *)
Definition contains_any (patterns : list ustr) (c : ustr) : bool :=
  existsb (fun p => contains p c) patterns.

(** [s.replace(a, b)] for one-character [a] and [b]. *)
Definition replace_cp (a b : cp) (s : ustr) : ustr :=
  map (fun c => if (c =? a)%N then b else c) s.

Fixpoint dropwhile (f : cp -> bool) (s : ustr) : ustr :=
  match s with
  | [] => []
  | c :: t => if f c then dropwhile f t else s
  end.

Definition mem_ustr (s : ustr) (l : list ustr) : bool :=
  existsb (ustr_eqb s) l.

(** Lexicographic order on code points, the order of [sorted] on [str]. *)
Fixpoint ustr_leb (a b : ustr) : bool :=
  match a, b with
  | [], _ => true
  | _ :: _, [] => false
  | x :: a', y :: b' =>
      if (x <? y)%N then true
      else if (y <? x)%N then false
      else ustr_leb a' b'
  end.

End Txt.
Export Txt.

(* ================================================================= *)
(** ** The Unicode character database, as the program uses it *)

Class Unicode := {
  (** [ch.isspace()], which is also [\s] of a [str] pattern *)
  isspace : cp -> bool;
  (** [s.lower()] and [s.upper()] *)
  str_lower : ustr -> ustr;
  str_upper : ustr -> ustr;
  (** [unicodedata.normalize("NFD", s)] *)
  nfd : ustr -> ustr;
  (** [unicodedata.category(ch) == "Mn"] *)
  is_Mn : cp -> bool;
  (** [\d] of a [str] pattern: the decimal digits, with the value [int] gives them *)
  digit_value : cp -> option N;
  (** simple case mappings, which [re.IGNORECASE] compares with *)
  tolower : cp -> cp;
  toupper : cp -> cp
}.

Section Strings.
Context {U : Unicode}.

Definition lstrip (s : ustr) : ustr := dropwhile isspace s.
Definition rstrip (s : ustr) : ustr := rev (dropwhile isspace (rev s)).
(** [s.strip()] *)
Definition strip (s : ustr) : ustr := rstrip (lstrip s).

(** [re.sub(r"\s+", " ", s)]; [in_run] says that the previous character
    was white space, already replaced. *)
Fixpoint sub_ws (in_run : bool) (s : ustr) : ustr :=
  match s with
  | [] => []
  | c :: t =>
      if isspace c then
        if in_run then sub_ws true t else SP :: sub_ws true t
      else c :: sub_ws false t
  end.

Definition is_digit (c : cp) : bool :=
  match digit_value c with Some _ => true | None => false end.
End Strings.

(* ================================================================= *)
(** ** Cells *)

(** A value of a table: a string, or missing ([None], [NaN]). *)
Inductive cell :=
| Missing
| Text (s : ustr).

Definition is_missing (v : cell) : bool :=
  match v with Missing => true | Text _ => false end.

(* ================================================================= *)
(** ** Constants of the program *)

Definition PROGRAM_PATTERNS : list ustr := [u "programa"].

Definition YEAR_PATTERNS : list ustr :=
  [ u "añoegreso";
    u "año egreso";
    u "anoegreso";
    u "ano egreso";
    u "año de egreso";
    u "ano de egreso" ].

(* ================================================================= *)
(** ** [norm] and [normalize_beneficios] *)

Section Normalizer.
Context {U : Unicode}.

(** [norm(s)]: lower case, no accents, no double spaces. *)
Definition norm (v : cell) : ustr :=
  match v with
  | Missing => []
  | Text s =>
      let s := str_lower (strip (replace_cp NBSP SP s)) in
      let s := nfd s in
      let s := filter (fun ch => negb (is_Mn ch)) s in
      sub_ws false s
  end.

Definition cat_ninguno := u "Ninguno / no conoce beneficios".
Definition cat_descuentos := u "Descuentos y beneficios económicos".
Definition cat_laboral := u "Vinculación laboral / empleabilidad".
Definition cat_informacion := u "Información y comunicación con egresados".
Definition cat_actividades := u "Actividades deportivas, culturales y recreativas".
Definition cat_todos := u "Todos los beneficios".

(** [normalize_beneficios(texto)].  A missing [texto] normalises to the
    empty string and returns before [texto.lower()] is reached. *)
Definition normalize_beneficios (texto : cell) : ustr :=
  match texto with
  | Missing => []
  | Text raw =>
      let t := norm texto in
      if is_empty t then []
      else if contains (u "no aplica") t
           || contains (u "ninguno") t
           || contains (u "ningun ") t
           || contains (u "ninguno por el momento") t
           || contains (u "no tengo conocimiento") t
           || contains (u "no conozco los beneficios") t
           || contains (u "no conozco los beneficios actuales") t
      then cat_ninguno
      else if contains (u "descuento") t
           || contains (u "caminatas ecologicas") t
           || contains (u "caminatas ecológicas") (str_lower raw)
      then cat_descuentos
      else if contains (u "empleabilidad") t
           || contains (u "vinculacion laboral") t
           || contains (u "vinculación laboral") (str_lower raw)
           || contains (u "bolsa de empleo") t
           || contains (u "vinculacion a la bolsa de empleo") t
      then cat_laboral
      else if contains (u "informacion") t
           || contains (u "información") (str_lower raw)
      then cat_informacion
      else if contains (u "actividades deportivas") t
           || contains (u "actividades culturales") t
           || contains (u "recreativas") t
      then cat_actividades
      else if ustr_eqb t (u "todos") then cat_todos
      else strip raw
  end.
End Normalizer.

(* ================================================================= *)
(** ** Exceptions and results *)

Inductive exn :=
(** [KeyError] of [detect_program_year_columns]: its message ends with
    [list(df.columns)], the headers found *)
| MissingColumns (found : list ustr)
(** [df[col]] of a name that is no column *)
| KeyError (name : ustr)
(** [.str] of a [DataFrame], which [df[col]] is when [col] names several columns *)
| AttributeError (name : ustr)
(** [astype(int)] of a value that is not finite *)
| IntCastingNaNError
(** [pd.read_csv] of a file in which it finds no record *)
| EmptyDataError.

Inductive result (A : Type) :=
| Ok (a : A)
| Raise (e : exn).
Arguments Ok {A} a.
Arguments Raise {A} e.

Definition bind {A B : Type} (r : result A) (k : A -> result B) : result B :=
  match r with
  | Ok a => k a
  | Raise e => Raise e
  end.

Notation "x <- r ;; k" := (bind r (fun x => k))
  (at level 61, r at next level, right associativity).
Notation "' p <- r ;; k" := (bind r (fun p => k))
  (at level 61, p pattern, r at next level, right associativity).

(* ================================================================= *)
(** ** Tables *)

(** [df_raw]: the rows of the file, no row taken as header. *)
Definition RawTable := list (list cell).

(** A [DataFrame] with its column names; the index is [0 .. n-1].  A frame
    of pandas is rectangular: every row is as long as the list of columns. *)
Record Frame := {
  columns : list ustr;
  rows : list (list cell)
}.

(** The strings pandas reads as missing unless [keep_default_na=False]. *)
Definition STR_NA_VALUES : list ustr :=
  map u [ "-1.#IND"; "1.#QNAN"; "1.#IND"; "-1.#QNAN"; "#N/A N/A"; "#N/A";
          "N/A"; "n/a"; "NA"; "<NA>"; "#NA"; "NULL"; "null"; "NaN"; "-NaN";
          "nan"; "-nan"; "None"; "" ]%string.

(** One field of the file read with [dtype=str]. *)
Definition read_field (keep_default_na : bool) (field : ustr) : cell :=
  if keep_default_na && mem_ustr field STR_NA_VALUES then Missing
  else Text field.

(** [csv_source] is a path, which every [pd.read_csv] opens anew, or a
    file object such as the [UploadedFile] that [main] passes, which a
    [pd.read_csv] reads from where the one before left it. *)
Inductive source_kind :=
| FilePath
| FileObject.

(** What [load_data_with_header_detection] is given: the kind of the
    source, the records of the file split into fields (pandas pads a short
    record with empty fields), and the frame the plain
    [pd.read_csv(csv_source, encoding="utf-8")] makes of the file read from
    its start (first line as header, column types inferred). *)
Record CsvSource := {
  csv_kind : source_kind;
  csv_fields : list (list ustr);
  csv_default : Frame
}.

(** [pd.read_csv(csv_source, header=None, dtype=str, encoding="utf-8",
    keep_default_na=False)] *)
Definition read_csv_raw (src : CsvSource) : RawTable :=
  map (map (read_field false)) (csv_fields src).

(** [str(v)] of a cell. *)
Definition py_str (v : cell) : ustr :=
  match v with
  | Missing => u "nan"
  | Text s => s
  end.

Section Loader.
Context {U : Unicode}.

(** The test of one row in the loop of [load_data_with_header_detection]. *)
Definition is_header_row (row : list cell) : bool :=
  let row_norm := map norm row in
  let has_prog := existsb (contains_any PROGRAM_PATTERNS) row_norm in
  let has_year := existsb (contains_any YEAR_PATTERNS) row_norm in
  has_prog && has_year.

(** [for i in range(max_scan): ... break], with [todo] iterations left. *)
Fixpoint scan_rows (todo i : nat) (df_raw : RawTable) : option nat :=
  match todo with
  | O => None
  | S todo' =>
      match nth_error df_raw i with
      | Some row =>
          if is_header_row row then Some i
          else scan_rows todo' (S i) df_raw
      | None => None
      end
  end.

Definition header_row_idx (df_raw : RawTable) : option nat :=
  let n_rows := length df_raw in
  let max_scan := Nat.min n_rows 50 in
  scan_rows max_scan 0 df_raw.

Definition clean_header (h : ustr) : ustr :=
  strip (replace_cp NBSP SP h).

(** The first [pd.read_csv] raises on a file without records.  The second
    one, of the fall-back, finds a file object at its end, where the first
    left it, and raises as on an empty file. *)
Definition load_data_with_header_detection (src : CsvSource) : result Frame :=
  match csv_fields src with
  | [] => Raise EmptyDataError
  | _ :: _ =>
      let df_raw := read_csv_raw src in
      match header_row_idx df_raw with
      | None =>
          match csv_kind src with
          | FileObject => Raise EmptyDataError
          | FilePath =>
              let df := csv_default src in
              Ok {| columns := map clean_header (columns df); rows := rows df |}
          end
      | Some idx =>
          let headers := nth idx df_raw [] in
          Ok {| columns := map (fun h => clean_header (py_str h)) headers;
                rows := skipn (S idx) df_raw |}
      end
  end.

(** One iteration of the loop of [detect_program_year_columns] on the pair
    [(prog_col, year_col)]. *)
Definition detect_step (st : option ustr * option ustr) (c : ustr)
  : option ustr * option ustr :=
  let n := norm (Text c) in
  let prog_col :=
    match fst st with
    | None => if contains_any PROGRAM_PATTERNS n then Some c else None
    | Some p => Some p
    end in
  let year_col :=
    match snd st with
    | None => if contains_any YEAR_PATTERNS n then Some c else None
    | Some y => Some y
    end in
  (prog_col, year_col).

Definition detect_program_year_columns (df : Frame) : result (ustr * ustr) :=
  match fold_left detect_step (columns df) (None, None) with
  | (Some prog_col, Some year_col) => Ok (prog_col, year_col)
  | _ => Raise (MissingColumns (columns df))
  end.

End Loader.

(* ================================================================= *)
(** ** Columns of a frame *)

Fixpoint positions_from (i : nat) (name : ustr) (cols : list ustr) : list nat :=
  match cols with
  | [] => []
  | c :: t =>
      if ustr_eqb c name then i :: positions_from (S i) name t
      else positions_from (S i) name t
  end.

Definition column_at (df : Frame) (i : nat) : list cell :=
  map (fun r => nth i r Missing) (rows df).

(** [df[col]]: a [Series] when one column has the name, a [DataFrame] of the
    columns of that name when several have. *)
Inductive selection :=
| PdSeries (vals : list cell)
| PdFrame (cols : list (list cell)).

Definition getitem (df : Frame) (col : ustr) : result selection :=
  match positions_from 0 col (columns df) with
  | [] => Raise (KeyError col)
  | [i] => Ok (PdSeries (column_at df i))
  | ps => Ok (PdFrame (map (column_at df) ps))
  end.

(** [df[col]] where the code goes on with [.str]. *)
Definition getitem_str (df : Frame) (col : ustr) : result (list cell) :=
  sel <- getitem df col ;;
  match sel with
  | PdSeries vals => Ok vals
  | PdFrame _ => Raise (AttributeError (u "str"))
  end.

Fixpoint zip_with {A B C : Type} (f : A -> B -> C) (l : list A) (l' : list B) : list C :=
  match l, l' with
  | a :: t, b :: t' => f a b :: zip_with f t t'
  | _, _ => []
  end.

(** [df[mask]] *)
Fixpoint select_rows {A : Type} (mask : list bool) (l : list A) : list A :=
  match mask, l with
  | b :: mask', r :: l' =>
      if b then r :: select_rows mask' l' else select_rows mask' l'
  | _, _ => []
  end.

Section Counting.
Variable K : Type.
Variable eqb : K -> K -> bool.

Fixpoint count (x : K) (l : list K) : nat :=
  match l with
  | [] => O
  | y :: t => if eqb x y then S (count x t) else count x t
  end.

(** [unique()]: the distinct values, in order of first appearance. *)
Fixpoint uniq (l : list K) : list K :=
  match l with
  | [] => []
  | x :: t => x :: filter (fun y => negb (eqb x y)) (uniq t)
  end.

(** The distinct values with the number of times each occurs. *)
Definition tally (l : list K) : list (K * nat) :=
  map (fun x => (x, count x l)) (uniq l).

Fixpoint lookup (k : K) (d : list (K * nat)) : option nat :=
  match d with
  | [] => None
  | (k', n) :: t => if eqb k k' then Some n else lookup k t
  end.
End Counting.

Definition unique : list ustr -> list ustr := uniq ustr_eqb.
Definition count_ustr : ustr -> list ustr -> nat := count ustr_eqb.
Definition count_Z : Z -> list Z -> nat := count Z.eqb.

Section Sorting.
Variable A : Type.
Variable leb : A -> A -> bool.

Fixpoint insert_sorted (x : A) (l : list A) : list A :=
  match l with
  | [] => [x]
  | y :: t => if leb x y then x :: l else y :: insert_sorted x t
  end.

(** A stable sort, as [sorted] is. *)
Definition sort (l : list A) : list A := fold_right insert_sorted [] l.
End Sorting.

(* ================================================================= *)
(** ** [get_program_year_filters] *)

Definition TODOS_LOS_PROGRAMAS : ustr := u "Todos los programas".
Definition TODOS : ustr := u "Todos".

(** The values of the program column that stand for no program. *)
Definition PROGRAMA_VACIO : list ustr :=
  map u [ ""; "nan"; "NaN"; "NULL"; "null" ]%string.

(** The two [st.sidebar.selectbox] calls: each answers with an entry of the
    list of options it is given. *)
Record Sidebar := {
  sidebar_programa : list ustr -> ustr;
  sidebar_year : list ustr -> ustr
}.

Definition picks_option (select : list ustr -> ustr) : Prop :=
  forall options, options <> [] -> In (select options) options.

Fixpoint somes {A : Type} (l : list (option A)) : list A :=
  match l with
  | [] => []
  | Some a :: t => a :: somes t
  | None :: t => somes t
  end.

Section Filters.
Context {U : Unicode}.

(** An element of [prog_series]: [astype(str)], [strip], and the empty
    values replaced by [pd.NA] ([None] here). *)
Definition prog_value (v : cell) : option ustr :=
  let s := strip (py_str v) in
  if mem_ustr s PROGRAMA_VACIO then None else Some s.

(** An element of [years_raw]: [dropna] removes the missing ones from the
    series ([None] here: the row has no entry), the others are stripped. *)
Definition year_value (v : cell) : option ustr :=
  match v with
  | Missing => None
  | Text s => Some (strip s)
  end.

(** A match of [(19\d{2}|20\d{2}|2100)] at the start of [s]. *)
Definition year_at (s : ustr) : option ustr :=
  match s with
  | a :: b :: c :: d :: _ =>
      if prefixb (u "19") s && is_digit c && is_digit d then Some [a; b; c; d]
      else if prefixb (u "20") s && is_digit c && is_digit d then Some [a; b; c; d]
      else if prefixb (u "2100") s then Some [a; b; c; d]
      else None
  | _ => None
  end.

(** [re.search(r"(19\d{2}|20\d{2}|2100)", val)], the text of the match. *)
Fixpoint search_year (val : ustr) : option ustr :=
  match year_at val with
  | Some y => Some y
  | None =>
      match val with
      | [] => None
      | _ :: t => search_year t
      end
  end.

(** [int(y)] of a string of decimal digits. *)
Definition int_of_digits (y : ustr) : N :=
  fold_left
    (fun acc c => (acc * 10 + match digit_value c with Some d => d | None => 0 end)%N)
    y 0%N.

(** [years]: the distinct matches, sorted by [int].  (Python sorts a set,
    so two different spellings of one number come in either order; here
    they keep the order of first appearance.) *)
Definition years_of (years_raw : list (option ustr)) : list ustr :=
  sort (fun a b => (int_of_digits a <=? int_of_digits b)%N)
       (unique (somes (map search_year (somes years_raw)))).

(** [programas]: the distinct programs, sorted. *)
Definition programas_of (prog_series : list (option ustr)) : list ustr :=
  sort ustr_leb (unique (somes prog_series)).

(** [prog_series.eq(programa_sel)]: a [pd.NA] entry compares as [False]. *)
Definition eq_sel (programa_sel : ustr) (v : option ustr) : bool :=
  match v with
  | Some s => ustr_eqb s programa_sel
  | None => false
  end.

(** [years_raw.str.contains(year_sel)] aligned with [mask]: a row that
    [dropna] removed has no entry, which [&] takes for [False].  The
    offered years are digits only, so the pattern matches as plain text. *)
Definition contains_sel (year_sel : ustr) (v : option ustr) : bool :=
  match v with
  | Some s => contains year_sel s
  | None => false
  end.

Definition get_program_year_filters (ui : Sidebar) (df : Frame)
  : result (Frame * ustr * ustr) :=
  ' (prog_col, year_col) <- detect_program_year_columns df ;;
  prog_cells <- getitem_str df prog_col ;;
  let prog_series := map prog_value prog_cells in
  let programas := programas_of prog_series in
  year_cells <- getitem_str df year_col ;;
  let years_raw := map year_value year_cells in
  let years := years_of years_raw in
  let opciones_prog := TODOS_LOS_PROGRAMAS :: programas in
  let programa_sel := sidebar_programa ui opciones_prog in
  let year_sel := sidebar_year ui (TODOS :: years) in
  let mask := map (fun _ => true) (rows df) in
  let mask :=
    if negb (ustr_eqb programa_sel TODOS_LOS_PROGRAMAS)
    then zip_with andb mask (map (eq_sel programa_sel) prog_series)
    else mask in
  let mask :=
    if negb (ustr_eqb year_sel TODOS)
    then zip_with andb mask (map (contains_sel year_sel) years_raw)
    else mask in
  let df_filtrado := {| columns := columns df; rows := select_rows mask (rows df) |} in
  Ok (df_filtrado, programa_sel, year_sel).

End Filters.

(* ================================================================= *)
(** ** Numbers of the Python runtime *)

(** The [float] of Python with what the program does with it, and the
    sort of numpy. *)
Class PyFloat := {
  pyfloat : Type;
  (** [float(s)]; [None] is [ValueError] *)
  py_float : ustr -> option pyfloat;
  (** one element of [s.round().astype(int)]; [None] for a value that is
      not finite, on which the conversion raises *)
  round_astype_int : pyfloat -> option Z;
  (** [s.mean()] *)
  series_mean : list pyfloat -> pyfloat;
  (** [f"{avg:.2f}"] *)
  format_2f : pyfloat -> ustr;
  (** one element of [pd.to_numeric(col, errors="coerce")] of a string;
      [None] is what is coerced to [NaN] *)
  to_numeric : ustr -> option pyfloat;
  float_is_nan : pyfloat -> bool;
  float_is_zero : pyfloat -> bool;
  (** [df_counts.sort_values("Conteo", ascending=False)] of the rows of a
      table of names and counts: the rows by falling count.  The order the
      quicksort of numpy gives to rows of one count is its own. *)
  sort_values : list (ustr * nat) -> list (ustr * nat)
}.

(* ================================================================= *)
(** ** What the page shows *)

Inductive label :=
| LStr (s : ustr)
| LInt (n : Z).

Inductive st_event :=
| Info (msg : ustr)
| Warning (msg : ustr)
| Markdown (body : ustr)
| Caption (body : ustr)
(** [st.altair_chart] of a table with the two named columns *)
| AltairChart (names : ustr * ustr) (data : list (label * nat)).

(** What a part of the page shows, and the exception that ended it. *)
Definition outcome := (list st_event * option exn)%type.

Definition and_then (a b : outcome) : outcome :=
  match a with
  | (evs, Some e) => (evs, Some e)
  | (evs, None) => (evs ++ fst b, snd b)
  end.

Definition in_sequence (l : list outcome) : outcome :=
  fold_right and_then ([], None) l.

(* ================================================================= *)
(** ** Counting *)

Definition by_count_desc {K : Type} (a b : K * nat) : bool :=
  Nat.leb (snd b) (snd a).

(** [value_counts()]: the distinct values with their counts, most frequent
    first.  (Equal counts are kept here in order of first appearance.) *)
Definition value_counts (l : list ustr) : list (ustr * nat) :=
  sort by_count_desc (tally ustr_eqb l).

(** [head(n)]: the first [n] entries, all but the last [-n] for negative [n]. *)
Definition head {A : Type} (n : Z) (l : list A) : list A :=
  if (0 <=? n)%Z then firstn (Z.to_nat n) l
  else firstn (length l - Z.to_nat (- n)) l.

Definition str_data (d : list (ustr * nat)) : list (label * nat) :=
  map (fun p => (LStr (fst p), snd p)) d.

(** The sum of the counts of a distribution. *)
Definition total {K : Type} (d : list (K * nat)) : nat :=
  fold_right (fun p acc => snd p + acc) O d.

Fixpoint texts (l : list cell) : list ustr :=
  match l with
  | [] => []
  | Missing :: t => texts t
  | Text s :: t => s :: texts t
  end.

Definition is_nil {A : Type} (l : list A) : bool :=
  match l with [] => true | _ => false end.

(* ================================================================= *)
(** ** The charts *)

Definition SIN_DATOS : ustr := u "Sin datos para esta pregunta.".
Definition SIN_ESCALA : ustr :=
  u "No se pudo interpretar la escala 1–5 en esta pregunta.".
Definition BENEFICIOS_COL : ustr :=
  u "¿Qué beneficios te gustaría obtener de una asociación de egresados?".

Definition YES_ALTERNATIVES : list ustr := map u [ "si"; "sí"; "true"; "1"; "x" ]%string.
Definition NO_ALTERNATIVES : list ustr := map u [ "no"; "false"; "0" ]%string.

Section Charts.
Context {U : Unicode} {F : PyFloat}.

(** How [re.IGNORECASE] compiles a character of the two patterns: a digit
    is not cased and matches itself; a letter matches the characters whose
    lower case is the letter or one of the letters [re] holds equivalent
    (dotless i for i, long s for s). *)
Definition case_equivalents (p : cp) : list cp :=
  if (p =? 105)%N then [305%N]
  else if (p =? 115)%N then [383%N]
  else [].

Definition char_ignorecase (p c : cp) : bool :=
  if (p =? 48)%N || (p =? 49)%N then (c =? p)%N
  else existsb (N.eqb (tolower c)) (p :: case_equivalents p).

(** The literal [pat] at the start of [v]: what follows it. *)
Fixpoint literal_ignorecase (pat v : ustr) : option ustr :=
  match pat, v with
  | [], _ => Some v
  | p :: pat', c :: v' =>
      if char_ignorecase p c then literal_ignorecase pat' v' else None
  | _ :: _, [] => None
  end.

(** [$]: the end of the string, or the line feed that ends it. *)
Definition at_dollar (rest : ustr) : bool :=
  match rest with
  | [] => true
  | [c] => (c =? LF)%N
  | _ => false
  end.

(** [re.compile(r"^(a|b|...)$", re.IGNORECASE).match(v)] *)
Definition re_match (alternatives : list ustr) (v : ustr) : bool :=
  existsb
    (fun a =>
       match literal_ignorecase a v with
       | Some rest => at_dollar rest
       | None => false
       end)
    alternatives.

Definition binary_label (v : ustr) : ustr :=
  if re_match YES_ALTERNATIVES v then u "Sí"
  else if re_match NO_ALTERNATIVES v then u "No"
  else v.

Definition chart_binary (df : Frame) (col label : ustr) : result (list st_event) :=
  cells <- getitem_str df col ;;
  let serie := map strip (texts cells) in
  if is_nil serie then Ok [Info SIN_DATOS]
  else
    let mapped := map binary_label serie in
    let counts := value_counts mapped in
    Ok [AltairChart (u "Respuesta", u "Conteo") (str_data counts)].

Definition chart_categorical (df : Frame) (col label : ustr) (top_k : Z)
  : result (list st_event) :=
  cells <- getitem_str df col ;;
  let serie := map strip (texts cells) in
  let serie :=
    if ustr_eqb (strip col) BENEFICIOS_COL
    then map (fun s => normalize_beneficios (Text s)) serie
    else serie in
  if is_nil serie then Ok [Info SIN_DATOS]
  else
    let counts := head top_k (value_counts serie) in
    Ok [AltairChart (u "Categoría", u "Conteo") (str_data counts)].

(** [re.split(r"[;,/]", s)]; [part] is the current part, reversed. *)
Fixpoint re_split (part : ustr) (s : ustr) : list ustr :=
  match s with
  | [] => [rev part]
  | c :: t =>
      if (c =? 59)%N || (c =? 44)%N || (c =? 47)%N
      then rev part :: re_split [] t
      else re_split (c :: part) t
  end.

(** What [for v in sel.dropna()] goes through: the values of a series that
    are not missing, the column labels of a frame. *)
Definition iterate_dropna (col : ustr) (sel : selection) : list ustr :=
  match sel with
  | PdSeries vals => texts vals
  | PdFrame cols => map (fun _ => col) cols
  end.

Definition split_multi_values (col : ustr) (series : selection) : list ustr :=
  flat_map
    (fun val => filter (fun part => negb (is_empty part)) (map strip (re_split [] val)))
    (iterate_dropna col series).

Definition chart_multi (df : Frame) (col label : ustr) (top_k : Z)
  : result (list st_event) :=
  sel <- getitem df col ;;
  let serie := split_multi_values col sel in
  if is_nil serie then Ok [Info SIN_DATOS]
  else
    let counts := head top_k (value_counts serie) in
    Ok [AltairChart (u "Selección", u "Conteo") (str_data counts)].

(** [sel.dropna().empty] *)
Definition dropna_empty (n_rows : nat) (sel : selection) : bool :=
  match sel with
  | PdSeries vals => is_nil (texts vals)
  | PdFrame cols =>
      negb (existsb
              (fun i => forallb (fun c => negb (is_missing (nth i c Missing))) cols)
              (seq 0 n_rows))
  end.

Fixpoint parse_all (l : list ustr) : list pyfloat :=
  match l with
  | [] => []
  | v :: t =>
      match py_float (replace_cp 44%N 46%N v) with
      | Some n => n :: parse_all t
      | None => parse_all t
      end
  end.

(** [s.round().astype(int)] *)
Fixpoint round_all (l : list pyfloat) : result (list Z) :=
  match l with
  | [] => Ok []
  | x :: t =>
      match round_astype_int x with
      | Some n => ns <- round_all t ;; Ok (n :: ns)
      | None => Raise IntCastingNaNError
      end
  end.

(** [value_counts().sort_index()] of integers *)
Definition value_counts_sorted (l : list Z) : list (Z * nat) :=
  sort (fun a b => (fst a <=? fst b)%Z) (tally Z.eqb l).

(** [dist.reindex(keys, fill_value=fill)] *)
Definition reindex (keys : list Z) (fill : nat) (dist : list (Z * nat)) : list (Z * nat) :=
  map (fun k => (k, match lookup Z.eqb k dist with Some n => n | None => fill end)) keys.

Definition chart_likert (df : Frame) (col label : ustr) : result (list st_event) :=
  sel <- getitem df col ;;
  if dropna_empty (length (rows df)) sel then Ok [Info SIN_DATOS]
  else
    let numeric := parse_all (iterate_dropna col sel) in
    if is_nil numeric then Ok [Info SIN_ESCALA]
    else
      ints <- round_all numeric ;;
      let dist := value_counts_sorted ints in
      let df_dist := reindex [1; 2; 3; 4; 5]%Z 0 dist in
      let avg := series_mean numeric in
      Ok [ AltairChart (u "Valor", u "Conteo") (map (fun p => (LInt (fst p), snd p)) df_dist);
           Caption (u "Promedio: " ++ format_2f avg) ].

(** [pd.to_numeric(col_series, errors="coerce").fillna(0) != 0], one element *)
Definition selected (v : cell) : bool :=
  match v with
  | Missing => false
  | Text s =>
      match to_numeric s with
      | Some x => negb (float_is_nan x) && negb (float_is_zero x)
      | None => false
      end
  end.

Definition chart_multi_from_cols (df : Frame) (option_cols : list ustr) (label : ustr) (top_k : Z)
  : result (list st_event) :=
  if is_nil option_cols
  then Ok [Info (u "Sin columnas de opción configuradas para esta pregunta.")]
  else
    let data :=
      flat_map
        (fun c =>
           match positions_from 0 c (columns df) with
           | [] => []
           | i :: _ => [(c, length (filter selected (column_at df i)))]
           end)
        option_cols in
    if is_nil data
    then Ok [Info (u "Sin datos seleccionados para esta pregunta.")]
    else
      let df_counts := head top_k (sort_values data) in
      Ok [AltairChart (u "Selección", u "Conteo") (str_data df_counts)].

(* ================================================================= *)
(** ** The report: the loop over sections and questions of [main] *)

(** An entry of ["questions"] in [config.json]. *)
Record Question := {
  q_type : ustr;
  q_label : option ustr;
  q_column : option ustr;
  q_columns : option (list ustr);
  q_section : option ustr
}.

Record Config := {
  questions : list Question;
  top_k_categories : option Z
}.

Definition get {A : Type} (o : option A) (default : A) : A :=
  match o with Some a => a | None => default end.

(** [not col or col not in df_filt.columns] *)
Definition column_missing (df_filt : Frame) (col : option ustr) : bool :=
  match col with
  | None => true
  | Some c => is_empty c || negb (mem_ustr c (columns df_filt))
  end.

(** The [if]/[elif] chain on [qtype]. *)
Definition dispatch (cfg : Config) (df_filt : Frame) (q : Question) (qtype label : ustr)
  : result (list st_event) :=
  let col := get (q_column q) [] in
  let top_k := get (top_k_categories cfg) 10%Z in
  if ustr_eqb qtype (u "BINARIA") then chart_binary df_filt col label
  else if ustr_eqb qtype (u "CATEGORICA") then chart_categorical df_filt col label top_k
  else if ustr_eqb qtype (u "MULTI") then chart_multi df_filt col label top_k
  else if ustr_eqb qtype (u "LIKERT") then chart_likert df_filt col label
  else if ustr_eqb qtype (u "MULTI_COLS")
  then chart_multi_from_cols df_filt (get (q_columns q) []) label top_k
  else Ok [Info (u "Tipo no soportado: " ++ qtype)].

(** The body of [for q in preguntas_sec]. *)
Definition main_question (cfg : Config) (df_filt : Frame) (q : Question) : outcome :=
  let qtype := str_upper (q_type q) in
  let label := get (q_label q) [] in
  let col := q_column q in
  if negb (ustr_eqb qtype (u "MULTI_COLS")) && column_missing df_filt col
  then ([Warning (u "La columna no existe en los datos: "
                    ++ match col with Some c => c | None => u "None" end)], None)
  else
    match dispatch cfg df_filt q qtype label with
    | Ok evs => (Markdown (u "### " ++ label) :: evs, None)
    | Raise e => ([Markdown (u "### " ++ label)], Some e)
    end.

Definition SECTIONS : list ustr := map u [ "A"; "B"; "C"; "D"; "E" ]%string.

Definition section_title (sec : ustr) : ustr :=
  if ustr_eqb sec (u "A") then u "Situación Laboral"
  else if ustr_eqb sec (u "B") then u "Emprendimiento"
  else if ustr_eqb sec (u "C") then u "Satisfacción con los recursos ofrecidos por la Universidad"
  else if ustr_eqb sec (u "D") then u "Autoevaluación"
  else if ustr_eqb sec (u "E") then u "Acreditación Institucional "
  else u "Parte " ++ sec.

(** The body of [for sec in sections]. *)
Definition main_section (cfg : Config) (df_filt : Frame) (sec : ustr) : outcome :=
  let preguntas_sec :=
    filter (fun q => ustr_eqb (str_upper (get (q_section q) [])) sec) (questions cfg) in
  if is_nil preguntas_sec then ([], None)
  else
    and_then ([Markdown (u "## " ++ section_title sec)], None)
             (in_sequence (map (main_question cfg df_filt) preguntas_sec)).

Definition main_sections (cfg : Config) (df_filt : Frame) : outcome :=
  in_sequence (map (main_section cfg df_filt) SECTIONS).

End Charts.

(* ================================================================= *)
(** ** The tables of Unicode 14.0 for three blocks *)

(** Basic Latin and Latin-1 Supplement (U+0000 to U+00FF) and the
    Combining Diacritical Marks (U+0300 to U+036F).  The tables say
    nothing of other code points: the mappings leave them as they are and
    the classes do not hold them. *)
Module Latin.

Definition in_tables (c : cp) : bool :=
  (c <? 256)%N || ((768 <=? c)%N && (c <? 880)%N).

Definition isspace (c : cp) : bool :=
  ((9 <=? c)%N && (c <=? 13)%N) || ((28 <=? c)%N && (c <=? 32)%N)
  || (c =? 133)%N || (c =? 160)%N.

Definition tolower (c : cp) : cp :=
  if ((65 <=? c)%N && (c <=? 90)%N)
     || ((192 <=? c)%N && (c <=? 222)%N && negb (c =? 215)%N)
  then (c + 32)%N else c.

Definition toupper (c : cp) : cp :=
  if ((97 <=? c)%N && (c <=? 122)%N)
     || ((224 <=? c)%N && (c <=? 254)%N && negb (c =? 247)%N)
  then (c - 32)%N
  else if (c =? 181)%N then 924%N
  else if (c =? 255)%N then 376%N
  else if (c =? 837)%N then 921%N
  else c.

Definition str_lower (s : ustr) : ustr := map tolower s.

(** The sharp s is the one character of the blocks whose upper case is
    two characters. *)
Definition str_upper (s : ustr) : ustr :=
  flat_map (fun c => if (c =? 223)%N then [83%N; 83%N] else [toupper c]) s.

Definition is_Mn (c : cp) : bool := (768 <=? c)%N && (c <? 880)%N.

Definition digit_value (c : cp) : option N :=
  if (48 <=? c)%N && (c <=? 57)%N then Some (c - 48)%N else None.

(** Canonical decompositions, in full. *)
Definition DECOMPOSITIONS : list (cp * ustr) :=
  [ (192, [65; 768]); (193, [65; 769]); (194, [65; 770]); (195, [65; 771]);
    (196, [65; 776]); (197, [65; 778]); (199, [67; 807]); (200, [69; 768]);
    (201, [69; 769]); (202, [69; 770]); (203, [69; 776]); (204, [73; 768]);
    (205, [73; 769]); (206, [73; 770]); (207, [73; 776]); (209, [78; 771]);
    (210, [79; 768]); (211, [79; 769]); (212, [79; 770]); (213, [79; 771]);
    (214, [79; 776]); (217, [85; 768]); (218, [85; 769]); (219, [85; 770]);
    (220, [85; 776]); (221, [89; 769]); (224, [97; 768]); (225, [97; 769]);
    (226, [97; 770]); (227, [97; 771]); (228, [97; 776]); (229, [97; 778]);
    (231, [99; 807]); (232, [101; 768]); (233, [101; 769]); (234, [101; 770]);
    (235, [101; 776]); (236, [105; 768]); (237, [105; 769]); (238, [105; 770]);
    (239, [105; 776]); (241, [110; 771]); (242, [111; 768]); (243, [111; 769]);
    (244, [111; 770]); (245, [111; 771]); (246, [111; 776]); (249, [117; 768]);
    (250, [117; 769]); (251, [117; 770]); (252, [117; 776]); (253, [121; 769]);
    (255, [121; 776]); (832, [768]); (833, [769]); (835, [787]);
    (836, [776; 769]) ]%N.

(** Canonical combining classes of the marks: first, last, class. *)
Definition COMBINING : list (cp * cp * N) :=
  [ (768, 788, 230); (789, 789, 232); (790, 793, 220); (794, 794, 232);
    (795, 795, 216); (796, 800, 220); (801, 802, 202); (803, 806, 220);
    (807, 808, 202); (809, 819, 220); (820, 824, 1); (825, 828, 220);
    (829, 836, 230); (837, 837, 240); (838, 838, 230); (839, 841, 220);
    (842, 844, 230); (845, 846, 220); (847, 847, 0); (848, 850, 230);
    (851, 854, 220); (855, 855, 230); (856, 856, 232); (857, 858, 220);
    (859, 859, 230); (860, 860, 233); (861, 862, 234); (863, 863, 233);
    (864, 865, 234); (866, 866, 233); (867, 879, 230) ]%N.

Fixpoint assoc {A : Type} (c : cp) (t : list (cp * A)) : option A :=
  match t with
  | [] => None
  | (k, v) :: t' => if (k =? c)%N then Some v else assoc c t'
  end.

Definition decompose (c : cp) : ustr :=
  match assoc c DECOMPOSITIONS with
  | Some d => d
  | None => [c]
  end.

Fixpoint combining_in (c : cp) (t : list (cp * cp * N)) : N :=
  match t with
  | [] => 0%N
  | (lo, hi, k) :: t' =>
      if (lo <=? c)%N && (c <=? hi)%N then k else combining_in c t'
  end.

Definition combining (c : cp) : N := combining_in c COMBINING.

(** Canonical ordering: a mark moves right past the marks of a lower
    class that follow it. *)
Fixpoint place (c : cp) (rest : ustr) : ustr :=
  match rest with
  | [] => [c]
  | d :: rest' =>
      if (0 <? combining d)%N && (combining d <? combining c)%N
      then d :: place c rest'
      else c :: rest
  end.

Definition canonical_order (s : ustr) : ustr := fold_right place [] s.

Definition nfd (s : ustr) : ustr := canonical_order (flat_map decompose s).

End Latin.

#[export] Instance latin : Unicode := {|
  isspace := Latin.isspace;
  str_lower := Latin.str_lower;
  str_upper := Latin.str_upper;
  nfd := Latin.nfd;
  is_Mn := Latin.is_Mn;
  digit_value := Latin.digit_value;
  tolower := Latin.tolower;
  toupper := Latin.toupper
|}.

(* ================================================================= *)
(** ** IEEE binary64 *)

Module Binary64.

Definition prec : Z := 53.
Definition emax : Z := 1024.

(** The double nearest to [(-1)^neg * d * 10^x]. *)
Definition of_decimal (neg : bool) (d : N) (x : Z) : spec_float :=
  match d with
  | N0 => S754_zero neg
  | Npos p =>
      if (0 <=? x)%Z then
        match (Zpos p * 10 ^ x)%Z with
        | Zpos m => binary_round prec emax neg m 0
        | _ => S754_nan
        end
      else
        match (10 ^ (- x))%Z with
        | Zpos q => SFdiv prec emax (S754_finite neg p 0) (S754_finite false q 0)
        | _ => S754_nan
        end
  end.

Definition ascii_digit (c : cp) : bool := (48 <=? c)%N && (c <=? 57)%N.

(** A run of digits, single underscores allowed between two digits when
    [underscores] is set: the digits and what follows the run. *)
Fixpoint digitpart (underscores after_digit : bool) (s : ustr) : list N * ustr :=
  match s with
  | c :: t =>
      if ascii_digit c then
        let '(ds, rest) := digitpart underscores true t in ((c - 48)%N :: ds, rest)
      else if underscores && after_digit && (c =? 95)%N
              && match t with d :: _ => ascii_digit d | [] => false end
      then digitpart underscores false t
      else ([], s)
  | [] => ([], [])
  end.

Definition number_of (ds : list N) : N :=
  fold_left (fun acc d => (acc * 10 + d)%N) ds 0%N.

Definition sign_of (s : ustr) : bool * ustr :=
  match s with
  | c :: t => if (c =? 45)%N then (true, t)
              else if (c =? 43)%N then (false, t)
              else (false, s)
  | [] => (false, [])
  end.

(** The exponent part, if there is one: its value and what follows. *)
Definition exponent_of (underscores : bool) (s : ustr) : option (Z * ustr) :=
  match s with
  | c :: t =>
      if (c =? 101)%N || (c =? 69)%N then
        let '(neg, t') := sign_of t in
        match digitpart underscores false t' with
        | ([], _) => None
        | (ds, rest) =>
            let e := Z.of_N (number_of ds) in
            Some (if neg then (- e)%Z else e, rest)
        end
      else Some (0%Z, s)
  | [] => Some (0%Z, [])
  end.

Definition ascii_lower (s : ustr) : ustr :=
  map (fun c => if (65 <=? c)%N && (c <=? 90)%N then (c + 32)%N else c) s.

(** A number in plain decimal notation, all of [s]. *)
Definition plain_decimal (underscores : bool) (s : ustr) : option spec_float :=
  let '(neg, body) := sign_of s in
  let '(int_ds, rest) := digitpart underscores false body in
  let '(frac_ds, rest) :=
    match rest with
    | c :: t => if (c =? 46)%N then digitpart underscores false t else ([], rest)
    | [] => ([], [])
    end in
  if is_nil int_ds && is_nil frac_ds then None
  else
    match exponent_of underscores rest with
    | Some (e, []) =>
        Some (of_decimal neg (number_of (int_ds ++ frac_ds))
                         (e - Z.of_nat (length frac_ds)))
    | _ => None
    end.

(** A number in decimal notation or a name of an infinity or of [NaN],
    all of [s]. *)
Definition parse_decimal (underscores : bool) (s : ustr) : option spec_float :=
  let '(neg, body) := sign_of s in
  let name := ascii_lower body in
  if ustr_eqb name (u "inf") || ustr_eqb name (u "infinity") then Some (S754_infinity neg)
  else if ustr_eqb name (u "nan") then Some S754_nan
  else plain_decimal underscores s.

(** [isspace] of C: the space and the controls U+0009 to U+000D. *)
Definition c_isspace (c : cp) : bool :=
  (c =? 32)%N || ((9 <=? c)%N && (c <=? 13)%N).

Section WithUnicode.
Context {U : Unicode}.

(** [float(s)]: from U+007F on, white space and decimal digits of any
    script are taken for the ASCII ones; the characters below are left as
    they are.  Then the white space of C around the number is dropped,
    which the separators U+001C to U+001F are not. *)
Definition py_float (s : ustr) : option spec_float :=
  let ascii :=
    map (fun c => if (c <? 127)%N then c
                  else if isspace c then SP
                  else match digit_value c with
                       | Some d => (48 + d)%N
                       | None => c
                       end) s in
  parse_decimal true
    (rev (dropwhile c_isspace (rev (dropwhile c_isspace ascii)))).
End WithUnicode.

(** The conversion of [pd.to_numeric(errors="coerce")] of a string: a
    number in plain decimal notation, the white space of C around it
    dropped, or one of the names of the infinities and of [NaN] with
    nothing around it.  A number too large for a double is an error of the
    conversion, as any other text is. *)
Definition to_numeric (s : ustr) : option spec_float :=
  let '(neg, body) := sign_of s in
  let name := ascii_lower body in
  if ustr_eqb name (u "inf") || ustr_eqb name (u "infinity") then Some (S754_infinity neg)
  else if ustr_eqb (ascii_lower s) (u "nan") then Some S754_nan
  else
    match plain_decimal false
            (rev (dropwhile c_isspace (rev (dropwhile c_isspace s)))) with
    | Some (S754_infinity _) => None
    | r => r
    end.

Definition INT64_MIN : Z := (- 2 ^ 63)%Z.

(** [m * 2^e] rounded to an integer, halves to the even one. *)
Definition rint (m : positive) (e : Z) : Z :=
  if (0 <=? e)%Z then (Zpos m * 2 ^ e)%Z
  else
    let d := (2 ^ (- e))%Z in
    let q := (Zpos m / d)%Z in
    let r := (Zpos m mod d)%Z in
    match (2 * r ?= d)%Z with
    | Lt => q
    | Gt => (q + 1)%Z
    | Eq => if Z.even q then q else (q + 1)%Z
    end.

(** [round()] then [astype(int)]: a value outside [int64] converts to the
    least [int64] (the x86-64 conversion). *)
Definition round_astype_int (x : spec_float) : option Z :=
  match x with
  | S754_zero _ => Some 0%Z
  | S754_finite s m e =>
      let n := if s then (- rint m e)%Z else rint m e in
      Some (if (INT64_MIN <=? n)%Z && (n <? 2 ^ 63)%Z then n else INT64_MIN)
  | _ => None
  end.

Definition add : spec_float -> spec_float -> spec_float := SFadd prec emax.

(** The loop [r[j] += a[i + j]] of the sum of numpy over the blocks of
    eight values of [l]: the eight sums, and the values after the last
    whole block. *)
Fixpoint add_blocks (fuel : nat) (r l : list spec_float)
  : list spec_float * list spec_float :=
  match fuel with
  | O => (r, l)
  | S fuel' =>
      if (8 <=? length l)%nat
      then add_blocks fuel' (zip_with add r (firstn 8 l)) (skipn 8 l)
      else (r, l)
  end.

(** The sum of eight to 128 values: eight sums side by side, added in
    pairs, then the values left over one by one. *)
Definition sum_unrolled (l : list spec_float) : spec_float :=
  match add_blocks (length l) (firstn 8 l) (skipn 8 l) with
  | ([r0; r1; r2; r3; r4; r5; r6; r7], rest) =>
      fold_left add rest
        (add (add (add r0 r1) (add r2 r3)) (add (add r4 r5) (add r6 r7)))
  | _ => S754_nan
  end.

(** The pairwise sum of numpy: fewer than eight values from left to
    right, up to 128 values unrolled, a longer series in two halves, the
    first of a length that is a multiple of eight. *)
Fixpoint pairwise_sum (fuel : nat) (l : list spec_float) : spec_float :=
  let n := length l in
  if (n <? 8)%nat then fold_left add l (S754_zero false)
  else if (n <=? 128)%nat then sum_unrolled l
  else
    match fuel with
    | O => sum_unrolled l
    | S fuel' =>
        let n2 := (n / 2 - (n / 2) mod 8)%nat in
        add (pairwise_sum fuel' (firstn n2 l)) (pairwise_sum fuel' (skipn n2 l))
    end.

(** [s.mean()]: the sum, which numpy adds to its zero, by the count. *)
Definition series_mean (l : list spec_float) : spec_float :=
  SFdiv prec emax
    (add (S754_zero false) (pairwise_sum (length l) l))
    (binary_normalize prec emax (Z.of_nat (length l)) 0 false).

Fixpoint digits_from (fuel : nat) (n : N) (acc : ustr) : ustr :=
  match fuel with
  | O => acc
  | S fuel' =>
      let acc' := (48 + n mod 10)%N :: acc in
      if (n <? 10)%N then acc' else digits_from fuel' (n / 10)%N acc'
  end.

(** [str(n)] of a natural number. *)
Definition decimal (n : N) : ustr := digits_from (S (N.to_nat (N.log2 n))) n [].

(** [f"{x:.2f}"]: the exact value rounded to hundredths, halves to even. *)
Definition format_2f (x : spec_float) : ustr :=
  let sign (s : bool) := if s then [45%N] else [] in
  match x with
  | S754_nan => u "nan"
  | S754_infinity s => sign s ++ u "inf"
  | S754_zero s => sign s ++ u "0.00"
  | S754_finite s m e =>
      let h :=
        if (0 <=? e)%Z then (Zpos m * 2 ^ e * 100)%Z
        else
          let d := (2 ^ (- e))%Z in
          let q := (Zpos m * 100 / d)%Z in
          let r := ((Zpos m * 100) mod d)%Z in
          match (2 * r ?= d)%Z with
          | Lt => q
          | Gt => (q + 1)%Z
          | Eq => if Z.even q then q else (q + 1)%Z
          end in
      let h := Z.to_N h in
      sign s ++ decimal (h / 100) ++ [46%N]
        ++ [(48 + (h / 10) mod 10)%N; (48 + h mod 10)%N]
  end.

Definition is_nan (x : spec_float) : bool :=
  match x with S754_nan => true | _ => false end.

Definition is_zero (x : spec_float) : bool :=
  match x with S754_zero _ => true | _ => false end.

End Binary64.

(** The doubles, with a sort that leaves the rows of one count in the
    order of the table, as the sort of numpy does for up to 16 rows. *)
#[export] Instance binary64 {U : Unicode} : PyFloat := {|
  pyfloat := spec_float;
  py_float := Binary64.py_float;
  round_astype_int := Binary64.round_astype_int;
  series_mean := Binary64.series_mean;
  format_2f := Binary64.format_2f;
  to_numeric := Binary64.to_numeric;
  float_is_nan := Binary64.is_nan;
  float_is_zero := Binary64.is_zero;
  sort_values := sort by_count_desc
|}.

(* ================================================================= *)
(** ** Vocabulary of the properties *)

Section Vocabulary.
Context {U : Unicode}.

(** The first column, in column order, whose normalised name contains one
    of the patterns. *)
Definition first_matching (patterns : list ustr) (cols : list ustr) : option ustr :=
  find (fun c => contains_any patterns (norm (Text c))) cols.

(** The bucketing rules as an ordered list: what a rule looks for in the
    normalised text [t] (and, for three accented phrases, in the lower-cased
    original [low]), and its category. *)
Definition BENEFICIOS_RULES : list ((ustr -> ustr -> bool) * ustr) :=
  [ (fun t _ =>
       contains (u "no aplica") t || contains (u "ninguno") t
       || contains (u "ningun ") t || contains (u "ninguno por el momento") t
       || contains (u "no tengo conocimiento") t
       || contains (u "no conozco los beneficios") t
       || contains (u "no conozco los beneficios actuales") t,
     cat_ninguno);
    (fun t low =>
       contains (u "descuento") t || contains (u "caminatas ecologicas") t
       || contains (u "caminatas ecológicas") low,
     cat_descuentos);
    (fun t low =>
       contains (u "empleabilidad") t || contains (u "vinculacion laboral") t
       || contains (u "vinculación laboral") low
       || contains (u "bolsa de empleo") t
       || contains (u "vinculacion a la bolsa de empleo") t,
     cat_laboral);
    (fun t low => contains (u "informacion") t || contains (u "información") low,
     cat_informacion);
    (fun t _ =>
       contains (u "actividades deportivas") t
       || contains (u "actividades culturales") t || contains (u "recreativas") t,
     cat_actividades);
    (fun t _ => ustr_eqb t (u "todos"), cat_todos) ].

(** The category of the first rule that applies, [otherwise] if none does. *)
Definition first_rule (rules : list ((ustr -> ustr -> bool) * ustr))
           (t low otherwise : ustr) : ustr :=
  match find (fun r => fst r t low) rules with
  | Some r => snd r
  | None => otherwise
  end.

(** The character [c] of a value is the character [p] of a pattern, case
    ignored: a digit of the pattern stands for itself, a letter for the
    characters whose lower case it is, and i and s also for those whose
    lower case is the dotless i and the long s. *)
Definition same_ignoring_case (p c : cp) : Prop :=
  ((p = 48%N \/ p = 49%N) /\ c = p) \/
  (p <> 48%N /\ p <> 49%N /\
   (tolower c = p \/ (p = 105%N /\ tolower c = 305%N)
    \/ (p = 115%N /\ tolower c = 383%N))).

(** All of [v] is one of the alternatives, case ignored. *)
Definition is_alternative (alternatives : list ustr) (v : ustr) : Prop :=
  exists a, In a alternatives /\ Forall2 same_ignoring_case a v.

(** [v] is one of the alternatives, case ignored, or one of them followed
    by a line feed: what [^(...)$] matches. *)
Definition whole_match (alternatives : list ustr) (v : ustr) : Prop :=
  is_alternative alternatives v \/
  exists w, v = w ++ [LF] /\ is_alternative alternatives w.

(** What the filter keeps of a row, from its program and year cells. *)
Definition keeps (programa_sel year_sel : ustr) (prog year : cell) : bool :=
  (ustr_eqb programa_sel TODOS_LOS_PROGRAMAS
   || ustr_eqb (strip (py_str prog)) programa_sel)
  && (ustr_eqb year_sel TODOS
      || match year with
         | Text s => contains year_sel (strip s)
         | Missing => false
         end).

End Vocabulary.

Definition in_scale (n : Z) : bool := (1 <=? n)%Z && (n <=? 5)%Z.

Section VocabularyCharts.
Context {U : Unicode} {F : PyFloat}.

(** The question types of the [if]/[elif] chain, as [config.json] spells
    them (binary, categorical, multi, Likert, multi-column). *)
Definition SUPPORTED_TYPES : list ustr :=
  [ u "BINARIA"; u "CATEGORICA"; u "MULTI"; u "LIKERT"; u "MULTI_COLS" ].

Definition unsupported_notice (qtype : ustr) : st_event :=
  Info (u "Tipo no soportado: " ++ qtype).

(** The heading of a question followed by what its chart shows. *)
Definition show_question (label : ustr) (r : result (list st_event)) : outcome :=
  match r with
  | Ok evs => (Markdown (u "### " ++ label) :: evs, None)
  | Raise e => ([Markdown (u "### " ++ label)], Some e)
  end.

(** The question gets past the check of its column: it is of type
    MULTI_COLS, or its column is a column of the frame. *)
Definition column_checked (df_filt : Frame) (q : Question) : bool :=
  negb (negb (ustr_eqb (str_upper (q_type q)) (u "MULTI_COLS"))
        && column_missing df_filt (q_column q)).

End VocabularyCharts.

(** *** The normaliser on the three blocks *)

Definition TABLE_CODE_POINTS : list cp :=
  map N.of_nat (seq 0 256 ++ seq 768 112).

(** A character that a second pass leaves as it is. *)
Definition settled (d : cp) : bool :=
  (Latin.tolower d =? d)%N && ustr_eqb (Latin.decompose d) [d]
  && (Latin.combining d =? 0)%N && negb (Latin.is_Mn d) && negb (d =? NBSP)%N.

(** White space is single spaces only; [prev_space] says that a space
    comes just before. *)
Fixpoint tidy (prev_space : bool) (s : ustr) : bool :=
  match s with
  | [] => true
  | c :: t =>
      if Latin.isspace c then negb prev_space && (c =? SP)%N && tidy true t
      else tidy false t
  end.

(** The part of a character that the normaliser keeps. *)
Definition base (c : cp) : ustr :=
  filter (fun ch => negb (Latin.is_Mn ch)) (Latin.decompose (Latin.tolower c)).

Definition starts_nonspace (s : ustr) : bool :=
  match s with
  | d :: _ => negb (Latin.isspace d)
  | [] => false
  end.

(** No white space at either end. *)
Definition trimmed (s : ustr) : bool :=
  is_nil s || (starts_nonspace s && starts_nonspace (rev s)).

Definition plain (c : cp) : Prop :=
  Latin.in_tables c = true /\ Latin.is_Mn c = false.

Unset Implicit Arguments.

(* ================================================================= *)
(** ** Vocabulary of the further properties *)

Section FurtherVocabulary.
Context {U : Unicode}.

(** The text starts with a character that is not white space. *)
Definition starts_clean (s : ustr) : bool :=
  match s with
  | d :: _ => negb (isspace d)
  | [] => false
  end.

(** No white space at either end. *)
Definition clean_ends (s : ustr) : bool :=
  is_nil s || (starts_clean s && starts_clean (rev s)).

(** White space is single spaces only; [prev_space] says that a space
    comes just before. *)
Fixpoint single_spaced (prev_space : bool) (s : ustr) : bool :=
  match s with
  | [] => true
  | c :: t =>
      if isspace c then negb prev_space && (c =? SP)%N && single_spaced true t
      else single_spaced false t
  end.

(** The mask of [get_program_year_filters] on one row, from its program
    and year cells. *)
Definition row_mask (programa_sel year_sel : ustr) (prog year : cell) : bool :=
  (if negb (ustr_eqb programa_sel TODOS_LOS_PROGRAMAS)
   then eq_sel programa_sel (prog_value prog) else true)
  && (if negb (ustr_eqb year_sel TODOS)
      then contains_sel year_sel (year_value year) else true).

End FurtherVocabulary.

(** One of the characters [;], [,], [/] on which a multiple answer is split. *)
Definition is_delimiter (c : cp) : bool :=
  (c =? 59)%N || (c =? 44)%N || (c =? 47)%N.

Definition nonempty (s : ustr) : bool := negb (is_empty s).

(** The cell with its decimal commas written as points. *)
Definition decimal_points (v : cell) : cell :=
  match v with
  | Missing => Missing
  | Text s => Text (replace_cp 44%N 46%N s)
  end.

(** [shown] holds the most frequent values of [serie], as a chart cut by
    [head(top_k)] shows them: distinct labels, each with its number of
    occurrences, the larger counts first, no value left out that occurs
    more often than one shown, and [top_k] of them if there are as many. *)
Definition most_frequent (top_k : Z) (serie : list ustr) (shown : list (ustr * nat)) : Prop :=
  NoDup (map fst shown) /\
  (forall t n, In (t, n) shown -> n = count_ustr t serie /\ 0 < n) /\
  StronglySorted (fun a b => snd b <= snd a) shown /\
  (forall t, In t serie -> ~ In t (map fst shown) ->
     forall t' n, In (t', n) shown -> count_ustr t serie <= n) /\
  ((0 <= top_k)%Z ->
     length shown = Nat.min (Z.to_nat top_k) (length (unique serie))) /\
  total shown <= length serie.

Section FurtherVocabularyCharts.
Context {U : Unicode} {F : PyFloat}.

(** The section of the question is one of those the report goes through. *)
Definition in_report (q : Question) : bool :=
  mem_ustr (str_upper (get (q_section q) [])) SECTIONS.

End FurtherVocabularyCharts.

(* ================================================================= *)
(** * Properties *)

Unset Implicit Arguments.

(** ** Lists and text *)

Lemma ustr_eqb_eq (a b : ustr) : ustr_eqb a b = true <-> a = b.
Proof.
  revert b; induction a as [|x a IH]; intros [|y b]; simpl; split;
    try congruence; try reflexivity.
  - intros H. apply andb_true_iff in H as [Hx Hab].
    apply N.eqb_eq in Hx. apply IH in Hab. congruence.
  - intros H. injection H as -> ->. rewrite N.eqb_refl. simpl. now apply IH.
Qed.

Lemma ustr_eqb_refl (a : ustr) : ustr_eqb a a = true.
Proof. now apply ustr_eqb_eq. Qed.

Lemma ustr_eqb_neq (a b : ustr) : ustr_eqb a b = false <-> a <> b.
Proof.
  split.
  - intros H E. apply ustr_eqb_eq in E. congruence.
  - intros H. destruct (ustr_eqb a b) eqn:E; [|reflexivity].
    apply ustr_eqb_eq in E. contradiction.
Qed.

Lemma mem_ustr_In (s : ustr) (l : list ustr) : mem_ustr s l = true <-> In s l.
Proof.
  unfold mem_ustr. rewrite existsb_exists. split.
  - intros (x & Hx & E). apply ustr_eqb_eq in E. now subst.
  - intros H. exists s. split; [assumption | apply ustr_eqb_refl].
Qed.

Lemma nth_error_firstn_lt (A : Type) (l : list A) (n i : nat) :
  i < n -> nth_error (firstn n l) i = nth_error l i.
Proof.
  revert n i; induction l as [|a l IH]; intros [|n] [|i] H; simpl;
    try reflexivity; try lia.
  apply IH. lia.
Qed.

Section SortFacts.
Variable A : Type.
Variable leb : A -> A -> bool.

Lemma insert_sorted_perm (x : A) (l : list A) :
  Permutation (insert_sorted leb x l) (x :: l).
Proof.
  induction l as [|y t IH]; simpl.
  - apply Permutation_refl.
  - destruct (leb x y).
    + apply Permutation_refl.
    + eapply Permutation_trans; [apply perm_skip, IH | apply perm_swap].
Qed.

Lemma sort_perm (l : list A) : Permutation (sort leb l) l.
Proof.
  induction l as [|x t IH]; simpl.
  - apply perm_nil.
  - eapply Permutation_trans; [apply insert_sorted_perm | apply perm_skip, IH].
Qed.

Lemma sort_In (x : A) (l : list A) : In x (sort leb l) <-> In x l.
Proof.
  split; apply Permutation_in;
    [apply sort_perm | apply Permutation_sym, sort_perm].
Qed.
End SortFacts.

(* ================================================================= *)
(** ** The header row *)

Section HeaderFacts.
Context {U : Unicode}.

Lemma is_header_row_iff (row : list cell) :
  is_header_row row = true <->
  (exists c, In c row /\ contains (u "programa") (norm c) = true) /\
  (exists c p, In c row /\ In p YEAR_PATTERNS /\ contains p (norm c) = true).
Proof.
  unfold is_header_row. rewrite andb_true_iff, !existsb_exists.
  split.
  - intros [(n & Hn & Hp) (m & Hm & Hy)].
    apply in_map_iff in Hn as (c & <- & Hc).
    apply in_map_iff in Hm as (d & <- & Hd).
    unfold contains_any in Hp, Hy. apply existsb_exists in Hy as (p & Hp' & Hy).
    split.
    + exists c. split; [assumption|]. simpl in Hp. now rewrite orb_false_r in Hp.
    + exists d, p. auto.
  - intros [(c & Hc & Hp) (d & p & Hd & Hp' & Hy)]. split.
    + exists (norm c). split; [now apply in_map|].
      unfold contains_any. simpl. now rewrite Hp.
    + exists (norm d). split; [now apply in_map|].
      unfold contains_any. apply existsb_exists. eauto.
Qed.

Lemma scan_rows_spec (df_raw : RawTable) (todo i k : nat) :
  scan_rows todo i df_raw = Some k <->
  (i <= k < i + todo) /\
  (exists row, nth_error df_raw k = Some row /\ is_header_row row = true) /\
  (forall j r, i <= j < k -> nth_error df_raw j = Some r -> is_header_row r = false).
Proof.
  revert i; induction todo as [|todo IH]; intros i; simpl.
  - split; [discriminate | intros [H _]; lia].
  - destruct (nth_error df_raw i) as [row|] eqn:Hi.
    + destruct (is_header_row row) eqn:Hrow.
      * split.
        -- intros [= <-]. repeat split; try lia; eauto.
        -- intros (Hk & (rk & Hrk & Hh) & Hbefore).
           destruct (Nat.eq_dec i k) as [->|Hne]; [reflexivity|].
           assert (is_header_row row = false) by (apply (Hbefore i); [lia|assumption]).
           congruence.
      * rewrite IH. split.
        -- intros (Hk & Hex & Hbefore). repeat split; try lia; [assumption|].
           intros j r Hj Hr. destruct (Nat.eq_dec j i) as [->|Hne].
           ++ congruence.
           ++ apply (Hbefore j); [lia|assumption].
        -- intros (Hk & (rk & Hrk & Hh) & Hbefore).
           assert (i <> k) by (intros ->; congruence).
           repeat split; try lia; eauto.
           intros j r Hj. apply Hbefore. lia.
    + split; [discriminate|].
      intros (Hk & (rk & Hrk & Hh) & _).
      apply nth_error_None in Hi.
      assert (k < length df_raw) by (apply nth_error_Some; congruence).
      lia.
Qed.

Lemma scan_rows_firstn (df_raw : RawTable) (n todo i : nat) :
  i + todo <= n ->
  scan_rows todo i (firstn n df_raw) = scan_rows todo i df_raw.
Proof.
  revert i; induction todo as [|todo IH]; intros i H; simpl; [reflexivity|].
  rewrite nth_error_firstn_lt by lia.
  destruct (nth_error df_raw i); [|reflexivity].
  destruct (is_header_row l); [reflexivity|]. apply IH. lia.
Qed.

Lemma header_row_idx_spec (df_raw : RawTable) (i : nat) :
  header_row_idx df_raw = Some i <->
  i < 50 /\
  (exists row, nth_error df_raw i = Some row /\ is_header_row row = true) /\
  (forall j r, j < i -> nth_error df_raw j = Some r -> is_header_row r = false).
Proof.
  unfold header_row_idx. rewrite scan_rows_spec. split.
  - intros (Hk & Hex & Hbefore). repeat split; [lia | assumption |].
    intros j r Hj. apply Hbefore. lia.
  - intros (Hk & (row & Hrow & Hh) & Hbefore).
    assert (i < length df_raw) by (apply nth_error_Some; congruence).
    repeat split; [lia | lia | eauto |].
    intros j r Hj. apply Hbefore. lia.
Qed.

Lemma header_row_idx_firstn (df_raw : RawTable) :
  header_row_idx df_raw = header_row_idx (firstn 50 df_raw).
Proof.
  unfold header_row_idx. rewrite length_firstn.
  replace (Nat.min (Nat.min 50 (length df_raw)) 50) with (Nat.min (length df_raw) 50) by lia.
  symmetry. apply scan_rows_firstn. lia.
Qed.

(** The frame of a header found. *)
Lemma load_header_found (src : CsvSource) (idx : nat) :
  header_row_idx (read_csv_raw src) = Some idx ->
  load_data_with_header_detection src
  = Ok {| columns := map (fun h => clean_header (py_str h))
                         (nth idx (read_csv_raw src) []);
          rows := skipn (S idx) (read_csv_raw src) |}.
Proof.
  intros Hidx. unfold load_data_with_header_detection.
  destruct (csv_fields src) as [|r0 rest] eqn:E.
  - unfold read_csv_raw in Hidx. rewrite E in Hidx. discriminate.
  - cbv zeta. now rewrite Hidx.
Qed.

End HeaderFacts.

(** C1.  The header locator looks at the first 50 rows only; the header
    row is the first row in which a cell's normalised text contains
    "programa" and a cell's normalised text contains one of the six year
    patterns; the data rows of the frame are the raw rows after it.  A
    table of 60 rows whose first such row is row 2 gives header index 2
    and 57 data rows. *)
Theorem header_locator_first_match (U : Unicode) (src : CsvSource) :
  let df_raw := read_csv_raw src in
  (forall table : RawTable,
      header_row_idx table = header_row_idx (firstn 50 table)) /\
  (forall row,
      is_header_row row = true <->
      (exists c, In c row /\ contains (u "programa") (norm c) = true) /\
      (exists c p, In c row /\ In p YEAR_PATTERNS /\ contains p (norm c) = true)) /\
  length YEAR_PATTERNS = 6 /\
  (forall (table : RawTable) i,
      header_row_idx table = Some i <->
      i < 50 /\
      (exists row, nth_error table i = Some row /\ is_header_row row = true) /\
      (forall j r, j < i -> nth_error table j = Some r -> is_header_row r = false)) /\
  (forall i,
      header_row_idx df_raw = Some i ->
      exists df,
        load_data_with_header_detection src = Ok df /\
        rows df = skipn (S i) df_raw /\
        columns df = map (fun h => clean_header (py_str h)) (nth i df_raw [])) /\
  (length df_raw = 60 ->
   (exists row, nth_error df_raw 2 = Some row /\ is_header_row row = true) ->
   (forall j r, j < 2 -> nth_error df_raw j = Some r -> is_header_row r = false) ->
   header_row_idx df_raw = Some 2 /\
   exists df,
     load_data_with_header_detection src = Ok df /\ length (rows df) = 57).
Proof.
  intros df_raw.
  assert (Hload : forall i, header_row_idx df_raw = Some i ->
            exists df,
              load_data_with_header_detection src = Ok df /\
              rows df = skipn (S i) df_raw /\
              columns df = map (fun h => clean_header (py_str h)) (nth i df_raw [])).
  { intros i Hi. eexists. split; [exact (load_header_found src i Hi)|].
    split; reflexivity. }
  split; [apply header_row_idx_firstn|].
  split; [apply is_header_row_iff|].
  split; [reflexivity|].
  split; [apply header_row_idx_spec|].
  split; [exact Hload|].
  intros Hlen Hrow Hbefore.
  assert (Hidx : header_row_idx df_raw = Some 2).
  { apply header_row_idx_spec. repeat split; [lia | assumption | assumption]. }
  split; [assumption|].
  destruct (Hload 2 Hidx) as (df & Hdf & Hrows & _).
  exists df. split; [exact Hdf|]. rewrite Hrows, length_skipn. lia.
Qed.

(* ================================================================= *)
(** ** The filter columns *)

Section ClassifierFacts.
Context {U : Unicode}.

Lemma detect_fold (cols : list ustr) (a b : option ustr) :
  fold_left detect_step cols (a, b) =
  (match a with Some p => Some p | None => first_matching PROGRAM_PATTERNS cols end,
   match b with Some y => Some y | None => first_matching YEAR_PATTERNS cols end).
Proof.
  revert a b; induction cols as [|c cols IH]; intros a b.
  - simpl. now destruct a, b.
  - cbn [fold_left]. unfold detect_step at 2. cbn [fst snd].
    rewrite IH. unfold first_matching. cbn [find].
    destruct a, b;
      destruct (contains_any PROGRAM_PATTERNS (norm (Text c)));
      destruct (contains_any YEAR_PATTERNS (norm (Text c))); reflexivity.
Qed.

End ClassifierFacts.

(** C2, as the code has it.  The classifier returns, for each role, the
    first column in column order whose normalised name matches that role's
    patterns, or fails with the frame's column names in order when a role
    has no such column.  The two roles are found independently of each
    other: a column that is the first match of both gets both. *)
Theorem classifier_first_match_per_role (U : Unicode) (df : Frame) :
  match detect_program_year_columns df with
  | Ok (prog_col, year_col) =>
      first_matching PROGRAM_PATTERNS (columns df) = Some prog_col /\
      first_matching YEAR_PATTERNS (columns df) = Some year_col
  | Raise e =>
      e = MissingColumns (columns df) /\
      (first_matching PROGRAM_PATTERNS (columns df) = None \/
       first_matching YEAR_PATTERNS (columns df) = None)
  end /\
  (forall c,
      first_matching PROGRAM_PATTERNS (columns df) = Some c ->
      first_matching YEAR_PATTERNS (columns df) = Some c ->
      detect_program_year_columns df = Ok (c, c)).
Proof.
  unfold detect_program_year_columns. rewrite detect_fold.
  destruct (first_matching PROGRAM_PATTERNS (columns df)) as [p|];
    destruct (first_matching YEAR_PATTERNS (columns df)) as [y|];
    (split; [auto | intros c Hp Hy; congruence]).
Qed.

(** C2 as stated fails: the one column of this frame matches both pattern
    sets and is given both roles. *)
Lemma classifier_both_roles_counterexample :
  let c := u "Programa y Año Egreso" in
  let df := {| columns := [c]; rows := [] |} in
  contains_any PROGRAM_PATTERNS (norm (U := latin) (Text c)) = true /\
  contains_any YEAR_PATTERNS (norm (U := latin) (Text c)) = true /\
  detect_program_year_columns (U := latin) df = Ok (c, c).
Proof. vm_compute. repeat split. Qed.

(* ================================================================= *)
(** ** Benefits *)

Section BeneficiosFacts.
Context {U : Unicode}.

Lemma normalize_beneficios_rules (raw : ustr) :
  normalize_beneficios (Text raw) =
  if is_empty (norm (Text raw)) then []
  else first_rule BENEFICIOS_RULES (norm (Text raw)) (str_lower raw) (strip raw).
Proof.
  unfold normalize_beneficios, first_rule, BENEFICIOS_RULES.
  cbv zeta. cbn [find fst snd].
  destruct (is_empty (norm (Text raw))); [reflexivity|].
  repeat match goal with
         | |- (if ?b then ?c else _) = match (if ?b then _ else _) with _ => _ end =>
             destruct b; [exact (eq_refl c)|]
         end.
  reflexivity.
Qed.

End BeneficiosFacts.

(** C5.  The benefits bucketing applies its rules in order and the first
    that matches decides; "No tengo conocimiento" goes to "Ninguno / no
    conoce beneficios", "Quiero descuentos en matrícula" to "Descuentos y
    beneficios económicos", "Algo totalmente distinto" comes back as it is,
    trimmed, and empty or missing input gives the empty string. *)
Theorem beneficios_first_rule_wins :
  (forall (U : Unicode) (raw : ustr),
      normalize_beneficios (Text raw) =
      if is_empty (norm (Text raw)) then []
      else first_rule BENEFICIOS_RULES (norm (Text raw)) (str_lower raw) (strip raw)) /\
  normalize_beneficios (U := latin) (Text (u "No tengo conocimiento"))
  = u "Ninguno / no conoce beneficios" /\
  normalize_beneficios (U := latin) (Text (u "Quiero descuentos en matrícula"))
  = u "Descuentos y beneficios económicos" /\
  normalize_beneficios (U := latin) (Text (u "Algo totalmente distinto"))
  = u "Algo totalmente distinto" /\
  normalize_beneficios (U := latin) (Text (u "  Algo totalmente distinto "))
  = u "Algo totalmente distinto" /\
  normalize_beneficios (U := latin) (Text (u "")) = u "" /\
  (forall U : Unicode, normalize_beneficios Missing = u "").
Proof.
  split; [intros U raw; apply normalize_beneficios_rules|].
  repeat split; vm_compute; reflexivity.
Qed.

(* ================================================================= *)
(** ** Counting *)

Section CountFacts.
Variable K : Type.
Variable eqb : K -> K -> bool.
Hypothesis eqb_eq : forall x y, eqb x y = true <-> x = y.

Lemma eqb_same (x : K) : eqb x x = true.
Proof. now apply eqb_eq. Qed.

Lemma eqb_sym (x y : K) : eqb x y = eqb y x.
Proof.
  destruct (eqb x y) eqn:E, (eqb y x) eqn:E'; try reflexivity.
  - apply eqb_eq in E. subst. rewrite eqb_same in E'. discriminate.
  - apply eqb_eq in E'. subst. rewrite eqb_same in E. discriminate.
Qed.

Lemma count_notin (x : K) (l : list K) : ~ In x l -> count eqb x l = 0.
Proof.
  induction l as [|y t IH]; simpl; [reflexivity|]. intros H.
  destruct (eqb x y) eqn:E.
  - apply eqb_eq in E. subst. tauto.
  - apply IH. tauto.
Qed.

Lemma count_pos (x : K) (l : list K) : In x l -> 0 < count eqb x l.
Proof.
  induction l as [|y t IH]; simpl; [tauto|]. intros [->|H].
  - rewrite eqb_same. lia.
  - destruct (eqb x y); [lia | now apply IH].
Qed.

Lemma uniq_In (x : K) (l : list K) : In x (uniq eqb l) <-> In x l.
Proof.
  induction l as [|y t IH]; simpl; [tauto|].
  rewrite filter_In, IH. split.
  - intros [H|[H _]]; auto.
  - intros [H|H]; [auto|].
    destruct (eqb y x) eqn:E; [left; now apply eqb_eq | right; auto].
Qed.

Lemma uniq_NoDup (l : list K) : NoDup (uniq eqb l).
Proof.
  induction l as [|y t IH]; simpl; constructor.
  - rewrite filter_In. intros [_ H]. rewrite eqb_same in H. discriminate.
  - now apply NoDup_filter.
Qed.

Lemma tally_keys (l : list K) : map fst (tally eqb l) = uniq eqb l.
Proof. unfold tally. rewrite map_map. simpl. apply map_id. Qed.

Lemma tally_In (x : K) (l : list K) :
  In x l -> In (x, count eqb x l) (tally eqb l).
Proof.
  intros H. unfold tally. apply in_map_iff. exists x. split; [reflexivity|].
  now apply uniq_In.
Qed.

Lemma tally_entry (x : K) (n : nat) (l : list K) :
  In (x, n) (tally eqb l) -> In x l /\ n = count eqb x l.
Proof.
  unfold tally. rewrite in_map_iff. intros (y & [= <- <-] & H).
  split; [now apply uniq_In | reflexivity].
Qed.

Lemma total_cons (k : K) (n : nat) (d : list (K * nat)) :
  total ((k, n) :: d) = n + total d.
Proof. reflexivity. Qed.

(** One more value adds one to the count of each key equal to it. *)
Lemma total_count_cons (x : K) (t keys : list K) :
  total (map (fun y => (y, count eqb y (x :: t))) keys)
  = total (map (fun y => (y, count eqb y t)) keys) + count eqb x keys.
Proof.
  induction keys as [|y keys IH]; [reflexivity|].
  cbn [map]. rewrite !total_cons, IH. cbn [count]. rewrite (eqb_sym y x).
  destruct (eqb x y); lia.
Qed.

Lemma total_split (x : K) (t keys : list K) :
  NoDup keys ->
  total (map (fun y => (y, count eqb y t)) keys)
  = total (map (fun y => (y, count eqb y t)) (filter (fun y => negb (eqb x y)) keys))
    + (if existsb (eqb x) keys then count eqb x t else 0).
Proof.
  induction keys as [|y keys IH]; intros Hnd; [reflexivity|].
  inversion Hnd as [|? ? Hy Hnd']; subst.
  cbn [map filter existsb]. rewrite total_cons, (IH Hnd').
  destruct (eqb x y) eqn:E; cbn [negb orb].
  - apply eqb_eq in E. subst y.
    destruct (existsb (eqb x) keys) eqn:Ex; [|lia].
    apply existsb_exists in Ex as (z & Hz & Ez). apply eqb_eq in Ez. now subst.
  - cbn [map]. rewrite total_cons. lia.
Qed.

(** The counts of a tally add up to the number of values. *)
Lemma tally_total (l : list K) : total (tally eqb l) = length l.
Proof.
  induction l as [|x t IH]; [reflexivity|].
  unfold tally in *. cbn [uniq map length]. rewrite total_cons.
  rewrite total_count_cons.
  rewrite (count_notin x (filter (fun y => negb (eqb x y)) (uniq eqb t))).
  2:{ rewrite filter_In. intros [_ H]. rewrite eqb_same in H. discriminate. }
  rewrite (total_split x t _ (uniq_NoDup t)) in IH.
  cbn [count]. rewrite eqb_same.
  destruct (existsb (eqb x) (uniq eqb t)) eqn:Ex; [lia|].
  rewrite (count_notin x t); [lia|].
  intros Hin. apply uniq_In in Hin.
  assert (existsb (eqb x) (uniq eqb t) = true)
    by (apply existsb_exists; exists x; split; [assumption | apply eqb_same]).
  congruence.
Qed.

Lemma lookup_In (k : K) (n : nat) (d : list (K * nat)) :
  NoDup (map fst d) -> (lookup eqb k d = Some n <-> In (k, n) d).
Proof.
  induction d as [|[k' n'] d IH]; simpl; intros Hnd.
  - split; [discriminate | tauto].
  - inversion Hnd as [|? ? Hk Hnd']; subst.
    destruct (eqb k k') eqn:E.
    + apply eqb_eq in E. subst k'. split.
      * intros [= ->]. now left.
      * intros [[= ->]|H]; [reflexivity|].
        exfalso. apply Hk. apply in_map_iff. now exists (k, n).
    + rewrite (IH Hnd'). split; [auto|].
      intros [[= -> ->]|H]; [|assumption].
      rewrite eqb_same in E. discriminate.
Qed.

Lemma lookup_None (k : K) (d : list (K * nat)) :
  lookup eqb k d = None <-> ~ In k (map fst d).
Proof.
  induction d as [|[k' n'] d IH]; simpl; [tauto|].
  destruct (eqb k k') eqn:E.
  - apply eqb_eq in E. subst. split; [discriminate | tauto].
  - rewrite IH. split; [|tauto].
    intros H [->|H']; [|tauto]. rewrite eqb_same in E. discriminate.
Qed.

Lemma lookup_perm (k : K) (d d' : list (K * nat)) :
  NoDup (map fst d) -> Permutation d d' -> lookup eqb k d' = lookup eqb k d.
Proof.
  intros Hnd Hp.
  assert (Hnd' : NoDup (map fst d'))
    by (eapply Permutation_NoDup; [apply Permutation_map, Hp | assumption]).
  destruct (lookup eqb k d) as [n|] eqn:E.
  - apply (lookup_In k n d' Hnd'). eapply Permutation_in; [exact Hp|].
    now apply (lookup_In k n d Hnd).
  - apply lookup_None. apply lookup_None in E. intros H. apply E.
    eapply Permutation_in; [apply Permutation_map, Permutation_sym, Hp | assumption].
Qed.

(** A key not counted has count zero. *)
Lemma lookup_tally (k : K) (l : list K) :
  match lookup eqb k (tally eqb l) with Some n => n | None => 0 end
  = count eqb k l.
Proof.
  destruct (lookup eqb k (tally eqb l)) as [n|] eqn:E.
  - apply lookup_In in E; [|rewrite tally_keys; apply uniq_NoDup].
    now apply tally_entry in E.
  - apply lookup_None in E. rewrite tally_keys, uniq_In in E.
    symmetry. now apply count_notin.
Qed.

End CountFacts.

Lemma total_perm (K : Type) (d d' : list (K * nat)) :
  Permutation d d' -> total d = total d'.
Proof.
  unfold total. induction 1; simpl; try lia.
Qed.

Lemma total_str_data (d : list (ustr * nat)) : total (str_data d) = total d.
Proof.
  unfold total, str_data. induction d as [|p d IH]; simpl; [reflexivity|].
  now rewrite IH.
Qed.

Lemma value_counts_total (l : list ustr) : total (value_counts l) = length l.
Proof.
  unfold value_counts.
  rewrite (total_perm _ _ _ (sort_perm _ by_count_desc (tally ustr_eqb l))).
  apply tally_total. apply ustr_eqb_eq.
Qed.

Lemma value_counts_In (x : ustr) (l : list ustr) :
  In x l -> In (x, count_ustr x l) (value_counts l).
Proof.
  intros H. unfold value_counts. apply sort_In.
  apply tally_In; [apply ustr_eqb_eq | assumption].
Qed.

Lemma value_counts_entry (x : ustr) (n : nat) (l : list ustr) :
  In (x, n) (value_counts l) -> In x l /\ n = count_ustr x l.
Proof.
  unfold value_counts. rewrite sort_In.
  apply tally_entry. apply ustr_eqb_eq.
Qed.

(* ================================================================= *)
(** ** Binary answers *)

Section BinaryFacts.
Context {U : Unicode}.

Lemma binary_label_cases (v : ustr) :
  (re_match YES_ALTERNATIVES v = true /\ binary_label v = u "Sí") \/
  (re_match YES_ALTERNATIVES v = false /\ re_match NO_ALTERNATIVES v = true
   /\ binary_label v = u "No") \/
  (re_match YES_ALTERNATIVES v = false /\ re_match NO_ALTERNATIVES v = false
   /\ binary_label v = v).
Proof.
  unfold binary_label.
  destruct (re_match YES_ALTERNATIVES v); [left; split; reflexivity|].
  destruct (re_match NO_ALTERNATIVES v);
    [right; left | right; right]; repeat split; reflexivity.
Qed.

Lemma char_ignorecase_spec (p c : cp) :
  char_ignorecase p c = true <-> same_ignoring_case p c.
Proof.
  unfold char_ignorecase, same_ignoring_case, case_equivalents.
  destruct (p =? 48)%N eqn:E0; [apply N.eqb_eq in E0|apply N.eqb_neq in E0].
  { cbn [orb]. rewrite N.eqb_eq. split; [intros ->; left; auto|].
    intros [[_ H]|(H & _)]; [exact H | contradiction]. }
  destruct (p =? 49)%N eqn:E1; [apply N.eqb_eq in E1|apply N.eqb_neq in E1].
  { cbn [orb]. rewrite N.eqb_eq. split; [intros ->; left; auto|].
    intros [[_ H]|(_ & H & _)]; [exact H | contradiction]. }
  cbn [orb].
  destruct (p =? 105)%N eqn:Ei; [apply N.eqb_eq in Ei|apply N.eqb_neq in Ei].
  { cbn [existsb]. rewrite orb_false_r, orb_true_iff, !N.eqb_eq. split.
    - intros [H|H]; right; repeat split; auto.
    - intros [[[H|H] _]|(_ & _ & [H|[[_ H]|[H _]]])]; auto; congruence. }
  destruct (p =? 115)%N eqn:Es; [apply N.eqb_eq in Es|apply N.eqb_neq in Es].
  { cbn [existsb]. rewrite orb_false_r, orb_true_iff, !N.eqb_eq. split.
    - intros [H|H]; right; repeat split; auto.
    - intros [[[H|H] _]|(_ & _ & [H|[[H _]|[_ H]]])]; auto; congruence. }
  cbn [existsb]. rewrite orb_false_r, N.eqb_eq. split.
  - intros H. right. repeat split; auto.
  - intros [[[H|H] _]|(_ & _ & [H|[[H _]|[H _]]])]; auto; congruence.
Qed.

Lemma literal_ignorecase_spec (a v rest : ustr) :
  literal_ignorecase a v = Some rest <->
  exists w, v = w ++ rest /\ Forall2 same_ignoring_case a w.
Proof.
  revert v; induction a as [|p a IH]; intros v; cbn [literal_ignorecase].
  - split.
    + intros [= <-]. exists []. split; [reflexivity | constructor].
    + intros (w & -> & Hw). inversion Hw. reflexivity.
  - destruct v as [|c v].
    + split; [discriminate|].
      intros (w & Hv & Hw). inversion Hw; subst. discriminate.
    + destruct (char_ignorecase p c) eqn:E.
      * rewrite IH. apply char_ignorecase_spec in E. split.
        -- intros (w & -> & Hw). exists (c :: w). split; [reflexivity|].
           now constructor.
        -- intros (w & Hv & Hw). inversion Hw as [|? c' ? w' Hc Hw']; subst.
           injection Hv as <- ->. now exists w'.
      * split; [discriminate|].
        intros (w & Hv & Hw). inversion Hw as [|? c' ? w' Hc Hw']; subst.
        injection Hv as <- ->. apply char_ignorecase_spec in Hc. congruence.
Qed.

Lemma at_dollar_spec (rest : ustr) :
  at_dollar rest = true <-> rest = [] \/ rest = [LF].
Proof.
  unfold at_dollar. destruct rest as [|c [|d rest]].
  - split; auto.
  - rewrite N.eqb_eq. split.
    + intros ->. now right.
    + intros [H|H]; [discriminate | now injection H].
  - split; [discriminate | intros [H|H]; discriminate].
Qed.

(** The anchored patterns: a match is the whole value, but for a line
    feed at its end. *)
Lemma re_match_spec (alternatives : list ustr) (v : ustr) :
  re_match alternatives v = true <-> whole_match alternatives v.
Proof.
  unfold re_match, whole_match, is_alternative. rewrite existsb_exists. split.
  - intros (a & Ha & Hm).
    destruct (literal_ignorecase a v) as [rest|] eqn:E; [|discriminate].
    apply literal_ignorecase_spec in E as (w & -> & Hw).
    apply at_dollar_spec in Hm as [->| ->].
    + left. exists a. now rewrite app_nil_r.
    + right. exists w. split; [reflexivity|]. now exists a.
  - intros [(a & Ha & Hw)|(w & -> & a & Ha & Hw)]; exists a; (split; [exact Ha|]).
    + assert (E : literal_ignorecase a v = Some [])
        by (apply literal_ignorecase_spec; exists v; now rewrite app_nil_r).
      now rewrite E.
    + assert (E : literal_ignorecase a (w ++ [LF]) = Some [LF])
        by (apply literal_ignorecase_spec; now exists w).
      rewrite E. apply at_dollar_spec. now right.
Qed.

Lemma dropwhile_head (f : cp -> bool) (s t : ustr) (c : cp) :
  dropwhile f s = c :: t -> f c = false.
Proof.
  induction s as [|d s IH]; cbn [dropwhile]; [discriminate|].
  destruct (f d) eqn:E; [exact IH|]. intros [= <- _]. exact E.
Qed.

(** A trimmed value does not end with white space. *)
Lemma strip_last (s w : ustr) (c : cp) : strip s = w ++ [c] -> isspace c = false.
Proof.
  unfold strip, rstrip. intros H.
  apply (f_equal (@rev cp)) in H.
  rewrite rev_involutive, rev_app_distr in H. cbn [rev app] in H.
  now apply dropwhile_head in H.
Qed.

Lemma whole_match_trimmed (alternatives : list ustr) (s : ustr) :
  isspace LF = true ->
  (whole_match alternatives (strip s) <-> is_alternative alternatives (strip s)).
Proof.
  intros Hlf. unfold whole_match. split; [|now left].
  intros [H|(w & Hw & _)]; [exact H|].
  apply strip_last in Hw. congruence.
Qed.

Lemma chart_binary_unfold (df : Frame) (col label : ustr) (vals : list cell) :
  getitem_str df col = Ok vals ->
  chart_binary df col label =
  if is_nil (map strip (texts vals)) then Ok [Info SIN_DATOS]
  else Ok [AltairChart (u "Respuesta", u "Conteo")
             (str_data (value_counts (map binary_label (map strip (texts vals)))))].
Proof. intros H. unfold chart_binary. rewrite H. reflexivity. Qed.

End BinaryFacts.

(** C4.  For a BINARY column every label of the distribution is "Sí" (the
    trimmed value matches the yes pattern), "No" (it matches the no
    pattern) or the trimmed value itself, and the counts add up to the
    number of values that are not missing.  The patterns are anchored and
    ignore case: a value matches when the whole of it, but for a line feed
    at its end, is one of the alternatives, case ignored; a trimmed value
    has no line feed at its end, so it matches when it is one of the
    alternatives, case ignored, and a value that only begins with one is
    kept as it is. *)
Theorem binary_labels_and_total
  (U : Unicode) (df : Frame) (col label : ustr) (vals : list cell) :
  getitem_str df col = Ok vals ->
  let serie := map strip (texts vals) in
  (serie = [] -> chart_binary df col label = Ok [Info SIN_DATOS]) /\
  (serie <> [] ->
   exists counts,
     chart_binary df col label
     = Ok [AltairChart (u "Respuesta", u "Conteo") (str_data counts)] /\
     (forall l n, In (l, n) counts ->
                  0 < n /\ exists v, In v serie /\ l = binary_label v) /\
     (forall v, In v serie -> exists n, In (binary_label v, n) counts) /\
     total counts = length serie) /\
  (forall v,
      (re_match YES_ALTERNATIVES v = true /\ binary_label v = u "Sí") \/
      (re_match YES_ALTERNATIVES v = false /\ re_match NO_ALTERNATIVES v = true
       /\ binary_label v = u "No") \/
      (re_match YES_ALTERNATIVES v = false /\ re_match NO_ALTERNATIVES v = false
       /\ binary_label v = v)) /\
  length serie = length (texts vals) /\
  (forall alternatives v,
      re_match alternatives v = true <-> whole_match alternatives v) /\
  (isspace LF = true ->
   forall v, In v serie ->
     (forall alternatives,
         whole_match alternatives v <-> is_alternative alternatives v) /\
     (is_alternative YES_ALTERNATIVES v -> binary_label v = u "Sí") /\
     (~ is_alternative YES_ALTERNATIVES v -> is_alternative NO_ALTERNATIVES v ->
      binary_label v = u "No") /\
     (~ is_alternative YES_ALTERNATIVES v -> ~ is_alternative NO_ALTERNATIVES v ->
      binary_label v = v)).
Proof.
  intros Hget serie. rewrite (chart_binary_unfold df col label vals Hget). fold serie.
  split; [intros ->; reflexivity|].
  split; [|split; [apply binary_label_cases|]; split; [apply length_map|];
           split; [apply re_match_spec|]].
  2:{ intros Hlf v Hv. apply in_map_iff in Hv as (s & <- & _).
      assert (Hiff : forall alternatives,
                 re_match alternatives (strip s) = true
                 <-> is_alternative alternatives (strip s)).
      { intros alternatives. rewrite re_match_spec.
        now apply whole_match_trimmed. }
      split; [intros alternatives; now apply whole_match_trimmed|].
      unfold binary_label.
      destruct (re_match YES_ALTERNATIVES (strip s)) eqn:Ey.
      - apply Hiff in Ey.
        split; [intros _; reflexivity|]. split; intros; contradiction.
      - assert (Hny : ~ is_alternative YES_ALTERNATIVES (strip s)).
        { intros H. apply Hiff in H. congruence. }
        destruct (re_match NO_ALTERNATIVES (strip s)) eqn:En.
        + apply Hiff in En.
          split; [intros; contradiction|].
          split; [intros _ _; reflexivity | intros; contradiction].
        + assert (Hnn : ~ is_alternative NO_ALTERNATIVES (strip s)).
          { intros H. apply Hiff in H. congruence. }
          split; [intros; contradiction|].
          split; [intros; contradiction | intros _ _; reflexivity]. }
  intros Hne. exists (value_counts (map binary_label serie)).
  split; [destruct serie; [contradiction | reflexivity]|].
  split; [|split].
  - intros l n Hin. apply value_counts_entry in Hin as [Hl ->]. split.
    + apply count_pos; [apply ustr_eqb_eq | assumption].
    + apply in_map_iff in Hl as (v & <- & Hv). eauto.
  - intros v Hv. eexists. apply value_counts_In. now apply in_map.
  - rewrite value_counts_total. apply length_map.
Qed.

(* ================================================================= *)
(** ** Likert answers *)

Section LikertFacts.
Context {U : Unicode} {F : PyFloat}.

Lemma parse_all_length (l : list ustr) : length (parse_all l) <= length l.
Proof.
  induction l as [|v t IH]; simpl; [lia|].
  destruct (py_float (replace_cp 44%N 46%N v)); simpl; lia.
Qed.

Lemma round_all_map (l : list pyfloat) (ints : list Z) :
  round_all l = Ok ints -> map Some ints = map round_astype_int l.
Proof.
  revert ints; induction l as [|x t IH]; intros ints; simpl.
  - intros [= <-]. reflexivity.
  - destruct (round_astype_int x) as [n|]; [|discriminate].
    destruct (round_all t) as [ns|e]; simpl; [|discriminate].
    intros [= <-]. simpl. now rewrite (IH ns).
Qed.

Lemma reindex_entry (k : Z) (ints : list Z) :
  match lookup Z.eqb k (value_counts_sorted ints) with
  | Some n => n
  | None => 0
  end = count_Z k ints.
Proof.
  unfold value_counts_sorted.
  rewrite (lookup_perm Z Z.eqb Z.eqb_eq k (tally Z.eqb ints)).
  - apply lookup_tally. apply Z.eqb_eq.
  - rewrite tally_keys. apply uniq_NoDup. apply Z.eqb_eq.
  - apply Permutation_sym, sort_perm.
Qed.

Lemma scale_counts (ints : list Z) :
  count_Z 1 ints + count_Z 2 ints + count_Z 3 ints + count_Z 4 ints + count_Z 5 ints
  = length (filter in_scale ints).
Proof.
  unfold count_Z, in_scale. induction ints as [|x t IH]; [reflexivity|].
  cbn [count filter].
  destruct (1 =? x)%Z eqn:E1, (2 =? x)%Z eqn:E2, (3 =? x)%Z eqn:E3,
           (4 =? x)%Z eqn:E4, (5 =? x)%Z eqn:E5,
           (1 <=? x)%Z eqn:L1, (x <=? 5)%Z eqn:L5;
    cbn [andb length]; lia.
Qed.

Lemma chart_likert_unfold (df : Frame) (col label : ustr) (vals : list cell) :
  getitem df col = Ok (PdSeries vals) ->
  chart_likert df col label =
  if is_nil (texts vals) then Ok [Info SIN_DATOS]
  else if is_nil (parse_all (texts vals)) then Ok [Info SIN_ESCALA]
  else
    ints <- round_all (parse_all (texts vals)) ;;
    Ok [ AltairChart (u "Valor", u "Conteo")
           [ (LInt 1, count_Z 1 ints); (LInt 2, count_Z 2 ints);
             (LInt 3, count_Z 3 ints); (LInt 4, count_Z 4 ints);
             (LInt 5, count_Z 5 ints) ];
         Caption (u "Promedio: " ++ format_2f (series_mean (parse_all (texts vals)))) ].
Proof.
  intros H. unfold chart_likert. rewrite H. cbn [bind dropna_empty iterate_dropna].
  destruct (is_nil (texts vals)); [reflexivity|].
  destruct (is_nil (parse_all (texts vals))); [reflexivity|].
  destruct (round_all (parse_all (texts vals))) as [ints|e]; [|reflexivity].
  cbn [bind]. unfold reindex. cbn [map fst snd].
  now rewrite !reindex_entry.
Qed.

End LikertFacts.

(** C3, as the code has it.  For a LIKERT column whose parsed values are
    all finite, the distribution has the five entries 1 to 5 in ascending
    order, each with the number of parsed values that round to it; the
    counts add up to the number of parsed values that round into 1..5,
    which is at most the number of parsed values, itself at most the number
    of values that are not missing; the mean of the unrounded parsed values
    is shown with two decimals.  When there are values and none parses, the
    notice that the scale could not be read is shown instead, which is not
    the notice of a question without data. *)
Theorem likert_distribution
  (U : Unicode) (F : PyFloat) (df : Frame) (col label : ustr) (vals : list cell) :
  getitem df col = Ok (PdSeries vals) ->
  let serie := texts vals in
  let numeric := parse_all serie in
  (serie = [] -> chart_likert df col label = Ok [Info SIN_DATOS]) /\
  (serie <> [] -> numeric = [] -> chart_likert df col label = Ok [Info SIN_ESCALA]) /\
  SIN_ESCALA <> SIN_DATOS /\
  length numeric <= length serie /\
  (forall ints,
      numeric <> [] ->
      round_all numeric = Ok ints ->
      chart_likert df col label =
      Ok [ AltairChart (u "Valor", u "Conteo")
             [ (LInt 1, count_Z 1 ints); (LInt 2, count_Z 2 ints);
               (LInt 3, count_Z 3 ints); (LInt 4, count_Z 4 ints);
               (LInt 5, count_Z 5 ints) ];
           Caption (u "Promedio: " ++ format_2f (series_mean numeric)) ] /\
      map Some ints = map round_astype_int numeric /\
      count_Z 1 ints + count_Z 2 ints + count_Z 3 ints + count_Z 4 ints + count_Z 5 ints
      = length (filter in_scale ints) /\
      length (filter in_scale ints) <= length numeric).
Proof.
  intros Hget serie numeric. rewrite (chart_likert_unfold df col label vals Hget).
  fold serie. fold numeric.
  split; [intros ->; reflexivity|].
  split; [intros Hs Hn; rewrite Hn; destruct serie; [contradiction | reflexivity]|].
  split; [intros H; apply (f_equal (@length cp)) in H; vm_compute in H; discriminate|].
  split; [apply parse_all_length|].
  intros ints Hn Hround.
  assert (Hmap := round_all_map _ _ Hround).
  split; [|split; [assumption | split; [apply scale_counts|]]].
  - rewrite Hround. cbn [bind].
    destruct serie; [contradiction Hn; reflexivity|].
    destruct numeric; [contradiction|]. reflexivity.
  - apply (f_equal (@length _)) in Hmap. rewrite !length_map in Hmap.
    rewrite <- Hmap. apply filter_length_le.
Qed.

(** C3 as stated fails: the one value of this column parses and rounds to
    7, which is none of the five categories; the counts add up to 0, not
    to the number of parsed values, 1. *)
Lemma likert_total_counterexample :
  let df := {| columns := [u "P"]; rows := [[Text (u "7")]] |} in
  chart_likert (F := @binary64 latin) df (u "P") (u "") =
  Ok [ AltairChart (u "Valor", u "Conteo")
         [ (LInt 1, 0); (LInt 2, 0); (LInt 3, 0); (LInt 4, 0); (LInt 5, 0) ];
       Caption (u "Promedio: 7.00") ] /\
  length (parse_all (F := @binary64 latin) (texts (column_at df 0))) = 1.
Proof. vm_compute. split; reflexivity. Qed.

(* ================================================================= *)
(** ** Empty cells *)



Lemma getitem_series (df : Frame) (col : ustr) (vals : list cell) :
  getitem_str df col = Ok vals -> getitem df col = Ok (PdSeries vals).
Proof.
  unfold getitem_str. destruct (getitem df col) as [[v|c]|e]; simpl;
    congruence.
Qed.



Section EmptyCellFacts.
Context {U : Unicode}.

Lemma read_csv_raw_text (src : CsvSource) (r : list cell) (v : cell) :
  In r (read_csv_raw src) -> In v r -> is_missing v = false.
Proof.
  unfold read_csv_raw. intros Hr Hv.
  apply in_map_iff in Hr as (fs & <- & _).
  apply in_map_iff in Hv as (f & <- & _). reflexivity.
Qed.





Lemma normalize_beneficios_empty :
  str_lower [] = [] -> nfd [] = [] -> normalize_beneficios (Text []) = [].
Proof.
  intros Hlow Hnfd. unfold normalize_beneficios.
  assert (Hn : norm (Text []) = []).
  { unfold norm. cbn [replace_cp map]. unfold strip, rstrip, lstrip.
    cbn [dropwhile rev app]. rewrite Hlow, Hnfd. reflexivity. }
  rewrite Hn. reflexivity.
Qed.

Lemma chart_categorical_unfold (df : Frame) (col label : ustr) (top_k : Z) (vals : list cell) :
  getitem_str df col = Ok vals ->
  let serie := map strip (texts vals) in
  let serie' :=
    if ustr_eqb (strip col) BENEFICIOS_COL
    then map (fun s => normalize_beneficios (Text s)) serie
    else serie in
  chart_categorical df col label top_k =
  if is_nil serie' then Ok [Info SIN_DATOS]
  else Ok [AltairChart (u "Categoría", u "Conteo")
             (str_data (head top_k (value_counts serie')))].
Proof. intros H. unfold chart_categorical. rewrite H. reflexivity. Qed.

End EmptyCellFacts.



(* ================================================================= *)
(** ** The normaliser on the three blocks *)

Lemma in_tables_In (c : cp) : Latin.in_tables c = true -> In c TABLE_CODE_POINTS.
Proof.
  unfold Latin.in_tables, TABLE_CODE_POINTS. intros H.
  rewrite <- (N2Nat.id c). apply in_map. apply in_or_app.
  rewrite !in_seq.
  apply orb_true_iff in H as [H|H].
  - apply N.ltb_lt in H. left. lia.
  - apply andb_true_iff in H as [H1 H2].
    apply N.leb_le in H1. apply N.ltb_lt in H2. right. lia.
Qed.

Lemma table_check (P : cp -> bool) :
  forallb P TABLE_CODE_POINTS = true ->
  forall c, Latin.in_tables c = true -> P c = true.
Proof.
  intros H c Hc. rewrite forallb_forall in H. apply H. now apply in_tables_In.
Qed.

Lemma decompose_lower_settles (c : cp) :
  Latin.in_tables c = true ->
  forallb (fun d => Latin.is_Mn d || Latin.isspace d || settled d)
          (Latin.decompose (Latin.tolower c)) = true.
Proof. revert c. apply table_check. vm_compute. reflexivity. Qed.

Lemma place_Forall (P : cp -> Prop) (c : cp) (rest : ustr) :
  P c -> Forall P rest -> Forall P (Latin.place c rest).
Proof.
  intros Hc. induction 1 as [|d rest Hd Hrest IH]; simpl.
  - auto.
  - destruct ((0 <? Latin.combining d)%N && (Latin.combining d <? Latin.combining c)%N); auto.
Qed.

Lemma canonical_order_Forall (P : cp -> Prop) (s : ustr) :
  Forall P s -> Forall P (Latin.canonical_order s).
Proof.
  unfold Latin.canonical_order. induction 1; simpl; [constructor|].
  now apply place_Forall.
Qed.

Lemma dropwhile_Forall (P : cp -> Prop) (f : cp -> bool) (s : ustr) :
  Forall P s -> Forall P (dropwhile f s).
Proof.
  induction 1 as [|c s Hc Hs IH]; simpl; [constructor|].
  destruct (f c); auto.
Qed.

Lemma strip_Forall (P : cp -> Prop) (s : ustr) :
  Forall P s -> Forall P (strip s).
Proof.
  intros H. unfold strip, rstrip, lstrip.
  apply Forall_rev, dropwhile_Forall, Forall_rev, dropwhile_Forall, H.
Qed.

Lemma sub_ws_settled (b : bool) (w : ustr) :
  Forall (fun d => Latin.isspace d || settled d = true) w ->
  Forall (fun d => settled d = true) (sub_ws b w) /\ tidy b (sub_ws b w) = true.
Proof.
  intros H. revert b. induction H as [|c w Hc Hw IH]; intros b; simpl.
  - auto.
  - change (isspace c) with (Latin.isspace c).
    destruct (Latin.isspace c) eqn:Hsp.
    + destruct b.
      * apply (IH true).
      * destruct (IH true) as [IH1 IH2]. split.
        -- constructor; [reflexivity | assumption].
        -- simpl. assumption.
    + destruct (IH false) as [IH1 IH2]. simpl in Hc. split.
      * constructor; assumption.
      * simpl. rewrite Hsp. assumption.
Qed.

Lemma norm_latin (s : ustr) :
  norm (Text s) =
  sub_ws false
    (filter (fun ch => negb (Latin.is_Mn ch))
       (Latin.canonical_order
          (flat_map Latin.decompose
             (map Latin.tolower (strip (replace_cp NBSP SP s)))))).
Proof. reflexivity. Qed.

Lemma replace_in_tables (s : ustr) :
  Forall (fun c => Latin.in_tables c = true) s ->
  Forall (fun c => Latin.in_tables c = true) (replace_cp NBSP SP s).
Proof.
  induction 1 as [|c s Hc Hs IH]; simpl; constructor; [|assumption].
  destruct (c =? NBSP)%N; [reflexivity | assumption].
Qed.

(** The normal form of a text of the blocks: settled characters, white
    space as single spaces. *)
Lemma norm_settled (s : ustr) :
  Forall (fun c => Latin.in_tables c = true) s ->
  Forall (fun d => settled d = true) (norm (Text s)) /\
  tidy false (norm (Text s)) = true.
Proof.
  intros Hs. rewrite norm_latin. apply sub_ws_settled.
  apply Forall_forall. intros d Hd.
  apply filter_In in Hd as [Hd HMn].
  revert d Hd HMn.
  apply (proj1 (Forall_forall
    (fun d => negb (Latin.is_Mn d) = true -> Latin.isspace d || settled d = true) _)).
  apply canonical_order_Forall.
  apply Forall_flat_map.
  assert (H2 := strip_Forall _ _ (replace_in_tables s Hs)).
  apply Forall_map. revert H2. apply Forall_impl. intros c Hc.
  apply Forall_forall. intros d Hd HMn.
  pose proof (decompose_lower_settles c Hc) as Hall.
  rewrite forallb_forall in Hall. specialize (Hall d Hd).
  destruct (Latin.is_Mn d); [discriminate | exact Hall].
Qed.

Lemma tidy_weaken (s : ustr) : tidy true s = true -> tidy false s = true.
Proof.
  destruct s as [|c t]; simpl; [reflexivity|].
  destruct (Latin.isspace c); [discriminate | auto].
Qed.

Lemma tidy_dropwhile (b : bool) (s : ustr) :
  tidy b s = true -> tidy false (dropwhile Latin.isspace s) = true.
Proof.
  revert b; induction s as [|c t IH]; intros b; simpl; [reflexivity|].
  destruct (Latin.isspace c) eqn:Hsp.
  - intros H. apply andb_true_iff in H as [_ H]. now apply (IH true).
  - intros H. simpl. now rewrite Hsp.
Qed.

Lemma tidy_app_l (b : bool) (s w : ustr) :
  tidy b (s ++ w) = true -> tidy b s = true.
Proof.
  revert b; induction s as [|c t IH]; intros b; simpl; [reflexivity|].
  destruct (Latin.isspace c).
  - intros H. apply andb_true_iff in H as [H1 H2]. rewrite H1. now apply IH.
  - apply IH.
Qed.

Lemma dropwhile_suffix (f : cp -> bool) (s : ustr) :
  exists w, s = w ++ dropwhile f s.
Proof.
  induction s as [|c t [w IH]]; simpl.
  - now exists [].
  - destruct (f c).
    + exists (c :: w). simpl. now f_equal.
    + now exists [].
Qed.

Lemma tidy_strip (s : ustr) : tidy false s = true -> tidy false (strip s) = true.
Proof.
  intros H. unfold strip, rstrip, lstrip.
  change (@isspace latin) with Latin.isspace.
  apply tidy_dropwhile in H.
  set (y := dropwhile Latin.isspace s) in *.
  destruct (dropwhile_suffix Latin.isspace (rev y)) as [w Hw].
  apply (tidy_app_l false _ (rev w)).
  rewrite <- rev_app_distr, <- Hw, rev_involutive. exact H.
Qed.

Lemma tidy_sub_ws (b : bool) (s : ustr) : tidy b s = true -> sub_ws b s = s.
Proof.
  revert b; induction s as [|c t IH]; intros b; simpl; [reflexivity|].
  change (isspace c) with (Latin.isspace c).
  destruct (Latin.isspace c).
  - intros H. apply andb_true_iff in H as [H1 H2].
    apply andb_true_iff in H1 as [Hb Hc].
    apply negb_true_iff in Hb. subst b. apply N.eqb_eq in Hc. subst c.
    now rewrite (IH true).
  - intros H. now rewrite (IH false).
Qed.

Lemma settled_parts (d : cp) :
  settled d = true ->
  Latin.tolower d = d /\ Latin.decompose d = [d] /\ Latin.combining d = 0%N
  /\ Latin.is_Mn d = false /\ d <> NBSP.
Proof.
  unfold settled. rewrite !andb_true_iff, !negb_true_iff.
  intros ((((H1 & H2) & H3) & H4) & H5).
  apply N.eqb_eq in H1. apply ustr_eqb_eq in H2. apply N.eqb_eq in H3.
  apply N.eqb_neq in H5. auto.
Qed.

Lemma settled_fixed (z : ustr) :
  Forall (fun d => settled d = true) z ->
  replace_cp NBSP SP z = z /\
  map Latin.tolower z = z /\
  flat_map Latin.decompose z = z /\
  Latin.canonical_order z = z /\
  filter (fun ch => negb (Latin.is_Mn ch)) z = z.
Proof.
  unfold replace_cp, Latin.canonical_order.
  induction 1 as [|d z Hd Hz (IH1 & IH2 & IH3 & IH4 & IH5)];
    [repeat split|].
  assert (Hz' := Hz).
  apply settled_parts in Hd as (Hlow & Hdec & Hcc & Hmn & Hnb).
  apply N.eqb_neq in Hnb.
  cbn [map flat_map fold_right filter].
  rewrite Hnb, Hlow, Hdec, Hmn, IH1, IH2, IH3, IH4, IH5. cbn [app negb].
  repeat split.
  destruct z as [|e z]; [reflexivity|]. cbn [Latin.place].
  inversion Hz' as [|? ? He _]; subst.
  apply settled_parts in He as (_ & _ & -> & _). reflexivity.
Qed.

(** On a text in normal form the normaliser only trims. *)
Lemma norm_of_settled (y : ustr) :
  Forall (fun d => settled d = true) y -> tidy false y = true ->
  norm (Text y) = strip y.
Proof.
  intros Hy Ht. rewrite norm_latin.
  destruct (settled_fixed y Hy) as (-> & _).
  destruct (settled_fixed (strip y) (strip_Forall _ _ Hy)) as (_ & -> & -> & -> & ->).
  apply tidy_sub_ws. now apply tidy_strip.
Qed.

Lemma norm_second_pass (s : ustr) :
  Forall (fun c => Latin.in_tables c = true) s ->
  norm (Text (norm (Text s))) = strip (norm (Text s)).
Proof.
  intros Hs. destruct (norm_settled s Hs) as [H1 H2].
  now apply norm_of_settled.
Qed.

(** *** Texts without marks *)

Lemma combining_in_range (d : cp) (t : list (cp * cp * N)) :
  Latin.combining_in d t <> 0%N ->
  exists lo hi k, In (lo, hi, k) t /\ (lo <= d)%N /\ (d <= hi)%N.
Proof.
  induction t as [|[[lo hi] k] t IH]; simpl; [congruence|].
  destruct ((lo <=? d)%N && (d <=? hi)%N) eqn:E.
  - intros _. apply andb_true_iff in E as [E1 E2].
    apply N.leb_le in E1. apply N.leb_le in E2. exists lo, hi, k. auto.
  - intros H. destruct (IH H) as (lo' & hi' & k' & Hin & Hb). exists lo', hi', k'. auto.
Qed.

Lemma combining_is_Mn (d : cp) :
  (0 <? Latin.combining d)%N = true -> Latin.is_Mn d = true.
Proof.
  intros H. apply N.ltb_lt in H.
  destruct (combining_in_range d Latin.COMBINING) as (lo & hi & k & Hin & Hlo & Hhi).
  { unfold Latin.combining in H. lia. }
  assert (Hall : forallb (fun r => (768 <=? fst (fst r))%N && (snd (fst r) <? 880)%N)
                         Latin.COMBINING = true) by (vm_compute; reflexivity).
  rewrite forallb_forall in Hall. specialize (Hall _ Hin). simpl in Hall.
  apply andb_true_iff in Hall as [H1 H2].
  apply N.leb_le in H1. apply N.ltb_lt in H2.
  unfold Latin.is_Mn. apply andb_true_iff. split;
    [apply N.leb_le | apply N.ltb_lt]; lia.
Qed.

Lemma filter_place (c : cp) (rest : ustr) :
  filter (fun ch => negb (Latin.is_Mn ch)) (Latin.place c rest)
  = filter (fun ch => negb (Latin.is_Mn ch)) (c :: rest).
Proof.
  induction rest as [|d rest IH]; [reflexivity|]. cbn [Latin.place].
  destruct ((0 <? Latin.combining d)%N && (Latin.combining d <? Latin.combining c)%N) eqn:E;
    [|reflexivity].
  apply andb_true_iff in E as [E1 E2].
  assert (Hd := combining_is_Mn d E1).
  assert (Hc : Latin.is_Mn c = true).
  { apply combining_is_Mn. apply N.ltb_lt. apply N.ltb_lt in E1, E2. lia. }
  cbn [filter] in *. rewrite Hd, Hc in *. cbn [negb] in *. exact IH.
Qed.

Lemma filter_canonical_order (s : ustr) :
  filter (fun ch => negb (Latin.is_Mn ch)) (Latin.canonical_order s)
  = filter (fun ch => negb (Latin.is_Mn ch)) s.
Proof.
  unfold Latin.canonical_order. induction s as [|c s IH]; [reflexivity|].
  cbn [fold_right]. rewrite filter_place. cbn [filter]. now rewrite IH.
Qed.

Lemma norm_by_base (s : ustr) :
  norm (Text s) = sub_ws false (flat_map base (strip (replace_cp NBSP SP s))).
Proof.
  rewrite norm_latin, filter_canonical_order. f_equal.
  induction (strip (replace_cp NBSP SP s)) as [|c t IH]; [reflexivity|].
  cbn [map flat_map]. now rewrite filter_app, IH.
Qed.

Lemma base_ends (c : cp) :
  Latin.in_tables c = true ->
  Latin.isspace c || Latin.is_Mn c
  || (starts_nonspace (base c) && starts_nonspace (rev (base c))) = true.
Proof. revert c. apply table_check. vm_compute. reflexivity. Qed.

Lemma dropwhile_last (f : cp -> bool) (a : ustr) (c : cp) :
  f c = false -> dropwhile f (a ++ [c]) = dropwhile f a ++ [c].
Proof.
  intros Hc. induction a as [|x a IH]; simpl; [now rewrite Hc|].
  destruct (f x); [assumption | reflexivity].
Qed.

Lemma dropwhile_starts (s : ustr) :
  is_nil (dropwhile Latin.isspace s)
  || starts_nonspace (dropwhile Latin.isspace s) = true.
Proof.
  induction s as [|c t IH]; [reflexivity|]. simpl.
  destruct (Latin.isspace c) eqn:E; [assumption|]. simpl. now rewrite E.
Qed.

Lemma strip_trimmed (s : ustr) : trimmed (strip s) = true.
Proof.
  unfold strip, rstrip, lstrip, trimmed.
  change (@isspace latin) with Latin.isspace.
  pose proof (dropwhile_starts s) as H.
  destruct (dropwhile Latin.isspace s) as [|c t]; [reflexivity|].
  cbn [is_nil orb starts_nonspace] in H. apply negb_true_iff in H.
  pose proof (dropwhile_starts (rev (c :: t))) as H'.
  set (D := dropwhile Latin.isspace (rev (c :: t))) in *.
  assert (HD : D = dropwhile Latin.isspace (rev t) ++ [c])
    by (subst D; cbn [rev]; now apply dropwhile_last).
  assert (HR : rev D = c :: rev (dropwhile Latin.isspace (rev t)))
    by (rewrite HD, rev_app_distr; reflexivity).
  rewrite rev_involutive, HR. cbn [is_nil orb starts_nonspace].
  rewrite H. cbn [negb andb].
  rewrite HD in H' |- *.
  destruct (dropwhile Latin.isspace (rev t)); exact H'.
Qed.

Lemma trimmed_strip (s : ustr) : trimmed s = true -> strip s = s.
Proof.
  unfold trimmed, strip, rstrip, lstrip.
  change (@isspace latin) with Latin.isspace.
  destruct s as [|c t]; [reflexivity|]. cbn [is_nil orb starts_nonspace].
  intros H. apply andb_true_iff in H as [H1 H2].
  apply negb_true_iff in H1. cbn [dropwhile]. rewrite H1.
  destruct (rev (c :: t)) as [|e r] eqn:E; [simpl in H2; discriminate|].
  cbn [starts_nonspace] in H2. apply negb_true_iff in H2.
  cbn [dropwhile]. rewrite H2, <- E. apply rev_involutive.
Qed.

Lemma rev_flat_map (f : cp -> ustr) (l : ustr) :
  rev (flat_map f l) = flat_map (fun c => rev (f c)) (rev l).
Proof.
  induction l as [|c l IH]; [reflexivity|].
  cbn [flat_map rev]. rewrite rev_app_distr, IH, flat_map_app.
  cbn [flat_map]. now rewrite app_nil_r.
Qed.

Lemma flat_map_base_starts (f : cp -> ustr) (s : ustr) :
  (forall c, plain c -> Latin.isspace c = false -> starts_nonspace (f c) = true) ->
  Forall plain s -> starts_nonspace s = true -> starts_nonspace (flat_map f s) = true.
Proof.
  intros Hf Hs. destruct s as [|c t]; [discriminate|].
  cbn [starts_nonspace flat_map]. intros Hc. apply negb_true_iff in Hc.
  inversion Hs as [|? ? Hp _]; subst.
  specialize (Hf c Hp Hc). destruct (f c); [discriminate | exact Hf].
Qed.

Lemma flat_map_base_trimmed (s : ustr) :
  Forall plain s -> trimmed s = true -> trimmed (flat_map base s) = true.
Proof.
  intros Hs. unfold trimmed. destruct s as [|c0 t0] eqn:Es; [reflexivity|].
  rewrite <- Es in *. cbn [is_nil orb]. replace (is_nil s) with false by (now rewrite Es).
  cbn [orb]. intros H. apply andb_true_iff in H as [H1 H2].
  assert (Hb : forall c, plain c -> Latin.isspace c = false ->
                         starts_nonspace (base c) = true /\
                         starts_nonspace (rev (base c)) = true).
  { intros c [Hc Hm] Hsp. pose proof (base_ends c Hc) as H.
    rewrite Hsp, Hm in H. cbn [orb] in H. now apply andb_true_iff in H. }
  apply orb_true_iff. right. apply andb_true_iff. split.
  - apply flat_map_base_starts; [intros c Hp Hsp; apply (Hb c Hp Hsp) | assumption..].
  - rewrite rev_flat_map.
    apply flat_map_base_starts;
      [intros c Hp Hsp; apply (Hb c Hp Hsp) | now apply Forall_rev | assumption].
Qed.

Lemma sub_ws_last (b : bool) (w : ustr) (d : cp) :
  Latin.isspace d = false -> sub_ws b (w ++ [d]) = sub_ws b w ++ [d].
Proof.
  intros Hd. revert b. induction w as [|c w IH]; intros b; cbn [app sub_ws].
  - change (isspace d) with (Latin.isspace d). now rewrite Hd.
  - destruct (isspace c); [destruct b|]; cbn [app]; now rewrite IH.
Qed.

Lemma sub_ws_trimmed (w : ustr) :
  trimmed w = true -> trimmed (sub_ws false w) = true.
Proof.
  unfold trimmed. destruct w as [|c t] eqn:Ew; [reflexivity|].
  cbn [is_nil orb]. intros H. apply andb_true_iff in H as [H1 H2].
  cbn [starts_nonspace] in H1. apply negb_true_iff in H1.
  apply orb_true_iff. right. apply andb_true_iff. split.
  - cbn [sub_ws]. change (isspace c) with (Latin.isspace c). rewrite H1.
    cbn [starts_nonspace]. now rewrite H1.
  - rewrite <- (rev_involutive (c :: t)).
    destruct (rev (c :: t)) as [|e r]; [discriminate|].
    cbn [starts_nonspace] in H2. apply negb_true_iff in H2.
    cbn [rev]. rewrite (sub_ws_last _ _ _ H2), rev_app_distr.
    cbn [rev app starts_nonspace]. now rewrite H2.
Qed.

(** A text without marks is in normal form after one pass. *)
Lemma norm_idempotent_plain (s : ustr) :
  Forall plain s -> norm (Text (norm (Text s))) = norm (Text s).
Proof.
  intros Hs.
  assert (Hin : Forall (fun c => Latin.in_tables c = true) s)
    by (revert Hs; apply Forall_impl; intros c [H _]; exact H).
  rewrite (norm_second_pass s Hin). apply trimmed_strip.
  rewrite norm_by_base. apply sub_ws_trimmed, flat_map_base_trimmed.
  - apply strip_Forall. unfold replace_cp.
    induction Hs as [|c s Hc Hs' IH]; cbn [map]; constructor.
    + destruct (c =? NBSP)%N; [split; reflexivity | assumption].
    + apply IH. now inversion Hin.
  - apply strip_trimmed.
Qed.

(** C9, as the code has it.  The normaliser is a total function that sends
    a missing value to the empty string.  A second pass over its result
    only trims it (shown on the three blocks of the tables): the normaliser
    is idempotent on the inputs whose normal form has no space at either
    end, which all inputs without nonspacing marks are. *)
Theorem norm_second_pass_only_trims :
  (forall U : Unicode, norm Missing = []) /\
  (forall s, Forall (fun c => Latin.in_tables c = true) s ->
             norm (U := latin) (Text (norm (U := latin) (Text s)))
             = strip (U := latin) (norm (U := latin) (Text s))) /\
  (forall s, Forall (fun c => Latin.in_tables c = true) s ->
             (norm (U := latin) (Text (norm (U := latin) (Text s))) = norm (U := latin) (Text s)
              <-> strip (U := latin) (norm (U := latin) (Text s)) = norm (U := latin) (Text s))) /\
  (forall s, Forall plain s ->
             norm (U := latin) (Text (norm (U := latin) (Text s))) = norm (U := latin) (Text s)).
Proof.
  split; [reflexivity|].
  split; [exact norm_second_pass|].
  split; [|exact norm_idempotent_plain].
  intros s Hs. rewrite (norm_second_pass s Hs). tauto.
Qed.

(** C9 as stated fails: an acute accent before " a" is removed after the
    text was trimmed, which leaves the space in front; a second pass
    removes it. *)
Lemma norm_not_idempotent_counterexample :
  let s := [769; 32; 97]%N in
  norm (U := latin) (Text s) = [32; 97]%N /\
  norm (U := latin) (Text (norm (U := latin) (Text s))) = [97]%N /\
  norm (U := latin) (Text (norm (U := latin) (Text s))) <> norm (U := latin) (Text s).
Proof. vm_compute. repeat split. discriminate. Qed.

(* ================================================================= *)
(** ** The filters *)

Lemma zip_with_map (A B C D : Type) (f : B -> C -> D) (g : A -> B) (h : A -> C) (l : list A) :
  zip_with f (map g l) (map h l) = map (fun x => f (g x) (h x)) l.
Proof. induction l as [|x l IH]; simpl; [reflexivity | now rewrite IH]. Qed.

Lemma select_rows_map (A : Type) (g : A -> bool) (l : list A) :
  select_rows (map g l) l = filter g l.
Proof.
  induction l as [|x l IH]; simpl; [reflexivity|].
  rewrite IH. reflexivity.
Qed.

Lemma In_somes (A : Type) (x : A) (l : list (option A)) :
  In x (somes l) <-> In (Some x) l.
Proof.
  induction l as [|[a|] l IH]; simpl; [tauto | |].
  - rewrite IH. split; intros [H|H]; auto; left; congruence.
  - rewrite IH. split; [auto | intros [H|H]; [discriminate | assumption]].
Qed.

Section FilterFacts.
Context {U : Unicode}.

Lemma programas_of_In (p : ustr) (prog_series : list (option ustr)) :
  In p (programas_of prog_series) <-> In (Some p) prog_series.
Proof.
  unfold programas_of, unique.
  rewrite sort_In, (uniq_In _ _ ustr_eqb_eq). apply In_somes.
Qed.

Lemma prog_value_Some (v : cell) (p : ustr) :
  prog_value v = Some p <->
  strip (py_str v) = p /\ mem_ustr p PROGRAMA_VACIO = false.
Proof.
  unfold prog_value.
  destruct (mem_ustr (strip (py_str v)) PROGRAMA_VACIO) eqn:E; split.
  - discriminate.
  - intros [H1 H2]. subst p. congruence.
  - intros [= <-]. auto.
  - intros [H1 _]. subst p. reflexivity.
Qed.

(** An offered program compares with a row as its trimmed text does. *)
Lemma eq_sel_offered (p : ustr) (v : cell) :
  mem_ustr p PROGRAMA_VACIO = false ->
  eq_sel p (prog_value v) = ustr_eqb (strip (py_str v)) p.
Proof.
  intros Hp. unfold prog_value.
  destruct (mem_ustr (strip (py_str v)) PROGRAMA_VACIO) eqn:E; [|reflexivity].
  simpl. symmetry. apply ustr_eqb_neq. intros H. rewrite H in E. congruence.
Qed.

Lemma year_at_length (s y : ustr) : year_at s = Some y -> length y = 4.
Proof.
  unfold year_at. destruct s as [|a [|b [|c [|d s]]]]; try discriminate.
  repeat match goal with
         | |- (if ?b then _ else _) = _ -> _ => destruct b
         end; intros [= <-]; reflexivity.
Qed.

Lemma search_year_length (val y : ustr) : search_year val = Some y -> length y = 4.
Proof.
  induction val as [|c val IH].
  - discriminate.
  - cbn [search_year]. destruct (year_at (c :: val)) eqn:E.
    + intros [= <-]. now apply (year_at_length (c :: val)).
    + exact IH.
Qed.

Lemma years_of_length (years_raw : list (option ustr)) (y : ustr) :
  In y (years_of years_raw) -> length y = 4.
Proof.
  unfold years_of, unique. rewrite sort_In, (uniq_In _ _ ustr_eqb_eq), In_somes.
  intros H. apply in_map_iff in H as (val & Hv & _).
  now apply (search_year_length val).
Qed.

End FilterFacts.

(** C6.  The filter keeps a row exactly when the program selected is the
    entry for all programs or the trimmed program of the row is the program
    selected, and the year selected is the entry for all years or the
    trimmed year text of the row contains the year selected; the rows kept
    come in their order, with all columns. *)
Theorem filter_engine_keeps
  (U : Unicode) (ui : Sidebar) (df : Frame) (prog_col year_col : ustr) (i j : nat) :
  picks_option (sidebar_programa ui) ->
  picks_option (sidebar_year ui) ->
  detect_program_year_columns df = Ok (prog_col, year_col) ->
  positions_from 0 prog_col (columns df) = [i] ->
  positions_from 0 year_col (columns df) = [j] ->
  let programas := programas_of (map prog_value (column_at df i)) in
  let years := years_of (map year_value (column_at df j)) in
  let programa_sel := sidebar_programa ui (TODOS_LOS_PROGRAMAS :: programas) in
  let year_sel := sidebar_year ui (TODOS :: years) in
  get_program_year_filters ui df =
  Ok ({| columns := columns df;
         rows := filter (fun r => keeps programa_sel year_sel
                                    (nth i r Missing) (nth j r Missing))
                        (rows df) |},
      programa_sel, year_sel).
Proof.
  intros Hprog _ Hdet Hi Hj. cbv zeta.
  unfold get_program_year_filters. rewrite Hdet. cbn [bind].
  unfold getitem_str, getitem. rewrite Hi, Hj. cbn [bind].
  set (prog_series := map prog_value (column_at df i)).
  set (years_raw := map year_value (column_at df j)).
  set (p := sidebar_programa ui (TODOS_LOS_PROGRAMAS :: programas_of prog_series)).
  set (y := sidebar_year ui (TODOS :: years_of years_raw)).
  f_equal. f_equal. f_equal. f_equal.
  assert (Hp : ustr_eqb p TODOS_LOS_PROGRAMAS = false ->
               mem_ustr p PROGRAMA_VACIO = false).
  { intros Hne. apply ustr_eqb_neq in Hne.
    destruct (Hprog (TODOS_LOS_PROGRAMAS :: programas_of prog_series)) as [H|H];
      [discriminate | fold p in H; congruence | fold p in H].
    apply programas_of_In in H. subst prog_series.
    apply in_map_iff in H as (v & Hv & _). now apply prog_value_Some in Hv. }
  subst prog_series years_raw. unfold column_at. rewrite !map_map.
  set (m0 := map (fun _ : list cell => true) (rows df)).
  set (g1 := fun r : list cell =>
               if negb (ustr_eqb p TODOS_LOS_PROGRAMAS)
               then true && eq_sel p (prog_value (nth i r Missing)) else true).
  set (g2 := fun r : list cell =>
               if negb (ustr_eqb y TODOS)
               then g1 r && contains_sel y (year_value (nth j r Missing)) else g1 r).
  match goal with
  | |- select_rows ?m _ = _ => replace m with (map g2 (rows df))
  end.
  - rewrite select_rows_map. apply filter_ext. intros r.
    subst g2 g1. cbv beta. unfold keeps.
    destruct (ustr_eqb p TODOS_LOS_PROGRAMAS) eqn:Ep; cbn [negb orb andb].
    + destruct (ustr_eqb y TODOS); cbn [negb orb andb]; [reflexivity|].
      destruct (nth j r Missing); reflexivity.
    + rewrite (eq_sel_offered p _ (Hp eq_refl)).
      destruct (ustr_eqb y TODOS); cbn [negb orb andb];
        [now rewrite andb_true_r|].
      destruct (nth j r Missing); reflexivity.
  - subst g2 g1 m0.
    destruct (negb (ustr_eqb p TODOS_LOS_PROGRAMAS)), (negb (ustr_eqb y TODOS));
      rewrite ?zip_with_map; reflexivity.
Qed.

(** C7, as the code has it.  The entry for all years, "Todos", is none of
    the years offered, which have four characters each.  The entry for all
    programs is the text "Todos los programas" among the programs offered:
    it is one of them exactly when a program cell of the data trims to that
    text. *)
Theorem sentinel_collisions (U : Unicode) :
  (forall (year_cells : list cell) (y : ustr),
      In y (years_of (map year_value year_cells)) ->
      length y = 4 /\ y <> TODOS) /\
  (forall prog_cells : list cell,
      In TODOS_LOS_PROGRAMAS (programas_of (map prog_value prog_cells)) <->
      exists v, In v prog_cells /\ strip (py_str v) = TODOS_LOS_PROGRAMAS) /\
  (forall (prog_cells : list cell) (p : ustr),
      (forall v, In v prog_cells -> strip (py_str v) <> TODOS_LOS_PROGRAMAS) ->
      In p (programas_of (map prog_value prog_cells)) ->
      p <> TODOS_LOS_PROGRAMAS).
Proof.
  assert (Hprog : forall prog_cells : list cell,
      In TODOS_LOS_PROGRAMAS (programas_of (map prog_value prog_cells)) <->
      exists v, In v prog_cells /\ strip (py_str v) = TODOS_LOS_PROGRAMAS).
  { intros prog_cells. rewrite programas_of_In, in_map_iff. split.
    - intros (v & Hv & Hin). apply prog_value_Some in Hv as [Hv _]. eauto.
    - intros (v & Hin & Hv). exists v. split; [|assumption].
      apply prog_value_Some. split; [assumption | reflexivity]. }
  split; [|split; [exact Hprog|]].
  - intros year_cells y Hy. apply years_of_length in Hy. split; [assumption|].
    intros ->. discriminate.
  - intros prog_cells p Hno Hp ->. apply Hprog in Hp as (v & Hin & Hv).
    now apply (Hno v).
Qed.

(** C7 as stated fails on the program axis: the data has a program named
    "Todos los programas"; choosing it, the last of the three options, is
    taken for the entry for all programs, and the row of "Sistemas" stays. *)
Lemma sentinel_collision_counterexample :
  let df :=
    {| columns := [u "Programa"; u "Año Egreso"];
       rows := [ [Text (u "Todos los programas"); Text (u "2020")];
                 [Text (u "Sistemas"); Text (u "2021")] ] |} in
  let ui :=
    {| sidebar_programa := fun options => last options [];
       sidebar_year := fun options => hd [] options |} in
  programas_of (map (prog_value (U := latin)) (column_at df 0))
  = [u "Sistemas"; u "Todos los programas"] /\
  get_program_year_filters (U := latin) ui df
  = Ok (df, u "Todos los programas", u "Todos").
Proof. vm_compute. split; reflexivity. Qed.

(* ================================================================= *)
(** ** The report *)

Lemma in_sequence_cons (o : outcome) (l : list outcome) :
  snd o = None ->
  in_sequence (o :: l) = (fst o ++ fst (in_sequence l), snd (in_sequence l)).
Proof. destruct o as [evs [e|]]; [discriminate | reflexivity]. Qed.

Section ReportFacts.
Context {U : Unicode} {F : PyFloat}.

Ltac no_notice :=
  let H := fresh in
  intros H; cbn [In] in H;
  repeat match goal with
         | H : _ \/ _ |- _ => destruct H as [H|H]
         | H : False |- _ => contradiction
         | H : _ = unsupported_notice _ |- _ =>
             unfold unsupported_notice in H; try discriminate H;
             injection H as H; vm_compute in H; discriminate H
         end.

Lemma chart_binary_no_notice (df : Frame) (col label qtype : ustr) (evs : list st_event) :
  chart_binary df col label = Ok evs -> ~ In (unsupported_notice qtype) evs.
Proof.
  unfold chart_binary. destruct (getitem_str df col); cbn [bind]; [|discriminate].
  destruct (is_nil _); intros [= <-]; no_notice.
Qed.

Lemma chart_categorical_no_notice
  (df : Frame) (col label qtype : ustr) (top_k : Z) (evs : list st_event) :
  chart_categorical df col label top_k = Ok evs -> ~ In (unsupported_notice qtype) evs.
Proof.
  unfold chart_categorical. destruct (getitem_str df col); cbn [bind]; [|discriminate].
  destruct (is_nil _); intros [= <-]; no_notice.
Qed.

Lemma chart_multi_no_notice
  (df : Frame) (col label qtype : ustr) (top_k : Z) (evs : list st_event) :
  chart_multi df col label top_k = Ok evs -> ~ In (unsupported_notice qtype) evs.
Proof.
  unfold chart_multi. destruct (getitem df col); cbn [bind]; [|discriminate].
  destruct (is_nil _); intros [= <-]; no_notice.
Qed.

Lemma chart_likert_no_notice (df : Frame) (col label qtype : ustr) (evs : list st_event) :
  chart_likert df col label = Ok evs -> ~ In (unsupported_notice qtype) evs.
Proof.
  unfold chart_likert. destruct (getitem df col); cbn [bind]; [|discriminate].
  destruct (dropna_empty _ _); [intros [= <-]; no_notice|].
  destruct (is_nil _); [intros [= <-]; no_notice|].
  destruct (round_all _); cbn [bind]; [|discriminate].
  intros [= <-]; no_notice.
Qed.

Lemma chart_multi_from_cols_no_notice
  (df : Frame) (option_cols : list ustr) (label qtype : ustr) (top_k : Z)
  (evs : list st_event) :
  chart_multi_from_cols df option_cols label top_k = Ok evs ->
  ~ In (unsupported_notice qtype) evs.
Proof.
  unfold chart_multi_from_cols.
  destruct (is_nil option_cols); [intros [= <-]; no_notice|].
  destruct (is_nil _); intros [= <-]; no_notice.
Qed.

Lemma show_question_no_notice (label qtype : ustr) (r : result (list st_event)) :
  (forall evs, r = Ok evs -> ~ In (unsupported_notice qtype) evs) ->
  ~ In (unsupported_notice qtype) (fst (show_question label r)).
Proof.
  intros H. destruct r as [evs|e]; cbn [show_question fst In].
  - intros [Hm|Hin]; [discriminate | now apply (H evs)].
  - intros [Hm|[]]. discriminate.
Qed.

Lemma supported_dec (qtype : ustr) :
  {In qtype SUPPORTED_TYPES} + {~ In qtype SUPPORTED_TYPES}.
Proof. apply in_dec. apply list_eq_dec. apply N.eq_dec. Qed.

(** The chain of comparisons, case by case. *)
Lemma dispatch_cases (cfg : Config) (df_filt : Frame) (q : Question) (qtype label : ustr) :
  let col := get (q_column q) [] in
  let top_k := get (top_k_categories cfg) 10%Z in
  (qtype = u "BINARIA" ->
   dispatch cfg df_filt q qtype label = chart_binary df_filt col label) /\
  (qtype = u "CATEGORICA" ->
   dispatch cfg df_filt q qtype label = chart_categorical df_filt col label top_k) /\
  (qtype = u "MULTI" ->
   dispatch cfg df_filt q qtype label = chart_multi df_filt col label top_k) /\
  (qtype = u "LIKERT" ->
   dispatch cfg df_filt q qtype label = chart_likert df_filt col label) /\
  (qtype = u "MULTI_COLS" ->
   dispatch cfg df_filt q qtype label
   = chart_multi_from_cols df_filt (get (q_columns q) []) label top_k) /\
  (~ In qtype SUPPORTED_TYPES ->
   dispatch cfg df_filt q qtype label = Ok [unsupported_notice qtype]).
Proof.
  intros col top_k. unfold dispatch. fold col. fold top_k.
  assert (Hdiff : forall a b, ustr_eqb (u a) (u b) = false -> u a <> u b)
    by (intros a b H; now apply ustr_eqb_neq).
  repeat split; intros H.
  1-5: subst qtype;
    repeat match goal with
           | |- (if ustr_eqb ?a ?b then _ else _) = _ =>
               let E := fresh in
               destruct (ustr_eqb a b) eqn:E;
                 [first [ reflexivity | vm_compute in E; discriminate E ]|]
           end;
    match goal with E : ustr_eqb _ _ = false |- _ => vm_compute in E; discriminate E end.
  repeat match goal with
         | |- (if ustr_eqb ?a ?b then _ else _) = _ =>
             let E := fresh in
             destruct (ustr_eqb a b) eqn:E;
               [apply ustr_eqb_eq in E; exfalso; apply H; rewrite E;
                cbn [SUPPORTED_TYPES In]; tauto|]
         end.
  reflexivity.
Qed.

End ReportFacts.

(** C8, as the code has it.  A question whose type is not MULTI_COLS and
    whose column is not a column of the frame gets the warning about its
    column and nothing else, whatever its type.  A question that gets past
    that check is handed to the chart of its type when the type, in upper
    case, is one of BINARIA, CATEGORICA, MULTI, LIKERT, MULTI_COLS; the
    notice of an unsupported type is shown exactly for the questions that
    get past the check with a type outside these five.  Neither the warning
    nor the notice stops the questions that follow. *)
Theorem report_dispatch
  (U : Unicode) (F : PyFloat) (cfg : Config) (df_filt : Frame) (q : Question) :
  let qtype := str_upper (q_type q) in
  let label := get (q_label q) [] in
  let col := get (q_column q) [] in
  let top_k := get (top_k_categories cfg) 10%Z in
  (column_checked df_filt q = false ->
   main_question cfg df_filt q =
   ([Warning (u "La columna no existe en los datos: "
                ++ match q_column q with Some c => c | None => u "None" end)], None)) /\
  (column_checked df_filt q = true ->
   (qtype = u "BINARIA" ->
    main_question cfg df_filt q = show_question label (chart_binary df_filt col label)) /\
   (qtype = u "CATEGORICA" ->
    main_question cfg df_filt q
    = show_question label (chart_categorical df_filt col label top_k)) /\
   (qtype = u "MULTI" ->
    main_question cfg df_filt q = show_question label (chart_multi df_filt col label top_k)) /\
   (qtype = u "LIKERT" ->
    main_question cfg df_filt q = show_question label (chart_likert df_filt col label)) /\
   (qtype = u "MULTI_COLS" ->
    main_question cfg df_filt q
    = show_question label
        (chart_multi_from_cols df_filt (get (q_columns q) []) label top_k)) /\
   (~ In qtype SUPPORTED_TYPES ->
    main_question cfg df_filt q
    = ([Markdown (u "### " ++ label); unsupported_notice qtype], None))) /\
  (In (unsupported_notice qtype) (fst (main_question cfg df_filt q)) <->
   column_checked df_filt q = true /\ ~ In qtype SUPPORTED_TYPES) /\
  (forall rest,
      column_checked df_filt q = false \/ ~ In qtype SUPPORTED_TYPES ->
      in_sequence (map (main_question cfg df_filt) (q :: rest))
      = (fst (main_question cfg df_filt q)
           ++ fst (in_sequence (map (main_question cfg df_filt) rest)),
         snd (in_sequence (map (main_question cfg df_filt) rest)))).
Proof.
  intros qtype label col top_k.
  destruct (dispatch_cases cfg df_filt q qtype label)
    as (Hbin & Hcat & Hmul & Hlik & Hcols & Hother).
  fold col in Hbin, Hcat, Hmul, Hlik. fold top_k in Hcat, Hmul, Hcols.
  assert (Hmain : main_question cfg df_filt q =
            if column_checked df_filt q
            then show_question label (dispatch cfg df_filt q qtype label)
            else ([Warning (u "La columna no existe en los datos: "
                              ++ match q_column q with Some c => c | None => u "None" end)],
                  None)).
  { unfold main_question, column_checked. fold qtype. fold label.
    destruct (negb (ustr_eqb qtype (u "MULTI_COLS")) && column_missing df_filt (q_column q));
      [reflexivity|].
    cbn [negb]. unfold show_question. now destruct (dispatch cfg df_filt q qtype label). }
  assert (Hwarn : column_checked df_filt q = false ->
            main_question cfg df_filt q =
            ([Warning (u "La columna no existe en los datos: "
                         ++ match q_column q with Some c => c | None => u "None" end)],
             None))
    by (intros Hc; rewrite Hmain, Hc; reflexivity).
  assert (Hnotice : column_checked df_filt q = true -> ~ In qtype SUPPORTED_TYPES ->
            main_question cfg df_filt q
            = ([Markdown (u "### " ++ label); unsupported_notice qtype], None))
    by (intros Hc Hno; rewrite Hmain, Hc, (Hother Hno); reflexivity).
  split; [exact Hwarn|]. split; [|split].
  - intros Hc. rewrite Hmain, Hc.
    repeat split; intros H;
      [rewrite (Hbin H) | rewrite (Hcat H) | rewrite (Hmul H) | rewrite (Hlik H)
       | rewrite (Hcols H) | rewrite (Hother H)]; reflexivity.
  - split.
    + intros Hin. destruct (column_checked df_filt q) eqn:Hc.
      * split; [reflexivity|]. intros Hsup. rewrite Hmain in Hin.
        revert Hin. apply show_question_no_notice. intros evs.
        cbn [SUPPORTED_TYPES In] in Hsup.
        destruct Hsup as [H|[H|[H|[H|[H|[]]]]]]; symmetry in H.
        -- rewrite (Hbin H). apply chart_binary_no_notice.
        -- rewrite (Hcat H). apply chart_categorical_no_notice.
        -- rewrite (Hmul H). apply chart_multi_no_notice.
        -- rewrite (Hlik H). apply chart_likert_no_notice.
        -- rewrite (Hcols H). apply chart_multi_from_cols_no_notice.
      * rewrite (Hwarn eq_refl) in Hin. cbn [fst In] in Hin.
        destruct Hin as [Hin|[]]. discriminate Hin.
    + intros [Hc Hno]. rewrite (Hnotice Hc Hno). cbn [fst In]. auto.
  - intros rest Hcase. cbn [map]. apply in_sequence_cons.
    destruct Hcase as [Hc|Hno].
    + now rewrite (Hwarn Hc).
    + destruct (column_checked df_filt q) eqn:Hc.
      * now rewrite (Hnotice eq_refl Hno).
      * now rewrite (Hwarn eq_refl).
Qed.

(** C8 as stated fails: the first question has a type outside the five and
    no column, and gets the warning about the column, not the notice of an
    unsupported type; the second has type BINARIA and a column that the
    frame has not, and is not handed to the binary chart. *)
Lemma report_dispatch_counterexample :
  let cfg := {| questions := []; top_k_categories := None |} in
  let df := {| columns := [u "P"]; rows := [[Text (u "si")]] |} in
  let q1 := {| q_type := u "otro"; q_label := Some (u "L"); q_column := None;
               q_columns := None; q_section := Some (u "A") |} in
  let q2 := {| q_type := u "binaria"; q_label := Some (u "L"); q_column := Some (u "Q");
               q_columns := None; q_section := Some (u "A") |} in
  main_question (U := latin) (F := @binary64 latin) cfg df q1
  = ([Warning (u "La columna no existe en los datos: None")], None) /\
  main_question (U := latin) (F := @binary64 latin) cfg df q2
  = ([Warning (u "La columna no existe en los datos: Q")], None).
Proof. vm_compute. split; reflexivity. Qed.

(* ================================================================= *)
(** ** The theorems on concrete inputs *)

(** An uploaded file of 60 rows with the header in row 2. *)
Lemma header_locator_first_match_witness :
  let src :=
    {| csv_kind := FileObject;
       csv_fields :=
         [ [u "Encuesta de egresados"; u ""; u ""]; [u ""; u ""; u ""];
           [u "Programa"; u "Año Egreso"; u "¿Trabaja?"] ]
           ++ repeat [u "Sistemas"; u "2020"; u "si"] 57;
       csv_default := {| columns := []; rows := [] |} |} in
  length (read_csv_raw src) = 60 /\
  header_row_idx (U := latin) (read_csv_raw src) = Some 2 /\
  exists df,
    load_data_with_header_detection (U := latin) src = Ok df /\
    length (rows df) = 57.
Proof.
  intros src. split; [reflexivity|].
  destruct (header_locator_first_match latin src) as (_ & _ & _ & _ & _ & H).
  apply H.
  - reflexivity.
  - eexists. split; [reflexivity | vm_compute; reflexivity].
  - intros [|[|j]] r Hj Hr; [| |lia]; injection Hr as <-; vm_compute; reflexivity.
Defined.

Lemma binary_labels_and_total_witness :
  let vals :=
    [ Text (u " Si "); Text (u "no"); Missing; Text (u "SÍ"); Text (u "sin empleo");
      Text (u "Norte"); Text (u "10"); Text (u "X") ] in
  let df := {| columns := [u "¿Trabaja?"]; rows := map (fun v => [v]) vals |} in
  getitem_str df (u "¿Trabaja?") = Ok vals /\
  length (map (strip (U := latin)) (texts vals)) = length (texts vals) /\
  chart_binary (U := latin) df (u "¿Trabaja?") (u "")
  = Ok [AltairChart (u "Respuesta", u "Conteo")
          [ (LStr (u "Sí"), 3); (LStr (u "No"), 1); (LStr (u "sin empleo"), 1);
            (LStr (u "Norte"), 1); (LStr (u "10"), 1) ]] /\
  is_alternative (U := latin) YES_ALTERNATIVES (u "SÍ") /\
  ~ is_alternative (U := latin) YES_ALTERNATIVES (u "sin empleo") /\
  ~ is_alternative (U := latin) NO_ALTERNATIVES (u "Norte") /\
  binary_label (U := latin) (u "sin empleo") = u "sin empleo".
Proof.
  intros vals df.
  assert (Hget : getitem_str df (u "¿Trabaja?") = Ok vals) by reflexivity.
  destruct (binary_labels_and_total latin df (u "¿Trabaja?") (u "") vals Hget)
    as (_ & _ & _ & Hlen & Hmatch & Htrimmed).
  specialize (Htrimmed eq_refl).
  assert (Hyes : ~ is_alternative (U := latin) YES_ALTERNATIVES (u "sin empleo")).
  { intros H. apply (or_introl (B := exists w, u "sin empleo" = w ++ [LF]
        /\ is_alternative (U := latin) YES_ALTERNATIVES w)) in H.
    apply Hmatch in H. vm_compute in H. discriminate. }
  assert (Hno : ~ is_alternative (U := latin) NO_ALTERNATIVES (u "sin empleo")).
  { intros H. apply (or_introl (B := exists w, u "sin empleo" = w ++ [LF]
        /\ is_alternative (U := latin) NO_ALTERNATIVES w)) in H.
    apply Hmatch in H. vm_compute in H. discriminate. }
  split; [exact Hget|]. split; [exact Hlen|]. split; [vm_compute; reflexivity|].
  split; [|split; [exact Hyes|split]].
  - destruct (Htrimmed (u "SÍ")) as (Hwhole & _);
      [vm_compute; do 2 right; left; reflexivity|].
    apply Hwhole, Hmatch. vm_compute. reflexivity.
  - intros H. apply (or_introl (B := exists w, u "Norte" = w ++ [LF]
        /\ is_alternative (U := latin) NO_ALTERNATIVES w)) in H.
    apply Hmatch in H. vm_compute in H. discriminate.
  - destruct (Htrimmed (u "sin empleo")) as (_ & _ & _ & Hsame);
      [vm_compute; do 3 right; left; reflexivity|].
    exact (Hsame Hyes Hno).
Defined.

Lemma likert_distribution_witness :
  let df :=
    {| columns := [u "Nota"];
       rows := [ [Text (u "4")]; [Text (u "4,6")]; [Text (u "n/a")];
                 [Missing]; [Text (u "7")] ] |} in
  let vals := [Text (u "4"); Text (u "4,6"); Text (u "n/a"); Missing; Text (u "7")] in
  getitem df (u "Nota") = Ok (PdSeries vals) /\
  round_all (parse_all (F := @binary64 latin) (texts vals)) = Ok [4; 5; 7]%Z /\
  chart_likert (F := @binary64 latin) df (u "Nota") (u "") =
  Ok [ AltairChart (u "Valor", u "Conteo")
         [ (LInt 1, count_Z 1 [4; 5; 7]%Z); (LInt 2, count_Z 2 [4; 5; 7]%Z);
           (LInt 3, count_Z 3 [4; 5; 7]%Z); (LInt 4, count_Z 4 [4; 5; 7]%Z);
           (LInt 5, count_Z 5 [4; 5; 7]%Z) ];
       Caption (u "Promedio: "
                  ++ @format_2f (@binary64 latin)
                       (series_mean (parse_all (F := @binary64 latin) (texts vals)))) ] /\
  @format_2f (@binary64 latin)
                       (series_mean (parse_all (F := @binary64 latin) (texts vals))) = u "5.20".
Proof.
  intros df vals.
  assert (Hget : getitem df (u "Nota") = Ok (PdSeries vals)) by reflexivity.
  assert (Hround : round_all (parse_all (F := @binary64 latin) (texts vals))
                   = Ok [4; 5; 7]%Z) by (vm_compute; reflexivity).
  split; [exact Hget|]. split; [exact Hround|]. split; [|vm_compute; reflexivity].
  destruct (likert_distribution latin (@binary64 latin) df (u "Nota") (u "") vals Hget)
    as (_ & _ & _ & _ & H).
  apply (H [4; 5; 7]%Z); [|exact Hround].
  vm_compute. discriminate.
Defined.


Lemma filter_engine_keeps_witness :
  let df :=
    {| columns := [u "Programa"; u "Año Egreso"];
       rows := [ [Text (u "Sistemas"); Text (u "2019-2020")];
                 [Text (u "Sistemas"); Text (u "2018")];
                 [Text (u "Industrial"); Text (u "2020")];
                 [Text (u " Sistemas "); Text (u "2020 ")];
                 [Missing; Text (u "2020")] ] |} in
  let ui :=
    {| sidebar_programa := fun options => nth 2 options (hd [] options);
       sidebar_year := fun options => nth 3 options (hd [] options) |} in
  picks_option (sidebar_programa ui) /\
  picks_option (sidebar_year ui) /\
  get_program_year_filters (U := latin) ui df =
  Ok ({| columns := columns df;
         rows := filter (fun r => keeps (U := latin) (u "Sistemas") (u "2020")
                                    (nth 0 r Missing) (nth 1 r Missing))
                        (rows df) |},
      u "Sistemas", u "2020") /\
  filter (fun r => keeps (U := latin) (u "Sistemas") (u "2020")
                     (nth 0 r Missing) (nth 1 r Missing))
         (rows df)
  = [ [Text (u "Sistemas"); Text (u "2019-2020")];
      [Text (u " Sistemas "); Text (u "2020 ")] ].
Proof.
  intros df ui.
  assert (Hpick : forall n, picks_option (fun options => nth n options (hd [] options))).
  { intros n options Hne. destruct (Nat.lt_ge_cases n (length options)) as [Hlt|Hge].
    - now apply nth_In.
    - rewrite nth_overflow by exact Hge.
      destruct options; [contradiction | now left]. }
  split; [apply Hpick|]. split; [apply Hpick|]. split; [|vm_compute; reflexivity].
  apply (filter_engine_keeps latin ui df (u "Programa") (u "Año Egreso") 0 1);
    [apply Hpick | apply Hpick | vm_compute; reflexivity | reflexivity | reflexivity].
Defined.

Lemma plain_check (s : ustr) :
  forallb (fun c => Latin.in_tables c && negb (Latin.is_Mn c)) s = true ->
  Forall plain s.
Proof.
  intros H. apply Forall_forall. intros c Hc.
  rewrite forallb_forall in H. specialize (H c Hc).
  apply andb_true_iff in H as [H1 H2]. apply negb_true_iff in H2. now split.
Defined.

Lemma norm_second_pass_only_trims_witness :
  let s := u "  Año   de Egreso " in
  Forall plain s /\
  norm (U := latin) (Text s) = u "ano de egreso" /\
  norm (U := latin) (Text (norm (U := latin) (Text s))) = norm (U := latin) (Text s).
Proof.
  intros s.
  assert (Hs : Forall plain s) by (apply plain_check; vm_compute; reflexivity).
  split; [exact Hs|]. split; [vm_compute; reflexivity|].
  destruct norm_second_pass_only_trims as (_ & _ & _ & H). exact (H s Hs).
Defined.

(* ================================================================= *)
(** * Further properties *)

(** ** Trimming, for every character database *)

Section StripFacts.
Context {U : Unicode}.

Lemma dropwhile_all (P : cp -> Prop) (f : cp -> bool) (s : ustr) :
  Forall P s -> Forall P (dropwhile f s).
Proof.
  induction 1 as [|c s Hc Hs IH]; simpl; [constructor|].
  destruct (f c); auto.
Qed.

Lemma strip_all (P : cp -> Prop) (s : ustr) :
  Forall P s -> Forall P (strip s).
Proof.
  intros H. unfold strip, rstrip, lstrip.
  apply Forall_rev, dropwhile_all, Forall_rev, dropwhile_all, H.
Qed.

Lemma dropwhile_clean (s : ustr) :
  is_nil (dropwhile isspace s) || starts_clean (dropwhile isspace s) = true.
Proof.
  induction s as [|c t IH]; [reflexivity|]. cbn [dropwhile].
  destruct (isspace c) eqn:E; [assumption|]. cbn [is_nil orb starts_clean].
  now rewrite E.
Qed.

Lemma strip_clean_ends (s : ustr) : clean_ends (strip s) = true.
Proof.
  unfold strip, rstrip, lstrip, clean_ends.
  pose proof (dropwhile_clean s) as H.
  destruct (dropwhile isspace s) as [|c t]; [reflexivity|].
  cbn [is_nil orb starts_clean] in H. apply negb_true_iff in H.
  pose proof (dropwhile_clean (rev (c :: t))) as H'.
  set (D := dropwhile isspace (rev (c :: t))) in *.
  assert (HD : D = dropwhile isspace (rev t) ++ [c])
    by (subst D; cbn [rev]; now apply dropwhile_last).
  assert (HR : rev D = c :: rev (dropwhile isspace (rev t)))
    by (rewrite HD, rev_app_distr; reflexivity).
  rewrite rev_involutive, HR. cbn [is_nil orb starts_clean].
  rewrite H. cbn [negb andb].
  rewrite HD in H' |- *.
  destruct (dropwhile isspace (rev t)); exact H'.
Qed.

Lemma clean_ends_strip (s : ustr) : clean_ends s = true -> strip s = s.
Proof.
  unfold clean_ends, strip, rstrip, lstrip.
  destruct s as [|c t]; [reflexivity|]. cbn [is_nil orb starts_clean].
  intros H. apply andb_true_iff in H as [H1 H2].
  apply negb_true_iff in H1. cbn [dropwhile]. rewrite H1.
  destruct (rev (c :: t)) as [|e r] eqn:E; [simpl in H2; discriminate|].
  cbn [starts_clean] in H2. apply negb_true_iff in H2.
  cbn [dropwhile]. rewrite H2, <- E. apply rev_involutive.
Qed.

(** Trimming twice is trimming once. *)
Lemma strip_idempotent (s : ustr) : strip (strip s) = strip s.
Proof. apply clean_ends_strip, strip_clean_ends. Qed.

Lemma replace_no_nbsp (s : ustr) :
  Forall (fun c => c <> NBSP) (replace_cp NBSP SP s).
Proof.
  unfold replace_cp. induction s as [|c s IH]; cbn [map]; constructor;
    [|assumption].
  destruct (c =? NBSP)%N eqn:E; [discriminate | now apply N.eqb_neq].
Qed.

Lemma replace_fixed (s : ustr) :
  Forall (fun c => c <> NBSP) s -> replace_cp NBSP SP s = s.
Proof.
  unfold replace_cp. induction 1 as [|c s Hc Hs IH]; cbn [map]; [reflexivity|].
  apply N.eqb_neq in Hc. now rewrite Hc, IH.
Qed.

(** Cleaning a header name twice is cleaning it once. *)
Lemma clean_header_idempotent (h : ustr) :
  clean_header (clean_header h) = clean_header h.
Proof.
  unfold clean_header.
  rewrite (replace_fixed (strip (replace_cp NBSP SP h)))
    by (apply strip_all, replace_no_nbsp).
  apply strip_idempotent.
Qed.

(** A header name and its cleaned form have the same normal form. *)
Lemma norm_clean_header (h : ustr) :
  norm (Text (clean_header h)) = norm (Text h).
Proof.
  unfold norm. fold (clean_header (clean_header h)). fold (clean_header h).
  now rewrite clean_header_idempotent.
Qed.

End StripFacts.

(* ================================================================= *)
(** ** The shape of a normal form *)

Section NormShape.
Context {U : Unicode}.

Lemma sub_ws_all (P : cp -> Prop) (b : bool) (w : ustr) :
  P SP -> Forall P w -> Forall P (sub_ws b w).
Proof.
  intros HP H. revert b. induction H as [|c w Hc Hw IH]; intros b; cbn [sub_ws].
  - constructor.
  - destruct (isspace c); [destruct b|]; auto.
Qed.

Lemma sub_ws_single_spaced (b : bool) (w : ustr) :
  isspace SP = true -> single_spaced b (sub_ws b w) = true.
Proof.
  intros HSP. revert b. induction w as [|c w IH]; intros b; cbn [sub_ws].
  - reflexivity.
  - destruct (isspace c) eqn:E.
    + destruct b; [apply IH|]. cbn [single_spaced]. rewrite HSP.
      cbn [negb andb]. rewrite N.eqb_refl. apply IH.
    + cbn [single_spaced]. rewrite E. apply IH.
Qed.

Lemma single_spaced_only_sp (b : bool) (s : ustr) :
  single_spaced b s = true -> Forall (fun c => isspace c = true -> c = SP) s.
Proof.
  revert b. induction s as [|c t IH]; intros b; cbn [single_spaced]; [constructor|].
  destruct (isspace c) eqn:E; intros H.
  - apply andb_true_iff in H as [H1 H2]. apply andb_true_iff in H1 as [_ Hc].
    apply N.eqb_eq in Hc. constructor; [auto | now apply (IH true)].
  - constructor; [congruence | now apply (IH false)].
Qed.

Lemma single_spaced_no_pair (p : bool) (s s1 s2 : ustr) (a b : cp) :
  single_spaced p s = true -> s = s1 ++ a :: b :: s2 ->
  isspace a && isspace b = false.
Proof.
  revert p s. induction s1 as [|c s1 IH]; intros p s H ->.
  - cbn [app single_spaced] in H.
    destruct (isspace a) eqn:Ea; [|reflexivity].
    destruct (isspace b) eqn:Eb; [|reflexivity].
    apply andb_true_iff in H as [_ H]. cbn [negb andb] in H. discriminate.
  - cbn [app single_spaced] in H. destruct (isspace c).
    + apply andb_true_iff in H as [_ H]. now apply (IH true _ H).
    + now apply (IH false _ H).
Qed.

End NormShape.

(** X1.  What the docstring of [norm] promises, "sin acentos, sin dobles
    espacios": the normal form of any value holds no nonspacing mark, its
    only white space is the plain space, and no two white-space characters
    follow each other.  (The character database is any in which the space
    is white space and no mark.) *)
Theorem norm_no_marks_single_spaces (U : Unicode) (v : cell) :
  isspace SP = true -> is_Mn SP = false ->
  Forall (fun c => is_Mn c = false) (norm v) /\
  Forall (fun c => isspace c = true -> c = SP) (norm v) /\
  (forall s1 a b s2,
      norm v = s1 ++ a :: b :: s2 -> isspace a && isspace b = false).
Proof.
  intros HSP HMn.
  assert (Hss : single_spaced false (norm v) = true).
  { destruct v as [|s]; [reflexivity|]. now apply sub_ws_single_spaced. }
  split; [|split].
  - destruct v as [|s]; [constructor|]. unfold norm.
    apply sub_ws_all; [assumption|].
    apply Forall_forall. intros c Hc. apply filter_In in Hc as [_ Hc].
    now apply negb_true_iff in Hc.
  - now apply (single_spaced_only_sp false).
  - intros s1 a b s2 Hs. now apply (single_spaced_no_pair false (norm v) s1 s2).
Qed.

Lemma norm_no_marks_single_spaces_witness :
  isspace (Unicode := latin) SP = true /\ is_Mn (Unicode := latin) SP = false /\
  Forall (fun c => is_Mn (Unicode := latin) c = false)
         (norm (U := latin) (Text (u "  Programa   Académico "))).
Proof.
  split; [reflexivity|]. split; [reflexivity|].
  apply (norm_no_marks_single_spaces latin); reflexivity.
Defined.

(* ================================================================= *)
(** ** From the header row to the filter columns *)

(** X2.  When the loader finds the header row, it returns a frame and the
    classifier finds both filter columns in it: the error of the missing
    columns can only come up on the fall-back path. *)
Theorem header_found_columns_found (U : Unicode) (src : CsvSource) (idx : nat) :
  header_row_idx (read_csv_raw src) = Some idx ->
  exists df prog_col year_col,
    load_data_with_header_detection src = Ok df /\
    detect_program_year_columns df = Ok (prog_col, year_col) /\
    In prog_col (columns df) /\
    In year_col (columns df).
Proof.
  intros Hidx.
  assert (Hload := load_header_found src idx Hidx).
  set (df := {| columns := _; rows := _ |}) in Hload.
  assert (Hcols : columns df
                  = map (fun h => clean_header (py_str h)) (nth idx (read_csv_raw src) []))
    by reflexivity.
  apply header_row_idx_spec in Hidx as (_ & (row & Hrow & Hhead) & _).
  assert (Hin : In row (read_csv_raw src)) by (eapply nth_error_In; eassumption).
  rewrite (nth_error_nth _ _ [] Hrow) in Hcols.
  assert (Hfind : forall patterns,
             existsb (contains_any patterns) (map norm row) = true ->
             exists c, first_matching patterns (columns df) = Some c).
  { intros patterns Hex. unfold first_matching.
    destruct (find _ _) as [c|] eqn:Hf; [now exists c|]. exfalso.
    apply existsb_exists in Hex as (n & Hn & Hp).
    apply in_map_iff in Hn as (v & <- & Hv).
    assert (Htext := read_csv_raw_text src row v Hin Hv).
    destruct v as [|s]; [discriminate|].
    assert (Hc : In (clean_header s) (columns df)).
    { rewrite Hcols. apply in_map_iff. exists (Text s). auto. }
    pose proof (find_none _ _ Hf _ Hc) as Hno. cbv beta in Hno.
    rewrite norm_clean_header in Hno. congruence. }
  unfold is_header_row in Hhead. cbv zeta in Hhead.
  apply andb_true_iff in Hhead as [Hp Hy].
  destruct (Hfind _ Hp) as [p Hfp]. destruct (Hfind _ Hy) as [y Hfy].
  exists df, p, y. split; [exact Hload|].
  unfold detect_program_year_columns. rewrite detect_fold, Hfp, Hfy.
  repeat split.
  - unfold first_matching in Hfp. now apply find_some in Hfp.
  - unfold first_matching in Hfy. now apply find_some in Hfy.
Qed.

Lemma header_found_columns_found_witness :
  let src :=
    {| csv_kind := FileObject;
       csv_fields :=
         [ [u "Encuesta"; u ""; u ""];
           [u " PROGRAMA  académico "; u "Año de  Egreso"; u "Q"];
           [u "Sistemas"; u "2020"; u "x"] ];
       csv_default := {| columns := []; rows := [] |} |} in
  header_row_idx (U := latin) (read_csv_raw src) = Some 1 /\
  exists df prog_col year_col,
    load_data_with_header_detection (U := latin) src = Ok df /\
    detect_program_year_columns (U := latin) df = Ok (prog_col, year_col) /\
    In prog_col (columns df) /\
    In year_col (columns df).
Proof.
  intros src.
  assert (H : header_row_idx (U := latin) (read_csv_raw src) = Some 1)
    by (vm_compute; reflexivity).
  split; [exact H|]. exact (header_found_columns_found latin src 1 H).
Defined.


(* ================================================================= *)
(** ** Multiple answers *)

Section MultiFacts.
Context {U : Unicode}.

Lemma re_split_parts (part s : ustr) :
  Forall (fun c => is_delimiter c = false) part ->
  Forall (Forall (fun c => is_delimiter c = false)) (re_split part s).
Proof.
  revert part. induction s as [|c s IH]; intros part Hpart; cbn [re_split].
  - constructor; [now apply Forall_rev | constructor].
  - fold (is_delimiter c). destruct (is_delimiter c) eqn:E.
    + constructor; [now apply Forall_rev | apply IH; constructor].
    + apply IH. now constructor.
Qed.

Lemma re_split_whole (part s : ustr) :
  Forall (fun c => is_delimiter c = false) s ->
  re_split part s = [rev part ++ s].
Proof.
  intros H. revert part. induction H as [|c s Hc Hs IH]; intros part; cbn [re_split].
  - now rewrite app_nil_r.
  - fold (is_delimiter c). rewrite Hc, IH. cbn [rev]. now rewrite <- app_assoc.
Qed.

Lemma tokens_of_value (val t : ustr) :
  In t (filter nonempty (map strip (re_split [] val))) ->
  t <> [] /\ Forall (fun c => is_delimiter c = false) t /\ strip t = t.
Proof.
  intros H. apply filter_In in H as [H Hne].
  apply in_map_iff in H as (part & <- & Hpart).
  split; [|split].
  - intros E. rewrite E in Hne. discriminate.
  - apply strip_all.
    pose proof (re_split_parts [] val (Forall_nil _)) as Hall.
    rewrite Forall_forall in Hall. now apply Hall.
  - apply strip_idempotent.
Qed.

End MultiFacts.

(** X3.  Every token that [split_multi_values] gives is not empty, holds
    none of the characters [;], [,], [/] and has no white space at either
    end.  Of a series whose values hold none of these characters, the
    tokens are the trimmed values that are not empty, in their order. *)
Theorem split_multi_values_tokens (U : Unicode) (col : ustr) (series : selection) :
  (forall t, In t (split_multi_values col series) ->
             t <> [] /\ Forall (fun c => is_delimiter c = false) t /\ strip t = t) /\
  (forall vals,
      series = PdSeries vals ->
      Forall (Forall (fun c => is_delimiter c = false)) (texts vals) ->
      split_multi_values col series = filter nonempty (map strip (texts vals))).
Proof.
  split.
  - intros t H. unfold split_multi_values in H.
    apply in_flat_map in H as (val & _ & H). now apply (tokens_of_value val).
  - intros vals -> H. unfold split_multi_values. cbn [iterate_dropna].
    induction H as [|v l Hv Hl IH]; [reflexivity|].
    cbn [flat_map map filter]. rewrite IH, (re_split_whole [] v Hv).
    cbn [rev app map filter]. unfold nonempty at 2.
    destruct (negb (is_empty (strip v))); reflexivity.
Qed.

Lemma split_multi_values_tokens_witness :
  let series := PdSeries [Text (u "a;b, c /d"); Missing; Text (u " ; ,")] in
  split_multi_values (U := latin) (u "Q") series = [u "a"; u "b"; u "c"; u "d"] /\
  (forall t, In t (split_multi_values (U := latin) (u "Q") series) ->
             t <> [] /\ Forall (fun c => is_delimiter c = false) t
             /\ strip (U := latin) t = t).
Proof.
  intros series. split; [vm_compute; reflexivity|].
  exact (proj1 (split_multi_values_tokens latin (u "Q") series)).
Defined.

(* ================================================================= *)
(** ** More on Likert answers *)

Section LikertMore.
Context {F : PyFloat}.

Lemma replace_cp_twice (a b : cp) (s : ustr) :
  a <> b -> replace_cp a b (replace_cp a b s) = replace_cp a b s.
Proof.
  intros Hab. unfold replace_cp. rewrite map_map. apply map_ext. intros c.
  destruct (c =? a)%N eqn:E; [|now rewrite E].
  destruct (b =? a)%N eqn:E'; [|reflexivity].
  apply N.eqb_eq in E'. congruence.
Qed.

Lemma parse_all_decimal_points (vals : list cell) :
  parse_all (texts (map decimal_points vals)) = parse_all (texts vals).
Proof.
  induction vals as [|[|s] vals IH]; [reflexivity | exact IH |].
  cbn [map decimal_points texts parse_all].
  rewrite replace_cp_twice by discriminate. now rewrite IH.
Qed.

Lemma texts_decimal_points_nil (vals : list cell) :
  is_nil (texts (map decimal_points vals)) = is_nil (texts vals).
Proof.
  induction vals as [|[|s] vals IH]; [reflexivity | exact IH | reflexivity].
Qed.

Lemma round_all_fails (l : list pyfloat) (x : pyfloat) :
  In x l -> round_astype_int x = None -> round_all l = Raise IntCastingNaNError.
Proof.
  induction l as [|y l IH]; [contradiction|]. intros [->|Hin] Hx; cbn [round_all].
  - now rewrite Hx.
  - destruct (round_astype_int y); [|reflexivity]. now rewrite (IH Hin Hx).
Qed.

End LikertMore.

(** X4.  A LIKERT column reads a decimal comma as a decimal point: writing
    the commas of the column as points changes nothing of what
    [chart_likert] shows. *)
Theorem likert_decimal_comma
  (F : PyFloat) (df df' : Frame) (col label : ustr) (vals : list cell) :
  getitem df col = Ok (PdSeries vals) ->
  getitem df' col = Ok (PdSeries (map decimal_points vals)) ->
  chart_likert df' col label = chart_likert df col label.
Proof.
  intros H H'.
  rewrite (chart_likert_unfold df col label vals H).
  rewrite (chart_likert_unfold df' col label _ H').
  now rewrite texts_decimal_points_nil, parse_all_decimal_points.
Qed.

Lemma likert_decimal_comma_witness :
  let df := {| columns := [u "Nota"]; rows := [[Text (u "4,5")]; [Text (u "3")]] |} in
  let df' := {| columns := [u "Nota"]; rows := [[Text (u "4.5")]; [Text (u "3")]] |} in
  chart_likert (F := @binary64 latin) df' (u "Nota") (u "")
  = chart_likert (F := @binary64 latin) df (u "Nota") (u "").
Proof.
  intros df df'.
  apply (likert_decimal_comma (@binary64 latin) df df' (u "Nota") (u "")
           [Text (u "4,5"); Text (u "3")]); reflexivity.
Defined.


Lemma positions_from_In (name : ustr) (cols : list ustr) (k i : nat) :
  In i (positions_from k name cols) -> In name cols.
Proof.
  revert k; induction cols as [|c cols IH]; intros k; cbn [positions_from]; [tauto|].
  destruct (ustr_eqb c name) eqn:E.
  - intros _. left. now apply ustr_eqb_eq.
  - intros H. right. now apply (IH (S k)).
Qed.

Lemma getitem_In (df : Frame) (col : ustr) (sel : selection) :
  getitem df col = Ok sel -> In col (columns df).
Proof.
  unfold getitem.
  destruct (positions_from 0 col (columns df)) as [|i ps] eqn:E; [discriminate|].
  intros _. apply (positions_from_In col (columns df) 0 i). rewrite E. now left.
Qed.

(** X5.  A value of a LIKERT column that is read as a number but is not
    finite (as "nan" and "inf" are) makes [chart_likert] raise, the error
    of the conversion to integers not being caught: of such a question the
    report shows the heading and stops there, and the questions after it
    are not shown. *)
Theorem likert_not_finite_stops_report
  (U : Unicode) (F : PyFloat) (cfg : Config) (df : Frame) (q : Question)
  (col : ustr) (vals : list cell) (x : pyfloat) :
  str_upper (q_type q) = u "LIKERT" ->
  q_column q = Some col ->
  col <> [] ->
  getitem df col = Ok (PdSeries vals) ->
  In x (parse_all (texts vals)) ->
  round_astype_int x = None ->
  chart_likert df col (get (q_label q) []) = Raise IntCastingNaNError /\
  forall rest,
    in_sequence (map (main_question cfg df) (q :: rest))
    = ([Markdown (u "### " ++ get (q_label q) [])], Some IntCastingNaNError).
Proof.
  intros Htype Hcol Hne Hget Hx Hround.
  assert (Hchart : chart_likert df col (get (q_label q) []) = Raise IntCastingNaNError).
  { rewrite (chart_likert_unfold df col _ vals Hget).
    destruct (texts vals) as [|v l] eqn:Ev; [contradiction|]. cbn [is_nil].
    destruct (parse_all (v :: l)) as [|y ys] eqn:Ep; [contradiction|]. cbn [is_nil].
    now rewrite (round_all_fails _ x Hx Hround). }
  split; [exact Hchart|]. intros rest.
  assert (Hmain : main_question cfg df q
                  = ([Markdown (u "### " ++ get (q_label q) [])], Some IntCastingNaNError)).
  { unfold main_question. rewrite Htype, Hcol.
    replace (ustr_eqb (u "LIKERT") (u "MULTI_COLS")) with false
      by (vm_compute; reflexivity).
    cbn [negb andb column_missing].
    destruct col as [|c col']; [contradiction|]. cbn [is_empty orb].
    assert (Hmem : mem_ustr (c :: col') (columns df) = true)
      by (apply mem_ustr_In; eapply getitem_In; eassumption).
    rewrite Hmem. cbn [negb].
    destruct (dispatch_cases cfg df q (u "LIKERT") (get (q_label q) []))
      as (_ & _ & _ & Hlik & _).
    rewrite (Hlik eq_refl), Hcol. cbn [get]. now rewrite Hchart. }
  cbn [map in_sequence fold_right]. rewrite Hmain. reflexivity.
Qed.

Lemma likert_not_finite_stops_report_witness :
  let cfg := {| questions := []; top_k_categories := None |} in
  let df := {| columns := [u "Nota"]; rows := [[Text (u "4")]; [Text (u "nan")]] |} in
  let q := {| q_type := u "likert"; q_label := Some (u "Nota final");
              q_column := Some (u "Nota"); q_columns := None;
              q_section := Some (u "A") |} in
  chart_likert (F := @binary64 latin) df (u "Nota") (u "Nota final")
  = Raise IntCastingNaNError /\
  main_question (U := latin) (F := @binary64 latin) cfg df q
  = ([Markdown (u "### Nota final")], Some IntCastingNaNError).
Proof.
  intros cfg df q.
  destruct (likert_not_finite_stops_report latin (@binary64 latin) cfg df q (u "Nota")
              [Text (u "4"); Text (u "nan")] S754_nan) as [Hchart Hseq];
    try reflexivity.
  - discriminate.
  - vm_compute. right. left. reflexivity.
  - split; [exact Hchart|]. exact (Hseq []).
Defined.

(* ================================================================= *)
(** ** The sections of the report *)

Section SectionFacts.
Context {U : Unicode} {F : PyFloat}.

Lemma filter_filter_implied (A : Type) (f g : A -> bool) (l : list A) :
  (forall x, f x = true -> g x = true) ->
  filter f (filter g l) = filter f l.
Proof.
  intros H. induction l as [|x l IH]; [reflexivity|]. cbn [filter].
  destruct (g x) eqn:Eg; cbn [filter].
  - now rewrite IH.
  - destruct (f x) eqn:Ef; [|exact IH]. rewrite (H x Ef) in Eg. discriminate.
Qed.

Lemma main_section_in_report (cfg : Config) (df_filt : Frame) (sec : ustr) :
  In sec SECTIONS ->
  main_section
    {| questions := filter in_report (questions cfg);
       top_k_categories := top_k_categories cfg |} df_filt sec
  = main_section cfg df_filt sec.
Proof.
  intros Hsec. unfold main_section. cbn [questions].
  rewrite filter_filter_implied.
  - reflexivity.
  - intros q Hq. apply ustr_eqb_eq in Hq. unfold in_report. rewrite Hq.
    now apply mem_ustr_In.
Qed.

End SectionFacts.

(** X6.  The report goes through the sections A to E only: a question whose
    section, in upper case, is none of these five letters leaves no trace
    in the report, neither a chart nor a warning nor a notice.  A
    configuration without a question of the five sections gives an empty
    report body. *)
Theorem report_skips_other_sections
  (U : Unicode) (F : PyFloat) (cfg : Config) (df_filt : Frame) :
  main_sections cfg df_filt
  = main_sections
      {| questions := filter in_report (questions cfg);
         top_k_categories := top_k_categories cfg |} df_filt /\
  (Forall (fun q => in_report q = false) (questions cfg) ->
   main_sections cfg df_filt = ([], None)).
Proof.
  assert (Heq : main_sections cfg df_filt
                = main_sections
                    {| questions := filter in_report (questions cfg);
                       top_k_categories := top_k_categories cfg |} df_filt).
  { unfold main_sections. f_equal. apply map_ext_in. intros sec Hsec.
    symmetry. now apply main_section_in_report. }
  split; [exact Heq|]. intros Hall. rewrite Heq.
  assert (Hnil : forall l, Forall (fun q => in_report q = false) l ->
                           filter in_report l = []).
  { induction 1 as [|q l Hq Hl IH]; [reflexivity|]. cbn [filter]. now rewrite Hq. }
  rewrite (Hnil _ Hall). reflexivity.
Qed.

Lemma report_skips_other_sections_witness :
  let cfg :=
    {| questions :=
         [ {| q_type := u "binaria"; q_label := Some (u "L"); q_column := Some (u "P");
              q_columns := None; q_section := Some (u "F") |};
           {| q_type := u "otro"; q_label := None; q_column := None;
              q_columns := None; q_section := None |} ];
       top_k_categories := None |} in
  let df := {| columns := [u "P"]; rows := [[Text (u "si")]] |} in
  Forall (fun q => in_report (U := latin) q = false) (questions cfg) /\
  main_sections (U := latin) (F := @binary64 latin) cfg df = ([], None).
Proof.
  intros cfg df.
  assert (H : Forall (fun q => in_report (U := latin) q = false) (questions cfg))
    by (repeat constructor).
  split; [exact H|].
  exact (proj2 (report_skips_other_sections latin (@binary64 latin) cfg df) H).
Defined.


(* ================================================================= *)
(** ** More on the filters *)

Section SortedFacts.
Variable A : Type.
Variable leb : A -> A -> bool.
Hypothesis leb_total : forall a b, leb a b = true \/ leb b a = true.

Lemma insert_sorted_hd (x a : A) (l : list A) :
  leb a x = true -> HdRel (fun a b => leb a b = true) a l ->
  HdRel (fun a b => leb a b = true) a (insert_sorted leb x l).
Proof.
  intros Hax Hl. destruct l as [|y t]; cbn [insert_sorted].
  - now constructor.
  - destruct (leb x y); constructor; [assumption | now inversion Hl].
Qed.

Lemma insert_sorted_sorted (x : A) (l : list A) :
  Sorted (fun a b => leb a b = true) l ->
  Sorted (fun a b => leb a b = true) (insert_sorted leb x l).
Proof.
  induction 1 as [|y t Ht IH Hhd]; cbn [insert_sorted].
  - repeat constructor.
  - destruct (leb x y) eqn:E.
    + constructor; [now constructor | now constructor].
    + constructor; [exact IH|]. apply insert_sorted_hd; [|exact Hhd].
      destruct (leb_total x y) as [H|H]; [congruence | exact H].
Qed.

Lemma sort_sorted (l : list A) : Sorted (fun a b => leb a b = true) (sort leb l).
Proof.
  induction l as [|x t IH]; cbn [sort fold_right]; [constructor|].
  now apply insert_sorted_sorted.
Qed.

End SortedFacts.

Lemma ustr_leb_total (a b : ustr) : ustr_leb a b = true \/ ustr_leb b a = true.
Proof.
  revert b; induction a as [|x a IH]; intros [|y b]; cbn [ustr_leb]; auto.
  destruct (x <? y)%N eqn:E1, (y <? x)%N eqn:E2; auto.
Qed.

Lemma filter_not_nil (A : Type) (f : A -> bool) (l : list A) (x : A) :
  In x l -> f x = true -> filter f l <> [].
Proof.
  intros Hin Hf Hnil.
  assert (H : In x (filter f l)) by (apply filter_In; auto).
  rewrite Hnil in H. contradiction.
Qed.

Section FilterMore.
Context {U : Unicode}.

(** What [get_program_year_filters] returns when both filter columns are
    found under one name each. *)
Lemma filters_unfold (ui : Sidebar) (df : Frame) (prog_col year_col : ustr) (i j : nat) :
  detect_program_year_columns df = Ok (prog_col, year_col) ->
  positions_from 0 prog_col (columns df) = [i] ->
  positions_from 0 year_col (columns df) = [j] ->
  let programas := programas_of (map prog_value (column_at df i)) in
  let years := years_of (map year_value (column_at df j)) in
  let programa_sel := sidebar_programa ui (TODOS_LOS_PROGRAMAS :: programas) in
  let year_sel := sidebar_year ui (TODOS :: years) in
  get_program_year_filters ui df =
  Ok ({| columns := columns df;
         rows := filter (fun r => row_mask programa_sel year_sel
                                    (nth i r Missing) (nth j r Missing))
                        (rows df) |},
      programa_sel, year_sel).
Proof.
  intros Hdet Hi Hj. cbv zeta.
  unfold get_program_year_filters. rewrite Hdet. cbn [bind].
  unfold getitem_str, getitem. rewrite Hi, Hj. cbn [bind].
  set (p := sidebar_programa ui _). set (y := sidebar_year ui _).
  f_equal. f_equal. f_equal. f_equal.
  unfold column_at. rewrite !map_map.
  rewrite <- select_rows_map. f_equal. unfold row_mask.
  destruct (negb (ustr_eqb p TODOS_LOS_PROGRAMAS)), (negb (ustr_eqb y TODOS));
    rewrite ?zip_with_map; apply map_ext; intros r;
    rewrite ?andb_true_r; reflexivity.
Qed.

Lemma year_at_prefix (s y : ustr) : year_at s = Some y -> prefixb y s = true.
Proof.
  unfold year_at. destruct s as [|a [|b [|c [|d s]]]]; try discriminate.
  assert (H : prefixb [a; b; c; d] (a :: b :: c :: d :: s) = true)
    by (cbn [prefixb]; now rewrite !N.eqb_refl).
  repeat match goal with
         | |- (if ?t then _ else _) = _ -> _ => destruct t
         end; intros [= <-]; exact H.
Qed.

Lemma search_year_contains (val y : ustr) :
  search_year val = Some y -> contains y val = true.
Proof.
  induction val as [|c val IH].
  - discriminate.
  - cbn [search_year]. destruct (year_at (c :: val)) eqn:E.
    + intros [= <-]. apply year_at_prefix in E.
      destruct u0; cbn [contains]; now rewrite E.
    + intros H. destruct y; cbn [contains]; rewrite (IH H); apply orb_true_r.
Qed.

Lemma years_of_source (years_raw : list (option ustr)) (y : ustr) :
  In y (years_of years_raw) <->
  exists s, In (Some s) years_raw /\ search_year s = Some y.
Proof.
  unfold years_of, unique. rewrite sort_In, (uniq_In _ _ ustr_eqb_eq), In_somes.
  rewrite in_map_iff. split.
  - intros (s & Hs & Hin). apply In_somes in Hin. eauto.
  - intros (s & Hin & Hs). exists s. split; [assumption | now apply In_somes].
Qed.

End FilterMore.

(** X7.  No option of the two lists is offered in vain: with all years, a
    program of the list keeps at least one row, and with all programs, a
    year of the list keeps at least one row.  So the warning of a filter
    without answers needs a program and a year chosen together (or a file
    without rows). *)
Theorem offered_options_keep_rows
  (U : Unicode) (ui : Sidebar) (df : Frame) (prog_col year_col : ustr) (i j : nat) :
  detect_program_year_columns df = Ok (prog_col, year_col) ->
  positions_from 0 prog_col (columns df) = [i] ->
  positions_from 0 year_col (columns df) = [j] ->
  let programas := programas_of (map prog_value (column_at df i)) in
  let years := years_of (map year_value (column_at df j)) in
  let programa_sel := sidebar_programa ui (TODOS_LOS_PROGRAMAS :: programas) in
  let year_sel := sidebar_year ui (TODOS :: years) in
  exists df_filtrado,
    get_program_year_filters ui df = Ok (df_filtrado, programa_sel, year_sel) /\
    (In programa_sel programas -> year_sel = TODOS -> rows df_filtrado <> []) /\
    (programa_sel = TODOS_LOS_PROGRAMAS -> In year_sel years ->
     rows df_filtrado <> []).
Proof.
  intros Hdet Hi Hj programas years p y.
  eexists. split; [exact (filters_unfold ui df prog_col year_col i j Hdet Hi Hj)|].
  cbn [rows]. fold programas years. fold p y. split.
  - intros Hp Hy. subst programas. apply programas_of_In in Hp.
    apply in_map_iff in Hp as (v & Hv & Hin). unfold column_at in Hin.
    apply in_map_iff in Hin as (r & <- & Hr).
    apply (filter_not_nil _ _ _ r Hr). unfold row_mask. rewrite Hv, Hy.
    cbn [eq_sel]. rewrite !ustr_eqb_refl. cbn [negb].
    now destruct (negb (ustr_eqb p TODOS_LOS_PROGRAMAS)).
  - intros Hp Hy. subst years. apply years_of_source in Hy as (s & Hin & Hs).
    apply in_map_iff in Hin as (v & Hv & Hin). unfold column_at in Hin.
    apply in_map_iff in Hin as (r & <- & Hr).
    apply (filter_not_nil _ _ _ r Hr). unfold row_mask. rewrite Hv, Hp.
    rewrite ustr_eqb_refl. cbn [negb contains_sel andb].
    rewrite (search_year_contains s y Hs).
    now destruct (negb (ustr_eqb y TODOS)).
Qed.

Lemma offered_options_keep_rows_witness :
  let df :=
    {| columns := [u "Programa"; u "Año Egreso"];
       rows := [ [Text (u "Sistemas"); Text (u "2019-2020")];
                 [Text (u "Industrial"); Text (u "egresó en 2018")] ] |} in
  let ui :=
    {| sidebar_programa := fun options => hd [] options;
       sidebar_year := fun options => last options [] |} in
  get_program_year_filters (U := latin) ui df
  = Ok ({| columns := columns df;
           rows := [[Text (u "Sistemas"); Text (u "2019-2020")]] |},
        u "Todos los programas", u "2019") /\
  exists df_filtrado,
    get_program_year_filters (U := latin) ui df
    = Ok (df_filtrado, u "Todos los programas", u "2019") /\
    rows df_filtrado <> [].
Proof.
  intros df ui. split; [vm_compute; reflexivity|].
  destruct (offered_options_keep_rows latin ui df (u "Programa") (u "Año Egreso") 0 1)
    as (df_filtrado & Hget & _ & Hyear);
    [vm_compute; reflexivity | reflexivity | reflexivity |].
  exists df_filtrado. split; [exact Hget|].
  apply Hyear; [reflexivity|]. vm_compute. right. left. reflexivity.
Defined.


Lemma Sorted_impl (A : Type) (R R' : A -> A -> Prop) (l : list A) :
  (forall a b, R a b -> R' a b) -> Sorted R l -> Sorted R' l.
Proof.
  intros HR. induction 1 as [|a l Hl IH Hhd]; constructor; [exact IH|].
  destruct Hhd; constructor; auto.
Qed.

Section OptionLists.
Context {U : Unicode}.

Lemma search_year_at (val y : ustr) :
  search_year val = Some y -> exists t, year_at t = Some y.
Proof.
  induction val as [|c val IH].
  - discriminate.
  - cbn [search_year]. destruct (year_at (c :: val)) eqn:E.
    + intros [= <-]. now exists (c :: val).
    + exact IH.
Qed.

Hypothesis digit_le_9 : forall c d, digit_value c = Some d -> (d <= 9)%N.
Hypothesis digit_0 : digit_value 48%N = Some 0%N.
Hypothesis digit_1 : digit_value 49%N = Some 1%N.
Hypothesis digit_2 : digit_value 50%N = Some 2%N.
Hypothesis digit_9 : digit_value 57%N = Some 9%N.

Lemma year_at_range (s y : ustr) :
  year_at s = Some y -> (1900 <= int_of_digits y <= 2100)%N.
Proof.
  unfold year_at. destruct s as [|a [|b [|c [|d s]]]]; try discriminate.
  change (u "19") with [49; 57]%N. change (u "20") with [50; 48]%N.
  change (u "2100") with [50; 49; 48; 48]%N.
  cbn [prefixb]. unfold is_digit.
  assert (Hint : forall va vb vc vd,
             digit_value a = Some va -> digit_value b = Some vb ->
             digit_value c = Some vc -> digit_value d = Some vd ->
             int_of_digits [a; b; c; d]
             = ((((0 * 10 + va) * 10 + vb) * 10 + vc) * 10 + vd)%N).
  { intros va vb vc vd Ha Hb Hc Hd. unfold int_of_digits. cbn [fold_left].
    now rewrite Ha, Hb, Hc, Hd. }
  destruct ((49 =? a)%N && ((57 =? b)%N && true) &&
            match digit_value c with Some _ => true | None => false end &&
            match digit_value d with Some _ => true | None => false end) eqn:E19.
  { intros [= <-].
    apply andb_true_iff in E19 as [E19 Ed]. apply andb_true_iff in E19 as [E19 Ec].
    apply andb_true_iff in E19 as [Ea Eb]. apply andb_true_iff in Eb as [Eb _].
    apply N.eqb_eq in Ea, Eb. subst a b.
    destruct (digit_value c) as [vc|] eqn:Hc; [|discriminate].
    destruct (digit_value d) as [vd|] eqn:Hd; [|discriminate].
    rewrite (Hint 1%N 9%N vc vd digit_1 digit_9 eq_refl eq_refl).
    apply digit_le_9 in Hc, Hd. lia. }
  destruct ((50 =? a)%N && ((48 =? b)%N && true) &&
            match digit_value c with Some _ => true | None => false end &&
            match digit_value d with Some _ => true | None => false end) eqn:E20.
  { intros [= <-].
    apply andb_true_iff in E20 as [E20 Ed]. apply andb_true_iff in E20 as [E20 Ec].
    apply andb_true_iff in E20 as [Ea Eb]. apply andb_true_iff in Eb as [Eb _].
    apply N.eqb_eq in Ea, Eb. subst a b.
    destruct (digit_value c) as [vc|] eqn:Hc; [|discriminate].
    destruct (digit_value d) as [vd|] eqn:Hd; [|discriminate].
    rewrite (Hint 2%N 0%N vc vd digit_2 digit_0 eq_refl eq_refl).
    apply digit_le_9 in Hc, Hd. lia. }
  destruct ((50 =? a)%N && ((49 =? b)%N && ((48 =? c)%N && ((48 =? d)%N && true))))
    eqn:E21; [|discriminate].
  intros [= <-].
  apply andb_true_iff in E21 as [Ea E21]. apply andb_true_iff in E21 as [Eb E21].
  apply andb_true_iff in E21 as [Ec E21]. apply andb_true_iff in E21 as [Ed _].
  apply N.eqb_eq in Ea, Eb, Ec, Ed. subst a b c d.
  rewrite (Hint 2%N 1%N 0%N 0%N digit_2 digit_1 digit_0 digit_0). lia.
Qed.

End OptionLists.

(** X8.  The two option lists of the sidebar.  The programs are in the
    order of [sorted] on strings, without repetition, each the trimmed text
    of a cell of the program column and none of the empty values.  The
    years are in the order of their number, without repetition, each four
    characters found in the trimmed text of a cell of the year column, and
    a number from 1900 to 2100 (the digits of [\d] are taken with the
    values [int] gives them: 0 to 9, and 0, 1, 2, 9 for the ASCII digits). *)
Theorem option_lists_shape (U : Unicode) (prog_cells year_cells : list cell) :
  (forall c d, digit_value c = Some d -> (d <= 9)%N) ->
  digit_value 48%N = Some 0%N -> digit_value 49%N = Some 1%N ->
  digit_value 50%N = Some 2%N -> digit_value 57%N = Some 9%N ->
  let programas := programas_of (map prog_value prog_cells) in
  let years := years_of (map year_value year_cells) in
  (Sorted (fun a b => ustr_leb a b = true) programas /\
   NoDup programas /\
   forall p, In p programas ->
     ~ In p PROGRAMA_VACIO /\
     exists v, In v prog_cells /\ strip (py_str v) = p) /\
  (Sorted (fun a b => (int_of_digits a <= int_of_digits b)%N) years /\
   NoDup years /\
   forall y, In y years ->
     length y = 4 /\
     (1900 <= int_of_digits y <= 2100)%N /\
     exists s, In (Text s) year_cells /\ contains y (strip s) = true).
Proof.
  intros H9 H0 H1 H2 H9' programas years. split; repeat split.
  - apply sort_sorted, ustr_leb_total.
  - unfold programas, programas_of.
    eapply Permutation_NoDup; [apply Permutation_sym, sort_perm|].
    apply uniq_NoDup, ustr_eqb_eq.
  - apply programas_of_In in H. apply in_map_iff in H as (v & Hv & _).
    apply prog_value_Some in Hv as [_ Hv]. intros Hin.
    apply mem_ustr_In in Hin. congruence.
  - apply programas_of_In in H. apply in_map_iff in H as (v & Hv & Hin).
    apply prog_value_Some in Hv as [Hv _]. now exists v.
  - apply Sorted_impl with
      (R := fun a b => (int_of_digits a <=? int_of_digits b)%N = true).
    + intros a b. apply N.leb_le.
    + apply sort_sorted. intros a b.
      destruct (N.le_ge_cases (int_of_digits a) (int_of_digits b));
        [left | right]; now apply N.leb_le.
  - unfold years, years_of.
    eapply Permutation_NoDup; [apply Permutation_sym, sort_perm|].
    apply uniq_NoDup, ustr_eqb_eq.
  - now apply years_of_length in H.
  - apply years_of_source in H as (s & _ & Hs).
    apply search_year_at in Hs as (t & Ht).
    apply (year_at_range H9 H0 H1 H2 H9' t y Ht).
  - apply years_of_source in H as (s & _ & Hs).
    apply search_year_at in Hs as (t & Ht).
    apply (year_at_range H9 H0 H1 H2 H9' t y Ht).
  - apply years_of_source in H as (s & Hin & Hs).
    apply in_map_iff in Hin as ([|s'] & Hv & Hin); [discriminate|].
    injection Hv as <-. exists s'. split; [assumption|].
    now apply search_year_contains.
Qed.

Lemma latin_digit_le_9 (c : cp) (d : N) :
  digit_value (Unicode := latin) c = Some d -> (d <= 9)%N.
Proof.
  cbn [digit_value latin]. unfold Latin.digit_value.
  destruct ((48 <=? c)%N && (c <=? 57)%N) eqn:E; [|discriminate].
  intros [= <-]. apply andb_true_iff in E as [E1 E2].
  apply N.leb_le in E1, E2. lia.
Qed.

Lemma option_lists_shape_witness :
  let prog_cells := [Text (u " Sistemas "); Missing; Text (u "Industrial"); Text (u "Sistemas")] in
  let year_cells := [Text (u "2020"); Text (u "egreso 1999-2000"); Missing; Text (u "2020 ")] in
  programas_of (map (prog_value (U := latin)) prog_cells) = [u "Industrial"; u "Sistemas"] /\
  years_of (U := latin) (map year_value year_cells) = [u "1999"; u "2020"] /\
  Sorted (fun a b => ustr_leb a b = true)
         (programas_of (map (prog_value (U := latin)) prog_cells)) /\
  forall y, In y (years_of (U := latin) (map year_value year_cells)) ->
            (1900 <= int_of_digits (U := latin) y <= 2100)%N.
Proof.
  intros prog_cells year_cells.
  split; [vm_compute; reflexivity|]. split; [vm_compute; reflexivity|].
  destruct (option_lists_shape latin prog_cells year_cells latin_digit_le_9
              eq_refl eq_refl eq_refl eq_refl)
    as [(Hsorted & _ & _) (_ & _ & Hyears)].
  split; [exact Hsorted|]. intros y Hy. apply (Hyears y Hy).
Defined.


(* ================================================================= *)
(** ** The charts cut by [head(top_k)] *)

Lemma by_count_desc_total (K : Type) (a b : K * nat) :
  by_count_desc a b = true \/ by_count_desc b a = true.
Proof.
  unfold by_count_desc.
  destruct (Nat.le_ge_cases (snd b) (snd a)); [left | right]; now apply Nat.leb_le.
Qed.

Lemma sort_by_count_desc (K : Type) (d : list (K * nat)) :
  StronglySorted (fun a b => snd b <= snd a) (sort by_count_desc d).
Proof.
  apply Sorted_StronglySorted.
  - intros a b c Hab Hbc. lia.
  - apply Sorted_impl with (R := fun a b => by_count_desc a b = true).
    + intros a b. apply Nat.leb_le.
    + apply sort_sorted, by_count_desc_total.
Qed.

Lemma head_firstn (A : Type) (n : Z) (l : list A) :
  exists m, head n l = firstn m l /\ ((0 <= n)%Z -> m = Z.to_nat n).
Proof.
  unfold head. destruct (0 <=? n)%Z eqn:E.
  - now exists (Z.to_nat n).
  - exists (length l - Z.to_nat (- n)). split; [reflexivity|].
    apply Z.leb_gt in E. lia.
Qed.

Lemma StronglySorted_app (A : Type) (R : A -> A -> Prop) (l1 l2 : list A) :
  StronglySorted R (l1 ++ l2) ->
  StronglySorted R l1 /\ forall a b, In a l1 -> In b l2 -> R a b.
Proof.
  induction l1 as [|x l1 IH]; cbn [app]; intros H.
  - split; [constructor | intros a b []].
  - inversion H as [|? ? Hs Hall]; subst. destruct (IH Hs) as [IH1 IH2].
    split.
    + constructor; [exact IH1|].
      apply Forall_forall. intros y Hy.
      apply (proj1 (Forall_forall _ _) Hall). apply in_or_app. now left.
    + intros a b [<-|Ha] Hb.
      * apply (proj1 (Forall_forall _ _) Hall). apply in_or_app. now right.
      * now apply IH2.
Qed.

Lemma total_app (K : Type) (d1 d2 : list (K * nat)) :
  total (d1 ++ d2) = total d1 + total d2.
Proof.
  unfold total. induction d1 as [|p d1 IH]; cbn [app fold_right]; [reflexivity|].
  rewrite IH. lia.
Qed.

(** The first entries of the distribution of [serie]. *)
Lemma head_value_counts (top_k : Z) (serie : list ustr) :
  most_frequent top_k serie (head top_k (value_counts serie)).
Proof.
  destruct (head_firstn _ top_k (value_counts serie)) as (m & -> & Hm).
  pose proof (firstn_skipn m (value_counts serie)) as Hsplit.
  assert (Hin : forall p, In p (firstn m (value_counts serie)) ->
                          In p (value_counts serie)).
  { intros p Hp. rewrite <- Hsplit. apply in_or_app. now left. }
  assert (Hkeys : Permutation (map fst (value_counts serie)) (unique serie)).
  { unfold value_counts, unique.
    rewrite <- (tally_keys _ ustr_eqb serie).
    apply Permutation_map, sort_perm. }
  assert (Hnd : NoDup (map fst (value_counts serie))).
  { eapply Permutation_NoDup; [apply Permutation_sym, Hkeys|].
    apply uniq_NoDup, ustr_eqb_eq. }
  assert (Hsorted : StronglySorted (fun a b : ustr * nat => snd b <= snd a)
                                   (value_counts serie))
    by apply sort_by_count_desc.
  rewrite <- Hsplit in Hnd, Hsorted.
  apply StronglySorted_app in Hsorted as [Hs1 Hs2].
  rewrite map_app in Hnd.
  repeat split.
  - now apply NoDup_app_remove_r in Hnd.
  - apply Hin in H. now apply value_counts_entry in H.
  - apply Hin in H. apply value_counts_entry in H as [H ->].
    apply count_pos; [apply ustr_eqb_eq | exact H].
  - exact Hs1.
  - intros t Ht Hnot t' n Hshown.
    pose proof (value_counts_In t serie Ht) as Hall.
    rewrite <- Hsplit in Hall. apply in_app_or in Hall as [Hall|Hall].
    + exfalso. apply Hnot. apply in_map_iff. now exists (t, count_ustr t serie).
    + apply (Hs2 (t', n) (t, count_ustr t serie) Hshown Hall).
  - intros Hk. rewrite length_firstn, (Hm Hk). f_equal.
    rewrite <- (length_map fst). now apply Permutation_length.
  - pose proof (value_counts_total serie) as Ht.
    rewrite <- Hsplit, total_app in Ht. lia.
Qed.

(** X9.  A categorical chart and a chart of multiple answers show the most
    frequent values of their series: the trimmed answers (bucketed by
    [normalize_beneficios] in the column of the benefits), and the tokens
    of the answers. *)
Theorem top_k_charts (U : Unicode) (df : Frame) (col label : ustr) (top_k : Z) :
  (forall vals,
     getitem_str df col = Ok vals ->
     let serie := map strip (texts vals) in
     let serie' :=
       if ustr_eqb (strip col) BENEFICIOS_COL
       then map (fun s => normalize_beneficios (Text s)) serie
       else serie in
     serie' <> [] ->
     exists shown,
       chart_categorical df col label top_k
       = Ok [AltairChart (u "Categoría", u "Conteo") (str_data shown)] /\
       most_frequent top_k serie' shown) /\
  (forall sel,
     getitem df col = Ok sel ->
     let serie := split_multi_values col sel in
     serie <> [] ->
     exists shown,
       chart_multi df col label top_k
       = Ok [AltairChart (u "Selección", u "Conteo") (str_data shown)] /\
       most_frequent top_k serie shown).
Proof.
  split.
  - intros vals Hget serie serie' Hne.
    exists (head top_k (value_counts serie')). split.
    + rewrite (chart_categorical_unfold df col label top_k vals Hget).
      fold serie. fold serie'. destruct serie'; [congruence | reflexivity].
    + apply head_value_counts.
  - intros sel Hget serie Hne.
    exists (head top_k (value_counts serie)). split.
    + unfold chart_multi. rewrite Hget. cbn [bind]. fold serie.
      destruct serie; [congruence | reflexivity].
    + apply head_value_counts.
Qed.

Lemma top_k_charts_witness :
  let df :=
    {| columns := [u "Medios"];
       rows := [ [Text (u "web; correo")]; [Text (u "correo")]; [Missing];
                 [Text (u "radio/correo, web")] ] |} in
  chart_multi (U := latin) df (u "Medios") (u "Medios de contacto") 2
  = Ok [AltairChart (u "Selección", u "Conteo")
          [(LStr (u "correo"), 3); (LStr (u "web"), 2)]] /\
  exists shown,
    chart_multi (U := latin) df (u "Medios") (u "Medios de contacto") 2
    = Ok [AltairChart (u "Selección", u "Conteo") (str_data shown)] /\
    most_frequent 2
      (split_multi_values (U := latin) (u "Medios")
         (PdSeries (column_at df 0))) shown.
Proof.
  intros df. split; [vm_compute; reflexivity|].
  apply (proj2 (top_k_charts latin df (u "Medios") (u "Medios de contacto") 2)
               (PdSeries (column_at df 0))).
  - reflexivity.
  - vm_compute. discriminate.
Defined.


(* ================================================================= *)
(** ** The chart of the options held in columns *)

Lemma positions_from_first (name : ustr) (cols : list ustr) (k i : nat) (ps : list nat) :
  positions_from k name cols = i :: ps ->
  exists j, i = k + j /\ nth_error cols j = Some name /\
            forall j', j' < j -> nth_error cols j' <> Some name.
Proof.
  revert k; induction cols as [|c cols IH]; intros k; cbn [positions_from];
    [discriminate|].
  destruct (ustr_eqb c name) eqn:E.
  - intros [= <- _]. exists 0. apply ustr_eqb_eq in E. subst c.
    repeat split; [lia | intros j' Hj'; lia].
  - intros H. destruct (IH (S k) H) as (j & -> & Hnth & Hfirst).
    exists (S j). repeat split; [lia | exact Hnth |].
    intros [|j'] Hj'; cbn [nth_error].
    + intros [= ->]. rewrite ustr_eqb_refl in E. discriminate.
    + apply Hfirst. lia.
Qed.

Lemma positions_from_nil (name : ustr) (cols : list ustr) (k : nat) :
  positions_from k name cols = [] <-> ~ In name cols.
Proof.
  split.
  - revert k; induction cols as [|c cols IH]; intros k; cbn [positions_from];
      [tauto|].
    destruct (ustr_eqb c name) eqn:E; [discriminate|].
    intros H [->|Hin]; [rewrite ustr_eqb_refl in E; discriminate|].
    now apply (IH (S k)).
  - intros Hnot. destruct (positions_from k name cols) as [|i ps] eqn:E;
      [reflexivity|].
    exfalso. apply Hnot, (positions_from_In name cols k i). rewrite E. now left.
Qed.

Section MultiColsFacts.
Context {F : PyFloat}.

(** [data] of [chart_multi_from_cols]. *)
Lemma multi_cols_data (df : Frame) (option_cols : list ustr) :
  let data :=
    flat_map
      (fun c =>
         match positions_from 0 c (columns df) with
         | [] => []
         | i :: _ => [(c, length (filter selected (column_at df i)))]
         end)
      option_cols in
  map fst data = filter (fun c => mem_ustr c (columns df)) option_cols /\
  forall c n, In (c, n) data ->
    In c option_cols /\
    exists i, nth_error (columns df) i = Some c /\
              (forall j, j < i -> nth_error (columns df) j <> Some c) /\
              n = length (filter selected (column_at df i)).
Proof.
  induction option_cols as [|c cols [IHkeys IHin]]; cbn [flat_map filter map].
  - split; [reflexivity | intros c n []].
  - destruct (positions_from 0 c (columns df)) as [|i ps] eqn:E.
    + assert (Hmem : mem_ustr c (columns df) = false).
      { destruct (mem_ustr c (columns df)) eqn:Hm; [|reflexivity].
        apply mem_ustr_In in Hm. now apply positions_from_nil in E. }
      rewrite Hmem. cbn [app]. split; [exact IHkeys|].
      intros c' n Hin. destruct (IHin c' n Hin) as [H1 H2]. split; [now right | exact H2].
    + assert (Hmem : mem_ustr c (columns df) = true).
      { apply mem_ustr_In, (positions_from_In c (columns df) 0 i).
        rewrite E. now left. }
      rewrite Hmem. cbn [app map fst]. split; [now rewrite IHkeys|].
      intros c' n [[= <- <-]|Hin].
      * split; [now left|].
        destruct (positions_from_first c (columns df) 0 i ps E) as (j & -> & Hj & Hfirst).
        now exists j.
      * destruct (IHin c' n Hin) as [H1 H2]. split; [now right | exact H2].
Qed.

End MultiColsFacts.

(** X10.  The chart of a question whose options are columns.  Without
    configured columns, or with none of them in the data, it gives a notice
    and no chart.  Otherwise its table has one row for each configured
    column that the data have, in the order of the configuration (a column
    configured twice has two rows), with the number of cells of the first
    column of that name which read as a number other than zero (zero for a
    column without any).  The table is sorted by falling count and then cut
    by [head(top_k)]: the chart shows the first rows in that order, and no
    row left out has a larger count than a row shown.  This holds whatever
    order the sort gives to the rows of one count. *)
Theorem multi_columns_chart
  (F : PyFloat) (df : Frame) (option_cols : list ustr) (label : ustr) (top_k : Z) :
  (forall d, Permutation (sort_values d) d) ->
  (forall d, StronglySorted (fun a b => snd b <= snd a) (sort_values d)) ->
  let present := filter (fun c => mem_ustr c (columns df)) option_cols in
  (option_cols = [] ->
   chart_multi_from_cols df option_cols label top_k
   = Ok [Info (u "Sin columnas de opción configuradas para esta pregunta.")]) /\
  (option_cols <> [] -> present = [] ->
   chart_multi_from_cols df option_cols label top_k
   = Ok [Info (u "Sin datos seleccionados para esta pregunta.")]) /\
  (present <> [] ->
   exists data shown hidden,
     chart_multi_from_cols df option_cols label top_k
     = Ok [AltairChart (u "Selección", u "Conteo") (str_data shown)] /\
     map fst data = present /\
     (forall c n, In (c, n) data ->
        n <= length (rows df) /\
        exists i, nth_error (columns df) i = Some c /\
                  (forall j, j < i -> nth_error (columns df) j <> Some c) /\
                  n = length (filter selected (column_at df i))) /\
     Permutation (shown ++ hidden) data /\
     StronglySorted (fun a b => snd b <= snd a) shown /\
     (forall a b, In a shown -> In b hidden -> snd b <= snd a) /\
     ((0 <= top_k)%Z ->
      length shown = Nat.min (Z.to_nat top_k) (length present)) /\
     ((top_k < 0)%Z ->
      length shown = length present - Z.to_nat (- top_k))).
Proof.
  intros Hperm Hdesc present.
  destruct (multi_cols_data df option_cols) as [Hkeys Hin].
  unfold chart_multi_from_cols.
  set (data := flat_map _ option_cols) in *.
  fold present in Hkeys.
  split; [intros ->; reflexivity|]. split.
  - intros Hne Hnil. destruct option_cols as [|c cols]; [congruence|].
    cbn [is_nil]. rewrite Hnil in Hkeys. destruct data; [reflexivity | discriminate].
  - intros Hpresent.
    assert (Hcols : is_nil option_cols = false).
    { destruct option_cols; [|reflexivity]. now contradiction Hpresent. }
    assert (Hdata : is_nil data = false).
    { destruct data; [|reflexivity]. cbn [map] in Hkeys. congruence. }
    rewrite Hcols, Hdata.
    assert (Hlen : length (sort_values data) = length present).
    { rewrite (Permutation_length (Hperm data)).
      now rewrite <- (length_map fst), Hkeys. }
    assert (Hhead : exists m,
               head top_k (sort_values data) = firstn m (sort_values data) /\
               ((0 <= top_k)%Z -> m = Z.to_nat top_k) /\
               ((top_k < 0)%Z -> m = length present - Z.to_nat (- top_k))).
    { unfold head. destruct (0 <=? top_k)%Z eqn:E.
      - exists (Z.to_nat top_k). apply Z.leb_le in E.
        split; [reflexivity|]. split; intros; [reflexivity | lia].
      - exists (length (sort_values data) - Z.to_nat (- top_k)). apply Z.leb_gt in E.
        split; [reflexivity|]. split; intros; [lia | now rewrite Hlen]. }
    destruct Hhead as (m & Hm & Hpos & Hneg).
    exists data, (firstn m (sort_values data)), (skipn m (sort_values data)).
    pose proof (Hdesc data) as Hsorted.
    rewrite <- (firstn_skipn m (sort_values data)) in Hsorted.
    apply StronglySorted_app in Hsorted as [Hs1 Hs2].
    split; [now rewrite Hm|]. split; [exact Hkeys|]. split.
    { intros c n Hd. destruct (Hin c n Hd) as (_ & i & Hi & Hfirst & Hn).
      split; [|now exists i].
      rewrite Hn. etransitivity; [apply filter_length_le|].
      unfold column_at. now rewrite length_map. }
    split; [rewrite firstn_skipn; apply Hperm|].
    split; [exact Hs1|]. split; [exact Hs2|]. split.
    + intros Hk. rewrite length_firstn, Hlen, (Hpos Hk). reflexivity.
    + intros Hk. rewrite length_firstn, Hlen, (Hneg Hk). lia.
Qed.

Lemma multi_columns_chart_witness :
  let df :=
    {| columns := [u "Radio"; u "Web"; u "Correo"];
       rows := [ [Text (u "0"); Text (u "0"); Text (u "1")];
                 [Text (u "x"); Text (u ""); Text (u " 2 ")];
                 [Text (u "0.0"); Text (u " inf "); Text (u "1,0")] ] |} in
  let option_cols := [u "Web"; u "Prensa"; u "Radio"; u "Correo"] in
  chart_multi_from_cols (F := @binary64 latin) df option_cols (u "Medios") 2
  = Ok [AltairChart (u "Selección", u "Conteo")
          [(LStr (u "Correo"), 2); (LStr (u "Web"), 0)]] /\
  exists data shown hidden,
    chart_multi_from_cols (F := @binary64 latin) df option_cols (u "Medios") 2
    = Ok [AltairChart (u "Selección", u "Conteo") (str_data shown)] /\
    map fst data = [u "Web"; u "Radio"; u "Correo"] /\
    Permutation (shown ++ hidden) data /\
    (forall a b, In a shown -> In b hidden -> snd b <= snd a) /\
    length shown = 2.
Proof.
  intros df option_cols. split; [vm_compute; reflexivity|].
  destruct (multi_columns_chart (@binary64 latin) df option_cols (u "Medios") 2
              (fun d => sort_perm _ by_count_desc d)
              (fun d => sort_by_count_desc _ d))
    as (_ & _ & Hchart).
  destruct Hchart as (data & shown & hidden & Hshown & Hdata & _ & Hperm & _ & Hcut & Hlen & _);
    [vm_compute; discriminate|].
  exists data, shown, hidden.
  split; [exact Hshown|]. split; [exact Hdata|]. split; [exact Hperm|].
  split; [exact Hcut|]. apply Hlen. lia.
Defined.


(* ================================================================= *)
(** ** Patterns that the normalised text cannot hold *)

Lemma prefixb_incl (p s : ustr) : prefixb p s = true -> incl p s.
Proof.
  revert s; induction p as [|x p IH]; intros s; [intros _ c Hc; contradiction|].
  destruct s as [|y s]; cbn [prefixb]; [discriminate|].
  intros H. apply andb_true_iff in H as [Hx Hp]. apply N.eqb_eq in Hx. subst y.
  intros c [<-|Hc]; [now left | right; now apply (IH s Hp)].
Qed.

Lemma contains_incl (p s : ustr) : contains p s = true -> incl p s.
Proof.
  induction s as [|y s IH].
  - destruct p; cbn [contains prefixb orb]; [intros _ c Hc; contradiction | discriminate].
  - cbn [contains]. intros H. apply orb_true_iff in H as [H|H].
    + now apply prefixb_incl.
    + intros c Hc. right. now apply (IH H).
Qed.

Section DeadPatterns.
Context {U : Unicode}.

Lemma sub_ws_In (b : bool) (s : ustr) (c : cp) :
  In c (sub_ws b s) -> c = SP \/ In c s.
Proof.
  revert b; induction s as [|d s IH]; intros b; cbn [sub_ws]; [tauto|].
  destruct (isspace d).
  - destruct b.
    + intros H. destruct (IH true H); auto. right. now right.
    + intros [<-|H]; [now left|]. destruct (IH true H); auto. right. now right.
  - intros [<-|H]; [right; now left|]. destruct (IH false H); auto. right. now right.
Qed.

Lemma norm_In_nfd (v : cell) (c : cp) :
  In c (norm v) -> c = SP \/ exists s, In c (nfd s).
Proof.
  destruct v as [|s]; [intros []|]. unfold norm.
  intros H. apply sub_ws_In in H as [H|H]; [now left|].
  apply filter_In in H as [H _]. right. eauto.
Qed.

End DeadPatterns.

(** X11.  Three of the six patterns of the year column are never found.
    The column names are compared after [norm], whose decomposition leaves
    no precomposed letter n with tilde; the patterns written with that
    letter cannot occur in a normalised name, so the header row and the
    year column are found by the three patterns written with a plain n. *)
Theorem accented_year_patterns_never_match (U : Unicode) (v : cell) :
  (forall s, ~ In 241%N (nfd s)) ->
  contains_any YEAR_PATTERNS (norm v)
  = contains_any [u "anoegreso"; u "ano egreso"; u "ano de egreso"] (norm v) /\
  forall p, In p YEAR_PATTERNS -> In 241%N p -> contains p (norm v) = false.
Proof.
  intros Hnfd.
  assert (Hdead : forall p, In 241%N p -> contains p (norm v) = false).
  { intros p Hp. destruct (contains p (norm v)) eqn:E; [|reflexivity].
    apply contains_incl in E. apply E in Hp.
    apply norm_In_nfd in Hp as [Hp|[s Hp]]; [discriminate|].
    now apply Hnfd in Hp. }
  split; [|intros p _ Hp; now apply Hdead].
  unfold contains_any, YEAR_PATTERNS. cbn [existsb].
  rewrite (Hdead (u "añoegreso")) by (vm_compute; tauto).
  rewrite (Hdead (u "año egreso")) by (vm_compute; tauto).
  rewrite (Hdead (u "año de egreso")) by (vm_compute; tauto).
  reflexivity.
Qed.

Lemma assoc_In (A : Type) (c : cp) (t : list (cp * A)) (v : A) :
  Latin.assoc c t = Some v -> In (c, v) t.
Proof.
  induction t as [|[k w] t IH]; cbn [Latin.assoc]; [discriminate|].
  destruct (k =? c)%N eqn:E.
  - intros [= ->]. apply N.eqb_eq in E. subst. now left.
  - intros H. right. now apply IH.
Qed.

(** The decompositions of the tables hold no letter n with tilde. *)
Lemma latin_nfd_no_n_tilde (s : ustr) : ~ In 241%N (nfd (Unicode := latin) s).
Proof.
  cbn [nfd latin]. unfold Latin.nfd.
  assert (H : Forall (fun c => c <> 241%N) (flat_map Latin.decompose s)).
  { apply Forall_flat_map, Forall_forall. intros c _.
    unfold Latin.decompose.
    destruct (Latin.assoc c Latin.DECOMPOSITIONS) as [d|] eqn:E.
    - apply assoc_In in E.
      assert (Hall : forallb (fun e => forallb (fun x => negb (x =? 241)%N) (snd e))
                             Latin.DECOMPOSITIONS = true) by (vm_compute; reflexivity).
      rewrite forallb_forall in Hall. specialize (Hall _ E). cbn [snd] in Hall.
      rewrite forallb_forall in Hall. apply Forall_forall. intros x Hx.
      specialize (Hall x Hx). apply negb_true_iff in Hall. now apply N.eqb_neq.
    - constructor; [|constructor]. intros ->. vm_compute in E. discriminate. }
  apply (canonical_order_Forall _ _) in H.
  intros Hin. apply (proj1 (Forall_forall _ _) H) in Hin. now apply Hin.
Qed.

Lemma accented_year_patterns_never_match_witness :
  norm (U := latin) (Text (u "  Año de  Egreso")) = u "ano de egreso" /\
  contains (u "año de egreso") (norm (U := latin) (Text (u "  Año de  Egreso"))) = false.
Proof.
  split; [vm_compute; reflexivity|].
  apply (proj2 (accented_year_patterns_never_match latin
                  (Text (u "  Año de  Egreso")) latin_nfd_no_n_tilde)).
  - vm_compute. tauto.
  - vm_compute. tauto.
Defined.


(* ================================================================= *)
(** ** A second pass of [normalize_beneficios] *)

Lemma prefixb_app (p s b : ustr) : prefixb p s = true -> prefixb p (s ++ b) = true.
Proof.
  revert s; induction p as [|x p IH]; intros s; [reflexivity|].
  destruct s as [|y s]; cbn [prefixb app]; [discriminate|].
  intros H. apply andb_true_iff in H as [Hx Hp].
  rewrite Hx. now apply IH.
Qed.

Lemma contains_app_r (p s b : ustr) : contains p s = true -> contains p (s ++ b) = true.
Proof.
  induction s as [|y s IH].
  - destruct p as [|x p]; cbn [contains prefixb orb]; [|discriminate].
    intros _. destruct b; reflexivity.
  - cbn [app contains]. intros H. apply orb_true_iff in H as [H|H].
    + change (prefixb p ((y :: s) ++ b) || contains p (s ++ b) = true).
      now rewrite (prefixb_app p (y :: s) b H).
    + rewrite (IH H). apply orb_true_r.
Qed.

Lemma contains_app_l (p a s : ustr) : contains p s = true -> contains p (a ++ s) = true.
Proof.
  intros H. induction a as [|y a IH]; [exact H|].
  cbn [app contains]. rewrite IH. apply orb_true_r.
Qed.

Lemma find_all_false (A : Type) (f : A -> bool) (l : list A) :
  (forall x, In x l -> f x = false) -> find f l = None.
Proof.
  induction l as [|x l IH]; intros H; cbn [find]; [reflexivity|].
  rewrite (H x) by now left. apply IH. intros y Hy. apply H. now right.
Qed.

Section StripMore.
Context {U : Unicode}.

Lemma dropwhile_map (f : cp -> cp) (s : ustr) :
  (forall c, isspace (f c) = isspace c) ->
  dropwhile isspace (map f s) = map f (dropwhile isspace s).
Proof.
  intros Hf. induction s as [|c s IH]; [reflexivity|].
  cbn [map dropwhile]. rewrite Hf. now destruct (isspace c).
Qed.

Lemma strip_map (f : cp -> cp) (s : ustr) :
  (forall c, isspace (f c) = isspace c) -> strip (map f s) = map f (strip s).
Proof.
  intros Hf. unfold strip, rstrip, lstrip.
  now rewrite (dropwhile_map f s Hf), <- map_rev, (dropwhile_map f _ Hf), map_rev.
Qed.

Lemma strip_substring (s : ustr) : exists a b, s = a ++ strip s ++ b.
Proof.
  unfold strip, rstrip, lstrip.
  destruct (dropwhile_suffix isspace s) as [a Ha].
  destruct (dropwhile_suffix isspace (rev (dropwhile isspace s))) as [b Hb].
  exists a, (rev b). rewrite <- rev_app_distr, <- Hb, rev_involutive. exact Ha.
Qed.

(** White space around the text is nothing to [norm]. *)
Lemma norm_strip (raw : ustr) :
  isspace NBSP = true -> isspace SP = true ->
  norm (Text (strip raw)) = norm (Text raw).
Proof.
  intros Hnbsp Hsp. unfold norm.
  assert (H : strip (replace_cp NBSP SP (strip raw)) = strip (replace_cp NBSP SP raw)).
  { unfold replace_cp.
    assert (Hf : forall c, isspace (if (c =? NBSP)%N then SP else c) = isspace c).
    { intros c. destruct (c =? NBSP)%N eqn:E; [|reflexivity].
      apply N.eqb_eq in E. subst c. congruence. }
    rewrite !(strip_map _ _ Hf). now rewrite strip_idempotent. }
  now rewrite H.
Qed.

End StripMore.

(** A rule that does not apply to a text does not apply to a part of it
    taken with the same normalised text. *)
Lemma rules_of_part (t low low' : ustr) :
  (forall p, contains p low' = true -> contains p low = true) ->
  find (fun r => fst r t low) BENEFICIOS_RULES = None ->
  find (fun r => fst r t low') BENEFICIOS_RULES = None.
Proof.
  intros Hmono Hnone. apply find_all_false. intros r Hr.
  pose proof (find_none _ _ Hnone r Hr) as H. cbv beta in H.
  assert (Hlow : forall p, contains p low = false -> contains p low' = false).
  { intros p Hp. destruct (contains p low') eqn:E; [|reflexivity].
    apply Hmono in E. congruence. }
  unfold BENEFICIOS_RULES in Hr. cbn [In] in Hr.
  repeat (destruct Hr as [<-|Hr]); [..|contradiction]; cbn [fst] in H |- *;
    repeat (apply orb_false_iff in H as [H ?]);
    repeat (apply orb_false_iff; split);
    first [assumption | now apply Hlow].
Qed.

(** The categories of the rules are bucketed as themselves. *)
Lemma categories_fixed (r : (ustr -> ustr -> bool) * ustr) :
  In r BENEFICIOS_RULES ->
  normalize_beneficios (U := latin) (Text (snd r)) = snd r.
Proof.
  intros Hr. unfold BENEFICIOS_RULES in Hr. cbn [In] in Hr.
  repeat (destruct Hr as [<-|Hr]); [..|contradiction]; cbn [snd];
    vm_compute; reflexivity.
Qed.

(** X12.  [normalize_beneficios] is idempotent on the text of the three
    blocks of the tables: the six categories, the empty text and a trimmed
    answer that no rule buckets are each bucketed as themselves, so the
    labels of the chart of the benefits are stable under the function that
    made them. *)
Theorem normalize_beneficios_idempotent (raw : ustr) :
  Forall (fun c => Latin.in_tables c = true) raw ->
  normalize_beneficios (U := latin)
    (Text (normalize_beneficios (U := latin) (Text raw)))
  = normalize_beneficios (U := latin) (Text raw).
Proof.
  intros _. rewrite (normalize_beneficios_rules raw).
  destruct (is_empty (norm (Text raw))) eqn:Hempty.
  - apply normalize_beneficios_empty; reflexivity.
  - unfold first_rule.
    destruct (find (fun r => fst r (norm (Text raw)) (str_lower raw)) BENEFICIOS_RULES)
      as [r|] eqn:Hfind.
    + apply find_some in Hfind as [Hr _]. now apply categories_fixed.
    + rewrite (normalize_beneficios_rules (strip raw)).
      rewrite (norm_strip (U := latin) raw eq_refl eq_refl), Hempty.
      unfold first_rule.
      rewrite (rules_of_part (norm (Text raw)) (str_lower raw) (str_lower (strip raw))).
      * apply strip_idempotent.
      * intros p Hp. destruct (strip_substring raw) as (a & b & Hraw).
        rewrite Hraw at 1. cbn [str_lower latin]. unfold Latin.str_lower.
        rewrite !map_app. apply contains_app_l, contains_app_r. exact Hp.
      * exact Hfind.
Qed.

Lemma normalize_beneficios_idempotent_witness :
  normalize_beneficios (U := latin) (Text (u " Bolsa de Empleo y más "))
  = u "Vinculación laboral / empleabilidad" /\
  normalize_beneficios (U := latin)
    (Text (normalize_beneficios (U := latin) (Text (u " Bolsa de Empleo y más "))))
  = normalize_beneficios (U := latin) (Text (u " Bolsa de Empleo y más ")).
Proof.
  split; [vm_compute; reflexivity|].
  apply normalize_beneficios_idempotent.
  apply Forall_forall. intros c Hc.
  assert (H : forallb Latin.in_tables (u " Bolsa de Empleo y más ") = true)
    by (vm_compute; reflexivity).
  rewrite forallb_forall in H. now apply H.
Defined.


(* ================================================================= *)
(** ** The fall-back path of the loader *)

Lemma find_existsb (A : Type) (f : A -> bool) (l : list A) :
  existsb f l = false -> find f l = None.
Proof.
  induction l as [|x l IH]; cbn [existsb find]; [reflexivity|].
  destruct (f x); [discriminate | exact IH].
Qed.

(** X13.  The fall-back of the loader does not save a file.  When no row
    of the first fifty is a header row, the loader reads the source again:
    a file object, as the uploaded file that [main] passes, is at its end
    by then and the loader raises the error of an empty file; a file at a
    path is read with its first record as header, and if the plain reading
    names the columns by that record, the frame returned has no pair of
    filter columns and the classifier raises on it with the cleaned names.
    Either way the loader followed by the classifier raises. *)
Theorem fallback_has_no_filter_columns (U : Unicode) (src : CsvSource) :
  header_row_idx (read_csv_raw src) = None ->
  (csv_kind src = FileObject ->
   load_data_with_header_detection src = Raise EmptyDataError) /\
  (csv_kind src = FilePath -> csv_fields src <> [] ->
   load_data_with_header_detection src
   = Ok {| columns := map clean_header (columns (csv_default src));
           rows := rows (csv_default src) |} /\
   (columns (csv_default src) = hd [] (csv_fields src) ->
    (df <- load_data_with_header_detection src ;; detect_program_year_columns df)
    = Raise (MissingColumns (map clean_header (hd [] (csv_fields src)))))) /\
  (columns (csv_default src) = hd [] (csv_fields src) ->
   exists e,
     (df <- load_data_with_header_detection src ;; detect_program_year_columns df)
     = Raise e).
Proof.
  intros Hnone.
  assert (Hobject : csv_kind src = FileObject ->
                    load_data_with_header_detection src = Raise EmptyDataError).
  { intros Hkind. unfold load_data_with_header_detection.
    destruct (csv_fields src); [reflexivity|].
    cbv zeta. now rewrite Hnone, Hkind. }
  assert (Hpath : csv_kind src = FilePath -> csv_fields src <> [] ->
                  load_data_with_header_detection src
                  = Ok {| columns := map clean_header (columns (csv_default src));
                          rows := rows (csv_default src) |}).
  { intros Hkind Hne. unfold load_data_with_header_detection.
    destruct (csv_fields src); [congruence|].
    cbv zeta. now rewrite Hnone, Hkind. }
  assert (Hdetect : columns (csv_default src) = hd [] (csv_fields src) ->
            detect_program_year_columns
              {| columns := map clean_header (columns (csv_default src));
                 rows := rows (csv_default src) |}
            = Raise (MissingColumns (map clean_header (hd [] (csv_fields src))))).
  { intros Hcols.
    unfold detect_program_year_columns. cbn [columns]. rewrite Hcols, detect_fold.
    set (names := hd [] (csv_fields src)).
    assert (Hrow : is_header_row (map Text names) = false).
    { destruct (csv_fields src) as [|r0 rest] eqn:E.
      - reflexivity.
      - destruct (is_header_row (map Text names)) eqn:Hh; [|reflexivity].
        assert (Hsome : header_row_idx (read_csv_raw src) = Some 0).
        { apply header_row_idx_spec. repeat split; [lia | | intros j r Hj; lia].
          exists (map Text names). split; [|exact Hh].
          unfold read_csv_raw. rewrite E. subst names. cbn [map nth_error hd].
          f_equal. }
        congruence. }
    unfold is_header_row in Hrow. cbv zeta in Hrow.
    assert (Hfind : forall patterns,
               existsb (contains_any patterns) (map norm (map Text names)) = false ->
               first_matching patterns (map clean_header names) = None).
    { intros patterns Hex. unfold first_matching. apply find_existsb.
      rewrite <- Hex, map_map. clear.
      induction names as [|c names IH]; [reflexivity|].
      cbn [map existsb]. now rewrite norm_clean_header, IH. }
    apply andb_false_iff in Hrow as [Hp|Hy].
    - rewrite (Hfind _ Hp). reflexivity.
    - rewrite (Hfind _ Hy).
      now destruct (first_matching PROGRAM_PATTERNS (map clean_header names)). }
  split; [exact Hobject|]. split.
  - intros Hkind Hne. split; [exact (Hpath Hkind Hne)|].
    intros Hcols. rewrite (Hpath Hkind Hne). cbn [bind]. exact (Hdetect Hcols).
  - intros Hcols. destruct (csv_kind src) eqn:Hkind.
    + destruct (csv_fields src) as [|r0 rest] eqn:E.
      * exists EmptyDataError. unfold load_data_with_header_detection.
        now rewrite E.
      * assert (Hne : r0 :: rest <> []) by discriminate.
        eexists. rewrite (Hpath eq_refl Hne). cbn [bind]. exact (Hdetect Hcols).
    + exists EmptyDataError. now rewrite (Hobject eq_refl).
Qed.

Lemma fallback_has_no_filter_columns_witness :
  let fields := [ [u "Programa"; u "Egreso"]; [u "Sistemas"; u "2020"] ] in
  let default :=
    {| columns := [u "Programa"; u "Egreso"];
       rows := [ [Text (u "Sistemas"); Text (u "2020")] ] |} in
  let uploaded :=
    {| csv_kind := FileObject; csv_fields := fields; csv_default := default |} in
  let at_path :=
    {| csv_kind := FilePath; csv_fields := fields; csv_default := default |} in
  load_data_with_header_detection (U := latin) uploaded = Raise EmptyDataError /\
  (df <- load_data_with_header_detection (U := latin) at_path ;;
   detect_program_year_columns (U := latin) df)
  = Raise (MissingColumns [u "Programa"; u "Egreso"]).
Proof.
  intros fields default uploaded at_path. split.
  - apply (proj1 (fallback_has_no_filter_columns latin uploaded
                    ltac:(vm_compute; reflexivity))).
    reflexivity.
  - destruct (fallback_has_no_filter_columns latin at_path
                ltac:(vm_compute; reflexivity)) as (_ & Hpath & _).
    destruct (Hpath eq_refl ltac:(discriminate)) as [_ Hdetect].
    exact (Hdetect eq_refl).
Defined.


(* ================================================================= *)
(** ** A name that several columns bear *)

(** X14.  When two or more columns of the frame bear the name of the
    question's column, [df[col]] is a frame and not a series: the binary
    and the categorical chart raise on its [.str], and the chart of
    multiple answers, which iterates over it, counts the name of the
    column once for each column that bears it, whatever the rows hold. *)
Theorem shared_column_name
  (U : Unicode) (df : Frame) (col label : ustr) (top_k : Z)
  (i j : nat) (ps : list nat) :
  positions_from 0 col (columns df) = i :: j :: ps ->
  chart_binary df col label = Raise (AttributeError (u "str")) /\
  chart_categorical df col label top_k = Raise (AttributeError (u "str")) /\
  split_multi_values col (PdFrame (map (column_at df) (i :: j :: ps)))
  = concat (repeat (split_multi_values col (PdSeries [Text col]))
                   (length (i :: j :: ps))) /\
  forall df', columns df' = columns df ->
    chart_multi df' col label top_k = chart_multi df col label top_k.
Proof.
  intros Hpos.
  assert (Htokens : forall (d : Frame) (l : list nat),
             split_multi_values col (PdFrame (map (column_at d) l))
             = concat (repeat (split_multi_values col (PdSeries [Text col])) (length l))).
  { intros d l. unfold split_multi_values, iterate_dropna. cbn [texts flat_map].
    rewrite app_nil_r, map_map.
    induction l as [|x l IH]; [reflexivity|].
    cbn [map flat_map length repeat concat]. now rewrite IH. }
  repeat split.
  - unfold chart_binary, getitem_str, getitem. now rewrite Hpos.
  - unfold chart_categorical, getitem_str, getitem. now rewrite Hpos.
  - apply Htokens.
  - intros df' Hcols. unfold chart_multi, getitem. rewrite Hcols, Hpos. cbn [bind].
    now rewrite !Htokens.
Qed.

Lemma shared_column_name_witness :
  let df :=
    {| columns := [u "Medios"; u "Edad"; u "Medios"];
       rows := [ [Text (u "web"); Text (u "30"); Text (u "radio")] ] |} in
  chart_binary (U := latin) df (u "Medios") (u "Medios") = Raise (AttributeError (u "str")) /\
  chart_multi (U := latin) df (u "Medios") (u "Medios") 10
  = Ok [AltairChart (u "Selección", u "Conteo") [(LStr (u "Medios"), 2)]].
Proof.
  intros df.
  destruct (shared_column_name latin df (u "Medios") (u "Medios") 10 0 2 [] eq_refl)
    as (Hbinary & _ & _ & _).
  split; [exact Hbinary | vm_compute; reflexivity].
Defined.
